(** * pqxx::connection_base: lifecycle of the logical connection

    A shallow embedding of [src/connection_base.cxx] (libpqxx): the member
    functions of [pqxx::connection_base] become functions in a small
    state/exception monad over the object's fields, and every call that
    leaves the object (into libpq, into the connection policy, into an error
    handler or a notification receiver) is recorded in the list of events the
    computation returns. *)

From Stdlib Require Import ZArith List Bool Ascii String Lia.
From Stdlib Require Import OrderedTypeEx Sorted DecimalString.
From Stdlib Require DecimalPos DecimalZ.
From stdpp Require Import base option list strings gmap.

Local Open Scope string_scope.
Local Open Scope list_scope.
Local Open Scope Z_scope.

(** ** Exceptions

    Everything the translation unit throws derives from [std::exception];
    a value of [exn] is the dynamic class of the exception together with
    its [what()] text.  [other_exception] stands for any further class
    derived from [std::exception] that foreign code (a policy, a receiver)
    may raise. *)

Inductive exn : Type :=
  | broken_connection (what : string)
  | failure (what : string)
  | sql_error (what : string)
  | feature_not_supported (what : string)
  | usage_error (what : string)
  | argument_error (what : string)
  | internal_error (what : string)
  | other_exception (what : string).

Definition what (e : exn) : string :=
  match e with
  | broken_connection w | failure w | sql_error w | feature_not_supported w
  | usage_error w | argument_error w | internal_error w | other_exception w => w
  end.

(** [catch (const broken_connection &)] selects exactly this class. *)
Definition is_broken_connection (e : exn) : bool :=
  match e with broken_connection _ => true | _ => false end.

(** Text of a default-constructed [broken_connection]. *)
Definition broken_connection_default : exn :=
  broken_connection "Connection to database failed".

Inductive Result (A : Type) : Type :=
  | Ok (a : A)
  | Throw (e : exn).
Arguments Ok {A} a.
Arguments Throw {A} e.

(** ** Values exchanged with libpq *)

(** A [PGconn] object is known by its identity; [m_Conn] is a nullable
    pointer to one. *)
Definition PGconn : Type := nat.
Definition handle : Type := option PGconn.

Inductive ConnStatusType : Type :=
  | CONNECTION_OK
  | CONNECTION_BAD
  | CONNECTION_PENDING.

Definition status_ok (st : ConnStatusType) : bool :=
  match st with CONNECTION_OK => true | _ => false end.

(** Modelled from the spec: [pqxx::result] and its [CheckStatus()] live in
    result.cxx.  A statement-level failure is the result's own failure state;
    [pg_error] is the exception [CheckStatus()] raises for this reply, if
    any. *)
Record PGresult : Type := {
  pg_id : nat;
  pg_error : option exn
}.

(** [make_result(ptr, query)]: the raw reply, possibly null, with the text
    of the originating statement. *)
Record result : Type := make_result {
  r_data : option PGresult;
  r_query : string
}.

(** [gate::result_connection(R)] converted to [bool]: the reply is not null. *)
Definition result_connection (R : result) : bool :=
  match r_data R with Some _ => true | None => false end.

Record PGnotify : Type := {
  relname : string;
  be_pid : Z;
  extra : string
}.

(** ** Foreign objects the connection only points to *)

(** [m_Trans.get()]: the registered transaction, of which only
    [description()] is consulted here. *)
Record transaction_base : Type := {
  description : string
}.

(** An [errorhandler]: [operator()(msg)] answers whether older handlers may
    still see the message. *)
Record errorhandler : Type := {
  eh_id : nat;
  eh_call : string -> bool
}.

(** A [notification_receiver]: [operator()(payload, backend_pid)] returns or
    throws. *)
Record notification_receiver : Type := {
  nr_id : nat;
  channel : string;
  nr_call : string -> Z -> option exn
}.

(** Modelled from the spec: [prepare::internal::prepared_def] is declared in
    a header; an entry is (definition text, registered flag) and a fresh
    entry is not registered. *)
Record prepared_def : Type := {
  definition : string;
  registered : bool
}.

Definition prepared_def_new (def : string) : prepared_def :=
  {| definition := def; registered := false |}.

Inductive capability : Type :=
  | cap_prepared_statements
  | cap_statement_varargs
  | cap_prepare_unnamed_statement
  | cap_cursor_scroll
  | cap_cursor_with_hold
  | cap_cursor_fetch_0
  | cap_nested_transactions
  | cap_create_table_with_oids
  | cap_read_only_transactions
  | cap_notify_payload
  | cap_table_column
  | cap_parameterized_statements.

Definition capability_eqb (a b : capability) : bool :=
  match a, b with
  | cap_prepared_statements, cap_prepared_statements
  | cap_statement_varargs, cap_statement_varargs
  | cap_prepare_unnamed_statement, cap_prepare_unnamed_statement
  | cap_cursor_scroll, cap_cursor_scroll
  | cap_cursor_with_hold, cap_cursor_with_hold
  | cap_cursor_fetch_0, cap_cursor_fetch_0
  | cap_nested_transactions, cap_nested_transactions
  | cap_create_table_with_oids, cap_create_table_with_oids
  | cap_read_only_transactions, cap_read_only_transactions
  | cap_notify_payload, cap_notify_payload
  | cap_table_column, cap_table_column
  | cap_parameterized_statements, cap_parameterized_statements => true
  | _, _ => false
  end.

(** ** Events: every call that leaves the object

    One event for each call into the policy, into libpq, into a
    transaction, an error handler or a receiver, with its arguments.  The
    accessors of libpq that only read the connection ([PQstatus],
    [PQerrorMessage], [PQserverVersion], [PQprotocolVersion]) leave no
    event. *)

Inductive Event : Type :=
  | Ev_do_startconnect (h : handle)
  | Ev_do_completeconnect (h : handle)
  | Ev_do_dropconnect (h : handle)
  | Ev_do_disconnect (h : handle)
  | Ev_PQreset (c : PGconn)
  | Ev_PQexec (h : handle) (query : string)
  | Ev_PQsendQuery (h : handle) (query : string)
  | Ev_PQgetResult (h : handle) (r : option PGresult)
  | Ev_PQsetNoticeProcessor (h : handle)
  | Ev_PQtrace (h : handle)
  | Ev_PQuntrace (h : handle)
  | Ev_PQconsumeInput (h : handle)
  | Ev_PQnotifies (h : handle) (n : option PGnotify)
  | Ev_PQprepare (h : handle) (name def : string)
  | Ev_PQputCopyEnd (h : handle) (res : Z)
  | Ev_transaction_set_variable (Var Value : string)
  | Ev_errorhandler (id : nat) (msg : string)
  | Ev_receiver (id : nat) (payload : string) (pid : Z).

(** ** The world behind the handle

    [srv] is whatever else the transport and the server remember; the two
    queues are what libpq has buffered for the client: replies not fetched
    yet ([PQgetResult] hands them out one by one, then null) and
    notifications not handed out yet ([PQnotifies], likewise). *)
Record World (S : Type) : Type := mkWorld {
  srv : S;
  pending_results : list PGresult;
  pending_notifs : list PGnotify
}.
Arguments mkWorld {S}.
Arguments srv {S}.
Arguments pending_results {S}.
Arguments pending_notifs {S}.

(** [connectionpolicy]: the abstract class behind [m_policy].  The two
    [connect] members may throw; the other two are [noexcept]. *)
Class connectionpolicy (S : Type) : Type := {
  do_startconnect : World S -> handle -> Result handle * World S;
  do_completeconnect : World S -> handle -> Result handle * World S;
  do_dropconnect : World S -> handle -> handle * World S;
  do_disconnect : World S -> handle -> handle * World S
}.

(** The part of libpq this file calls, as functions of the world. *)
Class libpq (S : Type) : Type := {
  PQstatus : World S -> handle -> ConnStatusType;
  PQerrorMessage : World S -> PGconn -> string;
  PQserverVersion : World S -> handle -> Z;
  PQprotocolVersion : World S -> PGconn -> Z;
  PQexec : World S -> handle -> string -> option PGresult * World S;
  PQsendQuery : World S -> handle -> string -> Z * World S;
  PQreset : World S -> PGconn -> World S;
  PQconsumeInput : World S -> handle -> Z * World S;
  PQprepare : World S -> handle -> string -> string -> option PGresult * World S;
  PQputCopyEnd : World S -> handle -> Z * World S
}.

(** ** The object

    The data members of [connection_base] that the functions below read or
    write, with the world the handle lives in.  [m_policy] is the
    [connectionpolicy] instance in scope; [m_unique_id] and [m_verbosity]
    play no part here.  [m_Conn] is the physical handle, [m_Trans] the
    registered transaction, [m_Trace] the trace sink, and
    [m_reactivation_avoidance] the value of the reactivation-avoidance
    counter.  [m_Vars] is a [std::map] and [m_receivers] a
    [std::multimap], each kept as its sequence of entries in key order;
    [m_prepared] is a [std::map] used for lookup and update only. *)

Record state (S : Type) : Type := mkState {
  m_Conn : handle;
  m_Trans : option transaction_base;
  m_errorhandlers : list errorhandler;
  m_Trace : option nat;
  m_serverversion : Z;
  m_reactivation_avoidance : Z;
  m_Completed : bool;
  m_inhibit_reactivation : bool;
  m_caps : capability -> bool;
  m_Vars : list (string * string);
  m_receivers : list (string * notification_receiver);
  m_prepared : gmap string prepared_def;
  world : World S
}.
Arguments mkState {S}.
Arguments m_Conn {S}.
Arguments m_Trans {S}.
Arguments m_errorhandlers {S}.
Arguments m_Trace {S}.
Arguments m_serverversion {S}.
Arguments m_reactivation_avoidance {S}.
Arguments m_Completed {S}.
Arguments m_inhibit_reactivation {S}.
Arguments m_caps {S}.
Arguments m_Vars {S}.
Arguments m_receivers {S}.
Arguments m_prepared {S}.
Arguments world {S}.

(** Field updates. *)

Section Updates.
Context {S : Type}.

Definition set_m_Conn (v : handle) (s : state S) : state S :=
  mkState v (m_Trans s) (m_errorhandlers s) (m_Trace s) (m_serverversion s)
    (m_reactivation_avoidance s) (m_Completed s) (m_inhibit_reactivation s)
    (m_caps s) (m_Vars s) (m_receivers s) (m_prepared s) (world s).

Definition set_m_Trans (v : option transaction_base) (s : state S)
  : state S :=
  mkState (m_Conn s) v (m_errorhandlers s) (m_Trace s) (m_serverversion s)
    (m_reactivation_avoidance s) (m_Completed s) (m_inhibit_reactivation s)
    (m_caps s) (m_Vars s) (m_receivers s) (m_prepared s) (world s).

Definition set_m_errorhandlers (v : list errorhandler) (s : state S)
  : state S :=
  mkState (m_Conn s) (m_Trans s) v (m_Trace s) (m_serverversion s)
    (m_reactivation_avoidance s) (m_Completed s) (m_inhibit_reactivation s)
    (m_caps s) (m_Vars s) (m_receivers s) (m_prepared s) (world s).

Definition set_m_serverversion (v : Z) (s : state S) : state S :=
  mkState (m_Conn s) (m_Trans s) (m_errorhandlers s) (m_Trace s) v
    (m_reactivation_avoidance s) (m_Completed s) (m_inhibit_reactivation s)
    (m_caps s) (m_Vars s) (m_receivers s) (m_prepared s) (world s).

Definition set_m_reactivation_avoidance (v : Z) (s : state S) : state S :=
  mkState (m_Conn s) (m_Trans s) (m_errorhandlers s) (m_Trace s)
    (m_serverversion s) v (m_Completed s) (m_inhibit_reactivation s)
    (m_caps s) (m_Vars s) (m_receivers s) (m_prepared s) (world s).

Definition set_m_Completed (v : bool) (s : state S) : state S :=
  mkState (m_Conn s) (m_Trans s) (m_errorhandlers s) (m_Trace s)
    (m_serverversion s) (m_reactivation_avoidance s) v
    (m_inhibit_reactivation s) (m_caps s) (m_Vars s) (m_receivers s)
    (m_prepared s) (world s).

Definition set_m_inhibit_reactivation (v : bool) (s : state S) : state S :=
  mkState (m_Conn s) (m_Trans s) (m_errorhandlers s) (m_Trace s)
    (m_serverversion s) (m_reactivation_avoidance s) (m_Completed s) v
    (m_caps s) (m_Vars s) (m_receivers s) (m_prepared s) (world s).

Definition set_m_caps (v : capability -> bool) (s : state S) : state S :=
  mkState (m_Conn s) (m_Trans s) (m_errorhandlers s) (m_Trace s)
    (m_serverversion s) (m_reactivation_avoidance s) (m_Completed s)
    (m_inhibit_reactivation s) v (m_Vars s) (m_receivers s) (m_prepared s)
    (world s).

Definition set_m_Vars (v : list (string * string)) (s : state S) : state S :=
  mkState (m_Conn s) (m_Trans s) (m_errorhandlers s) (m_Trace s)
    (m_serverversion s) (m_reactivation_avoidance s) (m_Completed s)
    (m_inhibit_reactivation s) (m_caps s) v (m_receivers s) (m_prepared s)
    (world s).

Definition set_m_receivers (v : list (string * notification_receiver)) (s : state S)
  : state S :=
  mkState (m_Conn s) (m_Trans s) (m_errorhandlers s) (m_Trace s)
    (m_serverversion s) (m_reactivation_avoidance s) (m_Completed s)
    (m_inhibit_reactivation s) (m_caps s) (m_Vars s) v (m_prepared s)
    (world s).

Definition set_m_prepared (v : gmap string prepared_def) (s : state S)
  : state S :=
  mkState (m_Conn s) (m_Trans s) (m_errorhandlers s) (m_Trace s)
    (m_serverversion s) (m_reactivation_avoidance s) (m_Completed s)
    (m_inhibit_reactivation s) (m_caps s) (m_Vars s) (m_receivers s) v
    (world s).

Definition set_world (v : World S) (s : state S) : state S :=
  mkState (m_Conn s) (m_Trans s) (m_errorhandlers s) (m_Trace s)
    (m_serverversion s) (m_reactivation_avoidance s) (m_Completed s)
    (m_inhibit_reactivation s) (m_caps s) (m_Vars s) (m_receivers s)
    (m_prepared s) v.

Definition set_pending_results (q : list PGresult) (w : World S) : World S :=
  mkWorld (srv w) q (pending_notifs w).

Definition set_pending_notifs (q : list PGnotify) (w : World S) : World S :=
  mkWorld (srv w) (pending_results w) q.

End Updates.

(** ** The monad of member functions

    A member function maps the object to an outcome (a value or a thrown
    exception), the object as it leaves it behind, and the events it caused,
    oldest first.  A throw keeps the state reached so far, as stack
    unwinding does. *)

Definition M (St A : Type) : Type := St -> Result A * St * list Event.

Definition ret {St A : Type} (a : A) : M St A :=
  fun s => (Ok a, s, []).

Definition throw {St A : Type} (e : exn) : M St A :=
  fun s => (Throw e, s, []).

Definition bind {St A B : Type} (m : M St A) (k : A -> M St B) : M St B :=
  fun s =>
    match m s with
    | (Ok a, s1, t1) =>
        match k a s1 with
        | (r, s2, t2) => (r, s2, t1 ++ t2)
        end
    | (Throw e, s1, t1) => (Throw e, s1, t1)
    end.

(** [try m catch (const std::exception &e) { h e }]. *)
Definition try_catch {St A : Type} (m : M St A) (h : exn -> M St A) : M St A :=
  fun s =>
    match m s with
    | (Ok a, s1, t1) => (Ok a, s1, t1)
    | (Throw e, s1, t1) =>
        match h e s1 with
        | (r, s2, t2) => (r, s2, t1 ++ t2)
        end
    end.

Definition gets {St A : Type} (f : St -> A) : M St A :=
  fun s => (Ok (f s), s, []).

Definition modify {St : Type} (f : St -> St) : M St unit :=
  fun s => (Ok tt, f s, []).

Definition emit {St : Type} (e : Event) : M St unit :=
  fun s => (Ok tt, s, [e]).

Definition when {St : Type} (b : bool) (m : M St unit) : M St unit :=
  if b then m else ret tt.

Notation "x <- m ;; k" := (bind m (fun x => k))
  (at level 100, m at next level, k at level 200, right associativity,
   only parsing).
Notation "m ;;; k" := (bind m (fun _ => k))
  (at level 100, k at level 200, right associativity, only parsing).

(** Projections of an outcome. *)
Definition outcome {St A : Type} (x : Result A * St * list Event) : Result A :=
  fst (fst x).
Definition final {St A : Type} (x : Result A * St * list Event) : St :=
  snd (fst x).
Definition events {St A : Type} (x : Result A * St * list Event) : list Event :=
  snd x.

(** ** Strings and ordered containers *)

Definition dquote : string := String (ascii_of_nat 34) EmptyString.
Definition newline : string := String (ascii_of_nat 10) EmptyString.

Definition empty (s : string) : bool :=
  match s with EmptyString => true | String _ _ => false end.

(** [msg[msg.size()-1] == '\n'] *)
Fixpoint ends_with_newline (s : string) : bool :=
  match s with
  | EmptyString => false
  | String c EmptyString => Ascii.eqb c (ascii_of_nat 10)
  | String _ rest => ends_with_newline rest
  end.

(** [to_string(int)]: decimal, with a minus sign for negatives. *)
Definition to_string (z : Z) : string :=
  NilZero.string_of_int (Z.to_int z).

(** A [std::map<std::string, V>] is its sequence of entries in key order,
    keys compared as [std::string::operator<] does (byte-wise
    lexicographic).  [map_assign k v m] is [m[k] = v]. *)
Fixpoint map_assign {V : Type} (k : string) (v : V) (m : list (string * V))
  : list (string * V) :=
  match m with
  | [] => [(k, v)]
  | (k', v') :: rest =>
      match String.compare k k' with
      | Lt => (k, v) :: m
      | Eq => (k, v) :: rest
      | Gt => (k', v') :: map_assign k v rest
      end
  end.

(** A [std::multimap<std::string, V>] likewise, equal keys adjacent.
    [add_receiver] inserts either where no equal key exists, or with the
    first equal entry as the hint, which puts the new entry just before
    it: in both cases at the lower bound of the key. *)
Fixpoint multimap_insert {V : Type} (k : string) (v : V) (m : list (string * V))
  : list (string * V) :=
  match m with
  | [] => [(k, v)]
  | (k', v') :: rest =>
      if String.ltb k' k then (k', v') :: multimap_insert k v rest
      else (k, v) :: m
  end.

(** [m.equal_range(k)] as the sequence it delimits. *)
Definition equal_range {V : Type} (k : string) (m : list (string * V))
  : list (string * V) :=
  List.filter (fun p => String.eqb (fst p) k) m.

(** [m.find(k) != m.end()] *)
Definition contains_key {V : Type} (k : string) (m : list (string * V)) : bool :=
  existsb (fun p => String.eqb (fst p) k) m.

(** ** The statements of the restore batch *)

Definition listen_stmt (ch : string) : string :=
  "LISTEN " +:+ dquote +:+ ch +:+ dquote +:+ "; ".

Definition set_stmt (var value : string) : string :=
  "SET " +:+ var +:+ "=" +:+ value +:+ "; ".

(** The loop over [m_receivers] in [SetupState], [Last] being the channel
    of the previous LISTEN. *)
Fixpoint restore_receivers (rs : list (string * notification_receiver))
    (Last : string) : string :=
  match rs with
  | [] => EmptyString
  | i :: rest =>
      if negb (String.eqb (fst i) Last)
      then listen_stmt (fst i) +:+ restore_receivers rest (fst i)
      else restore_receivers rest Last
  end.

Fixpoint restore_vars (vs : list (string * string)) : string :=
  match vs with
  | [] => EmptyString
  | i :: rest => set_stmt (fst i) (snd i) +:+ restore_vars rest
  end.

(** [restore_query.str()] at the time it is sent. *)
Definition restore_query (rs : list (string * notification_receiver))
    (vs : list (string * string)) : string :=
  restore_receivers rs EmptyString +:+ restore_vars vs.

(** The same batch statement by statement: what the two loops append, in
    order. *)
Inductive restore_cmd : Type :=
  | LISTEN (ch : string)
  | SET (var value : string).

Definition render (c : restore_cmd) : string :=
  match c with
  | LISTEN ch => listen_stmt ch
  | SET var value => set_stmt var value
  end.

Fixpoint render_all (cs : list restore_cmd) : string :=
  match cs with
  | [] => EmptyString
  | c :: rest => render c +:+ render_all rest
  end.

Fixpoint restore_listens (rs : list (string * notification_receiver))
    (Last : string) : list restore_cmd :=
  match rs with
  | [] => []
  | i :: rest =>
      if negb (String.eqb (fst i) Last)
      then LISTEN (fst i) :: restore_listens rest (fst i)
      else restore_listens rest Last
  end.

Definition restore_sets (vs : list (string * string)) : list restore_cmd :=
  map (fun i => SET (fst i) (snd i)) vs.

Definition restore_cmds (rs : list (string * notification_receiver))
    (vs : list (string * string)) : list restore_cmd :=
  restore_listens rs EmptyString ++ restore_sets vs.

(** [reactivation_avoidance_exemption]: what the object remembers. *)
Record reactivation_avoidance_exemption : Type := {
  m_count : Z;
  m_open : bool
}.

(** ** Member functions of [connection_base] *)

Section Connection.
Context {S : Type} `{Policy : connectionpolicy S} `{Pq : libpq S}.

Local Abbreviation Conn := (M (state S)).

(** *** Calls that leave the object *)

(** [m_Conn = m_policy.do_startconnect(m_Conn)]; on a throw the assignment
    does not happen. *)
Definition call_do_startconnect : Conn unit :=
  fun s =>
    match do_startconnect (world s) (m_Conn s) with
    | (Ok h, w) => (Ok tt, set_m_Conn h (set_world w s), [Ev_do_startconnect (m_Conn s)])
    | (Throw e, w) => (Throw e, set_world w s, [Ev_do_startconnect (m_Conn s)])
    end.

Definition call_do_completeconnect : Conn unit :=
  fun s =>
    match do_completeconnect (world s) (m_Conn s) with
    | (Ok h, w) => (Ok tt, set_m_Conn h (set_world w s), [Ev_do_completeconnect (m_Conn s)])
    | (Throw e, w) => (Throw e, set_world w s, [Ev_do_completeconnect (m_Conn s)])
    end.

Definition call_do_dropconnect : Conn unit :=
  fun s =>
    match do_dropconnect (world s) (m_Conn s) with
    | (h, w) => (Ok tt, set_m_Conn h (set_world w s), [Ev_do_dropconnect (m_Conn s)])
    end.

Definition call_do_disconnect : Conn unit :=
  fun s =>
    match do_disconnect (world s) (m_Conn s) with
    | (h, w) => (Ok tt, set_m_Conn h (set_world w s), [Ev_do_disconnect (m_Conn s)])
    end.

Definition call_PQreset (c : PGconn) : Conn unit :=
  fun s => (Ok tt, set_world (PQreset (world s) c) s, [Ev_PQreset c]).

Definition call_PQexec (query : string) : Conn (option PGresult) :=
  fun s =>
    match PQexec (world s) (m_Conn s) query with
    | (r, w) => (Ok r, set_world w s, [Ev_PQexec (m_Conn s) query])
    end.

Definition call_PQsendQuery (query : string) : Conn Z :=
  fun s =>
    match PQsendQuery (world s) (m_Conn s) query with
    | (r, w) => (Ok r, set_world w s, [Ev_PQsendQuery (m_Conn s) query])
    end.

Definition call_PQconsumeInput : Conn Z :=
  fun s =>
    match PQconsumeInput (world s) (m_Conn s) with
    | (r, w) => (Ok r, set_world w s, [Ev_PQconsumeInput (m_Conn s)])
    end.

Definition call_PQprepare (name def : string) : Conn (option PGresult) :=
  fun s =>
    match PQprepare (world s) (m_Conn s) name def with
    | (r, w) => (Ok r, set_world w s, [Ev_PQprepare (m_Conn s) name def])
    end.


(** [PQgetResult(m_Conn)]: the next buffered reply, or null when none is
    left. *)
Definition call_PQgetResult : Conn (option PGresult) :=
  fun s =>
    match pending_results (world s) with
    | [] => (Ok None, s, [Ev_PQgetResult (m_Conn s) None])
    | r :: q =>
        (Ok (Some r), set_world (set_pending_results q (world s)) s,
         [Ev_PQgetResult (m_Conn s) (Some r)])
    end.

(** [PQnotifies(m_Conn)]: the next buffered notification, or null. *)
Definition call_PQnotifies : Conn (option PGnotify) :=
  fun s =>
    match pending_notifs (world s) with
    | [] => (Ok None, s, [Ev_PQnotifies (m_Conn s) None])
    | n :: q =>
        (Ok (Some n), set_world (set_pending_notifs q (world s)) s,
         [Ev_PQnotifies (m_Conn s) (Some n)])
    end.

(** The receiver's [operator()(N->extra, N->be_pid)]. *)
Definition call_receiver (r : notification_receiver) (payload : string) (pid : Z)
  : Conn unit :=
  fun s =>
    (match nr_call r payload pid with None => Ok tt | Some e => Throw e end,
     s, [Ev_receiver (nr_id r) payload pid]).

(** *** Status *)

Definition Status (s : state S) : ConnStatusType :=
  PQstatus (world s) (m_Conn s).

Definition is_open (s : state S) : bool :=
  match m_Conn s with
  | Some _ => m_Completed s && status_ok (Status s)
  | None => false
  end.

Definition ErrMsg (s : state S) : string :=
  match m_Conn s with
  | Some c => PQerrorMessage (world s) c
  | None => "No connection to database"
  end.

Definition protocol_version (s : state S) : Z :=
  match m_Conn s with
  | Some c => PQprotocolVersion (world s) c
  | None => 0
  end.

(** *** Notices *)

(** The loop of [process_notice_raw]: newest handler first, until one
    answers [false]. *)
Fixpoint run_errorhandlers (hs : list errorhandler) (msg : string) : list Event :=
  match hs with
  | [] => []
  | h :: older =>
      Ev_errorhandler (eh_id h) msg ::
      (if eh_call h msg then run_errorhandlers older msg else [])
  end.

Definition process_notice_raw (msg : string) : Conn unit :=
  fun s =>
    if empty msg then (Ok tt, s, [])
    else (Ok tt, s, run_errorhandlers (rev (m_errorhandlers s)) msg).

(** [process_notice(const std::string &)] *)
Definition process_notice (msg : string) : Conn unit :=
  if ends_with_newline msg then process_notice_raw msg
  else process_notice_raw (msg +:+ newline).

(** [process_notice(const char[])] on a non-null pointer.  The fallback for
    a failed allocation of the [std::string] copy is left out. *)
Definition process_notice_cstr (msg : string) : Conn unit :=
  if empty msg then ret tt
  else if ends_with_newline msg then process_notice_raw msg
  else process_notice msg.

(** *** Capabilities and tracing *)

Definition clearcaps : Conn unit :=
  modify (set_m_caps (fun _ => false)).

Definition set_cap (c : capability) (caps : capability -> bool) : capability -> bool :=
  fun c' => if capability_eqb c c' then true else caps c'.

Definition read_capabilities : Conn unit :=
  v <- gets (fun s => PQserverVersion (world s) (m_Conn s)) ;;
  modify (set_m_serverversion v) ;;;
  if v <=? 90000
  then throw (feature_not_supported "Unsupported server version; 9.0 is the minimum.")
  else
    pv <- gets protocol_version ;;
    if pv =? 0 then throw broken_connection_default
    else if (pv =? 1) || (pv =? 2)
    then throw (feature_not_supported
      "Unsupported frontend/backend protocol version; 3.0 is the minimum.")
    else
      modify (fun s => set_m_caps
        (set_cap cap_parameterized_statements
        (set_cap cap_table_column
        (set_cap cap_notify_payload
        (set_cap cap_read_only_transactions
        (set_cap cap_create_table_with_oids
        (set_cap cap_nested_transactions
        (set_cap cap_cursor_fetch_0
        (set_cap cap_cursor_with_hold
        (set_cap cap_cursor_scroll
        (set_cap cap_prepare_unnamed_statement
        (set_cap cap_statement_varargs
        (set_cap cap_prepared_statements (m_caps s))))))))))))) s).

Definition InternalSetTrace : Conn unit :=
  c <- gets m_Conn ;;
  match c with
  | Some _ =>
      tr <- gets m_Trace ;;
      match tr with
      | Some _ => emit (Ev_PQtrace c)
      | None => emit (Ev_PQuntrace c)
      end
  | None => ret tt
  end.

Definition disconnect : Conn unit :=
  clearcaps ;;; call_do_disconnect.

(** *** SetupState *)

(** [do r = make_result(PQgetResult(m_Conn), ...); while (r)].  One more
    round per unit of fuel; [SetupState] supplies the number of replies
    buffered when the loop starts, which is all it can take. *)
Fixpoint drain_results (fuel : nat) : Conn unit :=
  r <- call_PQgetResult ;;
  match r with
  | None => ret tt
  | Some _ =>
      match fuel with
      | O => ret tt
      | Datatypes.S fuel' => drain_results fuel'
      end
  end.

Definition unregister_all (m : gmap string prepared_def) : gmap string prepared_def :=
  (fun d => {| definition := definition d; registered := false |}) <$> m.

Definition SetupState : Conn unit :=
  c <- gets m_Conn ;;
  match c with
  | None => throw (internal_error "SetupState() on no connection")
  | Some _ =>
      st <- gets Status ;;
      if negb (status_ok st) then
        Msg <- gets ErrMsg ;;
        call_do_disconnect ;;;
        throw (failure Msg)
      else
        read_capabilities ;;;
        modify (fun s => set_m_prepared (unregister_all (m_prepared s)) s) ;;;
        emit (Ev_PQsetNoticeProcessor c) ;;;
        InternalSetTrace ;;;
        rs <- gets m_receivers ;;
        vs <- gets m_Vars ;;
        (match rs, vs with
         | [], [] => ret tt
         | _, _ =>
             call_PQsendQuery (restore_query rs vs) ;;;
             pending <- gets (fun s => pending_results (world s)) ;;
             drain_results (List.length pending)
         end) ;;;
        modify (set_m_Completed true) ;;;
        o <- gets is_open ;;
        if negb o then throw broken_connection_default else ret tt
  end.

(** *** activate, deactivate, Reset *)

Definition activate : Conn unit :=
  o <- gets is_open ;;
  if negb o then
    inhibited <- gets m_inhibit_reactivation ;;
    if inhibited then
      throw (broken_connection
        "Could not reactivate connection; reactivation is inhibited")
    else
      debt <- gets m_reactivation_avoidance ;;
      if negb (debt =? 0) then ret tt
      else
        try_catch
          (call_do_startconnect ;;;
           call_do_completeconnect ;;;
           modify (set_m_Completed true) ;;;
           o' <- gets is_open ;;
           (if negb o' then throw broken_connection_default else ret tt) ;;;
           SetupState)
          (fun e =>
             if is_broken_connection e then
               disconnect ;;;
               modify (set_m_Completed false) ;;;
               throw (broken_connection (what e))
             else
               modify (set_m_Completed false) ;;;
               throw e)
  else ret tt.

Definition deactivate : Conn unit :=
  c <- gets m_Conn ;;
  match c with
  | None => ret tt
  | Some _ =>
      tr <- gets m_Trans ;;
      match tr with
      | Some t =>
          throw (usage_error
            ("Attempt to deactivate connection while " +:+ description t +:+
             " still open"))
      | None =>
          debt <- gets m_reactivation_avoidance ;;
          if negb (debt =? 0) then
            process_notice_cstr
              ("Attempt to deactivate connection while it is in a state " +:+
               "that cannot be fully recovered later (ignoring)")
          else
            modify (set_m_Completed false) ;;;
            call_do_disconnect
      end
  end.

Definition Reset : Conn unit :=
  inhibited <- gets m_inhibit_reactivation ;;
  if inhibited then
    throw (broken_connection
      "Could not reset connection: reactivation is inhibited")
  else
    debt <- gets m_reactivation_avoidance ;;
    if negb (debt =? 0) then ret tt
    else
      call_do_dropconnect ;;;
      modify (set_m_Completed false) ;;;
      c <- gets m_Conn ;;
      match c with
      | Some c' => call_PQreset c' ;;; SetupState
      | None => activate
      end.

(** *** Results and notifications *)

Definition check_result (R : result) : Conn unit :=
  o <- gets is_open ;;
  if negb o then throw broken_connection_default
  else if negb (result_connection R) then
    Msg <- gets ErrMsg ;;
    throw (failure Msg)
  else
    (* CheckStatus() *)
    match r_data R with
    | Some p => match pg_error p with Some e => throw e | None => ret tt end
    | None => ret tt
    end.

Definition consume_input : Conn bool :=
  r <- call_PQconsumeInput ;;
  ret (negb (r =? 0)).

(** The inner loop of [get_notifs]: every receiver of the range is called;
    what one of them throws is caught and reported as a notice. *)
Fixpoint deliver (Hit : list (string * notification_receiver)) (N : PGnotify)
  : Conn unit :=
  match Hit with
  | [] => ret tt
  | i :: rest =>
      try_catch
        (call_receiver (snd i) (extra N) (be_pid N))
        (fun e =>
           process_notice
             ("Exception in notification receiver '" +:+ fst i +:+ "': " +:+
              what e +:+ newline)) ;;;
      deliver rest N
  end.

(** The outer loop, one more notification per unit of fuel; [get_notifs]
    supplies the number of notifications buffered when the loop starts. *)
Fixpoint get_notifs_loop (fuel : nat) (notifs : Z) : Conn Z :=
  N <- call_PQnotifies ;;
  match N with
  | None => ret notifs
  | Some n =>
      Hit <- gets (fun s => equal_range (relname n) (m_receivers s)) ;;
      deliver Hit n ;;;
      match fuel with
      | O => ret (notifs + 1)
      | Datatypes.S fuel' => get_notifs_loop fuel' (notifs + 1)
      end
  end.

Definition get_notifs : Conn Z :=
  o <- gets is_open ;;
  if negb o then ret 0
  else
    ok <- consume_input ;;
    if negb ok then throw broken_connection_default
    else
      tr <- gets m_Trans ;;
      match tr with
      | Some _ => ret 0
      | None =>
          pending <- gets (fun s => pending_notifs (world s)) ;;
          get_notifs_loop (List.length pending) 0
      end.

(** *** Exec *)

(** The [while] loop of [Exec]; [Retries] counts down to zero. *)
Fixpoint Exec_retry (Query : string) (Retries : nat) (R : result) : Conn result :=
  match Retries with
  | O => ret R
  | Datatypes.S Retries' =>
      o <- gets is_open ;;
      if negb (result_connection R) && negb o then
        Reset ;;;
        o' <- gets is_open ;;
        R' <- (if o' then r <- call_PQexec Query ;; ret (make_result r Query)
               else ret R) ;;
        Exec_retry Query Retries' R'
      else ret R
  end.

(** Up to the first submission of the query. *)
Definition Exec_first (Query : string) : Conn result :=
  activate ;;;
  r <- call_PQexec Query ;;
  ret (make_result r Query).

Definition Exec (Query : string) (Retries : Z) : Conn result :=
  R0 <- Exec_first Query ;;
  R <- Exec_retry Query (Z.to_nat Retries) R0 ;;
  check_result R ;;;
  get_notifs ;;;
  ret R.

(** *** Prepared statements *)

Definition prepare (name def : string) : Conn unit :=
  i <- gets (fun s => m_prepared s !! name) ;;
  match i with
  | Some d =>
      if negb (String.eqb def (definition d)) then
        if negb (empty name) then
          throw (argument_error
            ("Inconsistent redefinition of prepared statement " +:+ name))
        else
          modify (fun s => set_m_prepared
            (<[name := {| definition := def; registered := false |}]>
               (m_prepared s)) s)
      else ret tt
  | None =>
      modify (fun s => set_m_prepared
        (<[name := prepared_def_new def]> (m_prepared s)) s)
  end.

Definition find_prepared (statement : string) : Conn prepared_def :=
  i <- gets (fun s => m_prepared s !! statement) ;;
  match i with
  | Some d => ret d
  | None =>
      throw (argument_error
        ("Unknown prepared statement '" +:+ statement +:+ "'"))
  end.

Definition register_prepared (name : string) : Conn prepared_def :=
  activate ;;;
  d <- find_prepared name ;;
  if negb (registered d) then
    r <- call_PQprepare name (definition d) ;;
    check_result (make_result r ("[PREPARE " +:+ name +:+ "]")) ;;;
    let d' := {| definition := definition d; registered := negb (empty name) |} in
    modify (fun s => set_m_prepared (<[name := d']> (m_prepared s)) s) ;;;
    ret d'
  else ret d.

(** *** COPY *)


(** *** Shadow state *)

Definition RawSetVar (Var Value : string) : Conn unit :=
  Exec ("SET " +:+ Var +:+ "=" +:+ Value) 0 ;;; ret tt.

Definition set_variable (Var Value : string) : Conn unit :=
  tr <- gets m_Trans ;;
  match tr with
  | Some _ => emit (Ev_transaction_set_variable Var Value)
  | None =>
      o <- gets is_open ;;
      when o (RawSetVar Var Value) ;;;
      modify (fun s => set_m_Vars (map_assign Var Value (m_Vars s)) s)
  end.

Definition add_receiver (T : option notification_receiver) : Conn unit :=
  match T with
  | None => throw (argument_error "Null receiver registered")
  | Some r =>
      known <- gets (fun s => contains_key (channel r) (m_receivers s)) ;;
      if negb known then
        let LQ := "LISTEN " +:+ dquote +:+ channel r +:+ dquote in
        o <- gets is_open ;;
        when o
          (try_catch
             (res <- call_PQexec LQ ;; check_result (make_result res LQ))
             (fun e => if is_broken_connection e then ret tt else throw e)) ;;;
        modify (fun s => set_m_receivers
          (multimap_insert (channel r) r (m_receivers s)) s)
      else
        modify (fun s => set_m_receivers
          (multimap_insert (channel r) r (m_receivers s)) s)
  end.

(** *** Reactivation avoidance *)

(** Modelled from the spec: [internal::reactivation_avoidance_counter] and
    the gate [connection_reactivation_avoidance_exemption] are declared in
    headers.  The counter is an integer debt that can be read, added to and
    zeroed; [get_counter] reads it. *)
Definition get_counter : Conn Z :=
  gets m_reactivation_avoidance.

(** Modelled from the spec: [add_counter] of the same gate adds to the
    debt.  The sum is taken in [Z]; the source adds two [int]s. *)
Definition add_counter (n : Z) : Conn unit :=
  modify (fun s => set_m_reactivation_avoidance (m_reactivation_avoidance s + n) s).

(** Modelled from the spec: [clear_counter] of the same gate zeroes the
    debt. *)
Definition clear_counter : Conn unit :=
  modify (set_m_reactivation_avoidance 0).

Definition add_reactivation_avoidance_count (n : Z) : Conn unit :=
  add_counter n.

Definition simulate_failure : Conn unit :=
  c <- gets m_Conn ;;
  match c with
  | Some _ => call_do_disconnect ;;; modify (set_m_inhibit_reactivation true)
  | None => ret tt
  end.

(** The constructor of [reactivation_avoidance_exemption]: [m_count] and
    [m_open] are initialised in this order, then the body clears the
    counter. *)
Definition exemption_ctor : Conn reactivation_avoidance_exemption :=
  count <- get_counter ;;
  open <- gets is_open ;;
  clear_counter ;;;
  ret {| m_count := count; m_open := open |}.

(** The destructor. *)
Definition exemption_dtor (E : reactivation_avoidance_exemption) : Conn unit :=
  when (negb (m_count E =? 0) && negb (m_open E)) deactivate ;;;
  add_counter (m_count E).

(** A scope that holds an exemption: the destructor runs when [body]
    returns and when it throws.  An exception leaving the destructor is the
    outcome of the scope (the C++ runtime ends the program there). *)
Definition with_exemption {A : Type} (body : Conn A) : Conn A :=
  E <- exemption_ctor ;;
  fun s =>
    match body s with
    | (r, s1, t1) =>
        match exemption_dtor E s1 with
        | (Ok _, s2, t2) => (r, s2, t1 ++ t2)
        | (Throw e, s2, t2) => (Throw e, s2, t1 ++ t2)
        end
    end.

End Connection.

(** ** A scripted transport

    A small instance of the two interfaces, used to run the member
    functions on concrete inputs: the link is either healthy or not, and the
    next [exec_failures] statements each find the link dropping under them.  *)

Module Scripted.

Record server : Type := mkServer {
  healthy : bool;
  exec_failures : nat
}.

Definition ok_result : PGresult := {| pg_id := 0%nat; pg_error := None |}.

Definition with_server (sv : server) (w : World server) : World server :=
  mkWorld sv (pending_results w) (pending_notifs w).

#[export] Instance policy : connectionpolicy server := {
  do_startconnect w h :=
    match h with
    | Some _ => (Ok h, w)
    | None =>
        (Ok (Some 1%nat),
         mkWorld (mkServer true (exec_failures (srv w))) [] (pending_notifs w))
    end;
  do_completeconnect w h := (Ok h, w);
  do_dropconnect w h := (h, w);
  do_disconnect w h := (None, w)
}.

#[export] Instance pq : libpq server := {
  PQstatus w h :=
    match h with
    | Some _ => if healthy (srv w) then CONNECTION_OK else CONNECTION_BAD
    | None => CONNECTION_BAD
    end;
  PQerrorMessage w c := "server closed the connection unexpectedly";
  PQserverVersion w h := 90600;
  PQprotocolVersion w c := 3;
  PQexec w h query :=
    match h with
    | None => (None, w)
    | Some _ =>
        if healthy (srv w) then
          match exec_failures (srv w) with
          | O => (Some ok_result, w)
          | Datatypes.S n => (None, with_server (mkServer false n) w)
          end
        else (None, w)
    end;
  PQsendQuery w h query := (1, set_pending_results [ok_result] w);
  PQreset w c :=
    mkWorld (mkServer true (exec_failures (srv w))) [] (pending_notifs w);
  PQconsumeInput w h := (1, w);
  PQprepare w h name def := (Some ok_result, w);
  PQputCopyEnd w h := (1, set_pending_results [ok_result] w)
}.

(** The object as the constructor leaves it, on a given world. *)
Definition fresh (w : World server) : state server := {|
  m_Conn := None;
  m_Trans := None;
  m_errorhandlers := [];
  m_Trace := None;
  m_serverversion := 0;
  m_reactivation_avoidance := 0;
  m_Completed := false;
  m_inhibit_reactivation := false;
  m_caps := fun _ => false;
  m_Vars := [];
  m_receivers := [];
  m_prepared := ∅;
  world := w
|}.

Definition quiet (failures : nat) : World server :=
  mkWorld (mkServer false failures) [] [].

(** An open connection: [activate] has run on a fresh object. *)
Definition opened (failures : nat) : state server :=
  final (activate (fresh (quiet failures))).

Definition silent_receiver (id : nat) (ch : string) : notification_receiver :=
  {| nr_id := id; channel := ch; nr_call := fun _ _ => None |}.


Definition logging_handler (id : nat) : errorhandler :=
  {| eh_id := id; eh_call := fun _ => true |}.

End Scripted.

Import Scripted.

(** A statement kept by the registry in the examples. *)
Definition count_rows : string := "SELECT count(*) FROM t".

(** The notice [deactivate] sends when it refuses. *)
Definition deactivate_refused : string :=
  "Attempt to deactivate connection while it is in a state " +:+
  "that cannot be fully recovered later (ignoring)".

(** ** Vocabulary of the statements below *)




(** Counting events of one kind. *)
Definition count (p : Event -> bool) (t : list Event) : nat :=
  List.length (List.filter p t).

(** [Reset()] is the one member function that calls the policy's
    [do_dropconnect], once each time it gets past its two guards: these
    events count the resets performed. *)
Definition is_reset (e : Event) : bool :=
  match e with Ev_do_dropconnect _ => true | _ => false end.

(** Submissions of a statement through [PQexec]. *)
Definition is_exec (e : Event) : bool :=
  match e with Ev_PQexec _ _ => true | _ => false end.


Definition is_sendQuery (e : Event) : bool :=
  match e with Ev_PQsendQuery _ _ => true | _ => false end.


(** [m] causes at most [k] events of kind [p], whatever the state. *)
Definition emits_at_most {St A : Type} (p : Event -> bool) (k : nat)
    (m : M St A) : Prop :=
  forall s, (count p (events (m s)) <= k)%nat.

(** The invariant of a [std::multimap]: keys never decrease. *)
Definition multimap_sorted {V : Type} (m : list (string * V)) : Prop :=
  StronglySorted (fun a b => String.leb (fst a) (fst b) = true) m.

(** The invariant of a [std::map]: keys strictly increase. *)
Definition map_sorted {V : Type} (m : list (string * V)) : Prop :=
  StronglySorted (fun a b => String.ltb (fst a) (fst b) = true) m.

(** How many LISTEN statements of a batch name channel [ch], and how many
    SET statements assign variable [var]. *)
Definition is_listen_for (ch : string) (c : restore_cmd) : bool :=
  match c with LISTEN ch' => String.eqb ch' ch | SET _ _ => false end.

Definition is_set_for (var : string) (c : restore_cmd) : bool :=
  match c with SET var' _ => String.eqb var' var | LISTEN _ => false end.

Definition listens_for (ch : string) (cs : list restore_cmd) : nat :=
  List.length (List.filter (is_listen_for ch) cs).

Definition sets_for (var : string) (cs : list restore_cmd) : nat :=
  List.length (List.filter (is_set_for var) cs).

(** [PQtrace] or [PQuntrace], as [InternalSetTrace] chooses. *)
Definition trace_event {S : Type} (s : state S) : Event :=
  match m_Trace s with
  | Some _ => Ev_PQtrace (m_Conn s)
  | None => Ev_PQuntrace (m_Conn s)
  end.

(** The events of fetching the replies [q] and then the null after them. *)
Definition drain_events (h : handle) (q : list PGresult) : list Event :=
  map (fun r => Ev_PQgetResult h (Some r)) q ++ [Ev_PQgetResult h None].

(** Two receivers registered before the first activation, one of them on
    the channel whose name is the empty string. *)
Definition nameless_receiver : notification_receiver :=
  Scripted.silent_receiver 7 EmptyString.

Definition jobs_receiver : notification_receiver :=
  Scripted.silent_receiver 8 "jobs".

Definition two_receivers : state Scripted.server :=
  final (add_receiver (Some jobs_receiver)
    (final (add_receiver (Some nameless_receiver)
       (Scripted.fresh (Scripted.quiet 0))))).

(** The same object once the policy has made the link. *)
Definition two_receivers_linked : state Scripted.server :=
  final ((call_do_startconnect ;;; call_do_completeconnect) two_receivers).

(** ** States used in the examples *)

Definition a_transaction : transaction_base :=
  {| description := "transaction<READ COMMITTED>" |}.

(** Never connected, a transaction registered, three units of debt. *)
Definition unconnected_busy : state Scripted.server :=
  set_m_Trans (Some a_transaction)
    (set_m_reactivation_avoidance 3 (Scripted.fresh (Scripted.quiet 0))).

(** Never connected, one unit of debt. *)
Definition unconnected_in_debt : state Scripted.server :=
  set_m_reactivation_avoidance 1 (Scripted.fresh (Scripted.quiet 0)).

(** One unit of debt taken on an open connection, then
    [simulate_failure()]. *)
Definition failed_in_debt : state Scripted.server :=
  final (simulate_failure
    (final (add_reactivation_avoidance_count 1 (Scripted.opened 0)))).

(** A statement declared and used once on an open connection. *)
Definition declared_and_used : state Scripted.server :=
  final (register_prepared "find"
    (final (prepare "find" count_rows (Scripted.opened 0)))).




(** [m] leaves the observation [f] of the state as it found it. *)
Definition preserves {St A X : Type} (f : St -> X) (m : M St A) : Prop :=
  forall s, f (final (m s)) = f s.

(** Shadow state gathered before the first activation: two receivers on
    "jobs", one on "alerts", and two session variables. *)
Definition shadowed : state Scripted.server :=
  let s0 := Scripted.fresh (Scripted.quiet 0) in
  let s1 := final (add_receiver (Some (Scripted.silent_receiver 1 "jobs")) s0) in
  let s2 := final (add_receiver (Some (Scripted.silent_receiver 2 "jobs")) s1) in
  let s3 := final (add_receiver (Some (Scripted.silent_receiver 3 "alerts")) s2) in
  let s4 := final (set_variable "search_path" "public" s3) in
  final (set_variable "TimeZone" "UTC" s4).

Definition shadowed_linked : state Scripted.server :=
  final ((call_do_startconnect ;;; call_do_completeconnect) shadowed).

(** * The rest of the translation unit

    The member functions below complete the picture around the ones above:
    the chain of error handlers, the receivers, the session variables, the
    registry of prepared statements, and the ends of the lifecycle. *)

(** ** Strings as buffers *)

(** The first [n] bytes of a buffer, as [memcpy(buf, p, n)] takes them. *)
Fixpoint str_take (n : nat) (s : string) : string :=
  match n, s with
  | Datatypes.S n', String c s' => String c (str_take n' s')
  | _, _ => EmptyString
  end.

(** The buffer from its [n]th byte on: [p + n]. *)
Fixpoint str_drop (n : nat) (s : string) : string :=
  match n, s with
  | Datatypes.S n', String _ s' => str_drop n' s'
  | _, _ => s
  end.

(** The pieces of a message, put end to end. *)
Fixpoint join (ps : list string) : string :=
  match ps with
  | [] => EmptyString
  | p :: rest => p +:+ join rest
  end.

(** [separator], [sizeof(buf)] and the [bytes] of a full chunk in the
    fallback of [process_notice(const char[])]. *)
Definition separator : string := "[...]" +:+ newline.

Definition buf_size : nat := 1007.

Definition chunk_bytes : nat :=
  buf_size - (String.length separator + 1) - 1.

(** [m.find(k)] on a [std::map]. *)
Fixpoint map_find {V : Type} (k : string) (m : list (string * V)) : option V :=
  match m with
  | [] => None
  | i :: rest => if String.eqb (fst i) k then Some (snd i) else map_find k rest
  end.

(** Two pointers to error handlers, or to receivers, are equal when they
    point to the same object. *)
Definition same_errorhandler (a b : errorhandler) : bool :=
  Nat.eqb (eh_id a) (eh_id b).

Definition same_receiver (a b : notification_receiver) : bool :=
  Nat.eqb (nr_id a) (nr_id b).

(** [find(R.first, R.second, E) != R.second] for [R = equal_range(ch)] and
    [E = (ch, T)]. *)
Definition has_receiver (ch : string) (T : notification_receiver)
    (m : list (string * notification_receiver)) : bool :=
  existsb (fun i => same_receiver (snd i) T) (equal_range ch m).

(** [m.erase(i)] for the [i] that [find] returns: the first entry of the
    range that holds [T]. *)
Fixpoint erase_receiver (ch : string) (T : notification_receiver)
    (m : list (string * notification_receiver))
  : list (string * notification_receiver) :=
  match m with
  | [] => []
  | i :: rest =>
      if String.eqb (fst i) ch && same_receiver (snd i) T then rest
      else i :: erase_receiver ch T rest
  end.

Section Members.
Context {S : Type} `{Policy : connectionpolicy S} `{Pq : libpq S}.

Local Abbreviation Conn := (M (state S)).

(** *** Error handlers *)

Definition register_errorhandler (handler : errorhandler) : Conn unit :=
  modify (fun s => set_m_errorhandlers (m_errorhandlers s ++ [handler]) s).

(** [m_errorhandlers.remove(handler)] drops every entry equal to it. *)
Definition unregister_errorhandler (handler : errorhandler) : Conn unit :=
  modify (fun s => set_m_errorhandlers
    (List.filter (fun h => negb (same_errorhandler h handler))
       (m_errorhandlers s)) s).

(** The loop of the fallback in [process_notice(const char[])]: while more
    than [bytes] bytes are left, a full chunk goes out with the separator
    behind it.  [rest] is [&msg[written]]; the loop returns what is left
    for the last chunk.  One more chunk per unit of fuel. *)
Fixpoint notice_chunks (fuel : nat) (rest : string) : Conn string :=
  if (chunk_bytes <? String.length rest)%nat then
    process_notice_raw (str_take chunk_bytes rest +:+ separator) ;;;
    match fuel with
    | O => ret (str_drop chunk_bytes rest)
    | Datatypes.S fuel' => notice_chunks fuel' (str_drop chunk_bytes rest)
    end
  else ret rest.

(** The fallback itself, taken when the [std::string] copy of a message
    without final newline cannot be made: the message goes out through the
    fixed buffer, chunk by chunk, the last chunk with a newline added
    unless it ends in one. *)
Definition process_notice_buffered (msg : string) : Conn unit :=
  rest <- notice_chunks (String.length msg) msg ;;
  process_notice_raw
    (rest +:+ (if ends_with_newline rest then EmptyString else newline)).

(** *** Receivers *)

Definition remove_receiver (T : option notification_receiver) : Conn unit :=
  match T with
  | None => ret tt
  | Some r =>
      try_catch
        (known <- gets (fun s => has_receiver (channel r) r (m_receivers s)) ;;
         if negb known then
           process_notice
             ("Attempt to remove unknown receiver '" +:+ channel r +:+ "'")
         else
           c <- gets m_Conn ;;
           R <- gets (fun s => equal_range (channel r) (m_receivers s)) ;;
           let gone :=
             match c with
             | Some _ => (List.length R =? 1)%nat
             | None => false
             end in
           modify (fun s => set_m_receivers
             (erase_receiver (channel r) r (m_receivers s)) s) ;;;
           if gone then
             Exec ("UNLISTEN " +:+ dquote +:+ channel r +:+ dquote) 0 ;;; ret tt
           else ret tt)
        (fun e => process_notice_cstr (what e))
  end.

(** *** Session variables *)

Definition AddVariables (Vars : list (string * string)) : Conn unit :=
  modify (fun s => set_m_Vars
    (fold_left (fun m i => map_assign (fst i) (snd i) m) Vars (m_Vars s)) s).

(** [RawGetVar].  [field] stands for [.at(0).at(0).as(std::string())] on
    the result of the SHOW statement, which belongs to [pqxx::result]. *)
Definition RawGetVar (field : result -> Result string) (Var : string)
  : Conn string :=
  i <- gets (fun s => map_find Var (m_Vars s)) ;;
  match i with
  | Some value => ret value
  | None =>
      R <- Exec ("SHOW " +:+ Var) 0 ;;
      match field R with
      | Ok value => ret value
      | Throw e => throw e
      end
  end.

(** *** Prepared statements *)

Definition unprepare (name : string) : Conn unit :=
  i <- gets (fun s => m_prepared s !! name) ;;
  match i with
  | None => ret tt
  | Some d =>
      when (registered d)
        (Exec ("DEALLOCATE " +:+ dquote +:+ name +:+ dquote) 0 ;;; ret tt) ;;;
      modify (fun s => set_m_prepared (delete name (m_prepared s)) s)
  end.

Definition prepared_exists (statement : string) : Conn bool :=
  gets (fun s =>
    match m_prepared s !! statement with Some _ => true | None => false end).

(** *** close

    What the loop over the old handlers does to each of them
    ([unregister()], which clears the handler's pointer to this connection)
    happens inside objects this file does not own; of the swap only the
    emptied list is kept here. *)
Definition close : Conn unit :=
  modify (set_m_Completed false) ;;;
  modify (set_m_inhibit_reactivation false) ;;;
  modify (set_m_reactivation_avoidance 0) ;;;
  try_catch
    (tr <- gets m_Trans ;;
     match tr with
     | Some t =>
         process_notice
           ("Closing connection while " +:+ description t +:+ " still open")
     | None => ret tt
     end ;;;
     rs <- gets m_receivers ;;
     match rs with
     | [] => ret tt
     | _ :: _ =>
         process_notice_cstr "Closing connection with outstanding receivers." ;;;
         modify (set_m_receivers [])
     end ;;;
     c <- gets m_Conn ;;
     emit (Ev_PQsetNoticeProcessor c) ;;;
     modify (set_m_errorhandlers []) ;;;
     call_do_disconnect)
    (fun _ => ret tt).

End Members.

(** ** Vocabulary of the further properties *)

(** Calls of one error handler. *)
Definition is_call_of (h : errorhandler) (e : Event) : bool :=
  match e with
  | Ev_errorhandler id _ => Nat.eqb id (eh_id h)
  | _ => false
  end.

(** An event that is not a call of an error handler, or one whose message
    ends in a newline. *)
Definition newline_terminated (e : Event) : bool :=
  match e with
  | Ev_errorhandler _ msg => ends_with_newline msg
  | _ => true
  end.

(** A call of an error handler whose message, with the terminating NUL,
    fits the buffer of the fallback. *)
Definition fits_buffer (e : Event) : bool :=
  match e with
  | Ev_errorhandler _ msg => (String.length msg <? buf_size)%nat
  | _ => true
  end.

(** What the error handlers [hs] (oldest first, as stored) see of the
    messages [msgs], in order. *)
Definition notices (hs : list errorhandler) (msgs : list string) : list Event :=
  flat_map (run_errorhandlers (rev hs)) msgs.


Definition unlisten_query (r : notification_receiver) : string :=
  "UNLISTEN " +:+ dquote +:+ channel r +:+ dquote.

(** The notice for a receiver that is not registered. *)
Definition unknown_receiver_notice (r : notification_receiver) : string :=
  "Attempt to remove unknown receiver '" +:+ channel r +:+ "'" +:+ newline.


(** An open connection with two error handlers, 3 registered before 5. *)
Definition two_handlers : state Scripted.server :=
  set_m_errorhandlers [Scripted.logging_handler 3; Scripted.logging_handler 5]
    (Scripted.opened 0).

(** The statements [RawSetVar] and [RawGetVar] send. *)
Definition set_query (Var Value : string) : string :=
  "SET " +:+ Var +:+ "=" +:+ Value.

Definition show_query (Var : string) : string := "SHOW " +:+ Var.

(** What a [std::map] given as a sequence of entries holds for a key: the
    entry assigned last. *)
Definition last_assigned (k : string) (Vars : list (string * string))
  : option string :=
  map_find k (rev Vars).

(** The registry as its users know it: the names declared, each with its
    text, whatever the session has been told so far. *)
Definition definitions {S : Type} (s : state S) : gmap string string :=
  definition <$> m_prepared s.

Definition deallocate_query (name : string) : string :=
  "DEALLOCATE " +:+ dquote +:+ name +:+ dquote.

(** An open connection with the statement "find" declared, not used yet. *)
Definition declared : state Scripted.server :=
  final (prepare "find" count_rows (Scripted.opened 0)).

(** ** What a member function guarantees when it returns

    [hoare P m Q]: started in a state where [P] holds, if [m] returns
    normally with [a] then [Q a] holds of the state it leaves. *)
Definition hoare {St A : Type} (P : St -> Prop) (m : M St A)
    (Q : A -> St -> Prop) : Prop :=
  forall s, P s -> forall a, outcome (m s) = Ok a -> Q a (final (m s)).

(** What the application has entrusted to the connection object, as
    opposed to what the object knows about the link: the session
    variables, the receivers, the error handlers, the transaction, the
    reactivation-avoidance count and flag, and the trace stream. *)
Definition session_settings {S : Type} (s : state S) :=
  (m_Vars s, m_receivers s, m_errorhandlers s, m_Trans s,
   m_reactivation_avoidance s, m_inhibit_reactivation s, m_Trace s).

(** A reply the caller can use: not null, and without an error status. *)
Definition usable (R : result) : Prop :=
  exists p, r_data R = Some p /\ pg_error p = None.

(** ** Unique names

    [adorn_name] touches one member only, the counter [m_unique_id], which
    the constructor sets to 0; it is modelled on that counter.  The type of
    the counter is declared in the class header; below [int_max], the
    largest 32-bit [int], incrementing it cannot overflow. *)
Definition int_max : Z := 2147483647.

Definition adorn_name (n : string) : M Z string :=
  modify (fun m_unique_id => m_unique_id + 1) ;;;
  id <- gets to_string ;;
  ret (if empty n then "x" +:+ id else n +:+ "_" +:+ id).

(** Whether a byte occurs in a text. *)
Fixpoint has_char (c : ascii) (s : string) : bool :=
  match s with
  | EmptyString => false
  | String c' rest => Ascii.eqb c' c || has_char c rest
  end.

(** * Properties *)

(** ** Laws of the monad used to run the member functions by hand *)

Section MonadLaws.
Context {St : Type}.

Lemma bind_ret {A B : Type} (a : A) (k : A -> M St B) (s : St) :
  bind (ret a) k s = k a s.
Proof. unfold bind, ret. destruct (k a s) as [[r s2] t2]. reflexivity. Qed.

Lemma bind_gets {A B : Type} (f : St -> A) (k : A -> M St B) (s : St) :
  bind (gets f) k s = k (f s) s.
Proof. unfold bind, gets. destruct (k (f s) s) as [[r s2] t2]. reflexivity. Qed.

Lemma bind_modify {B : Type} (f : St -> St) (k : unit -> M St B) (s : St) :
  bind (modify f) k s = k tt (f s).
Proof. unfold bind, modify. destruct (k tt (f s)) as [[r s2] t2]. reflexivity. Qed.

Lemma bind_throw {A B : Type} (e : exn) (k : A -> M St B) (s : St) :
  bind (throw e) k s = (Throw e, s, []).
Proof. reflexivity. Qed.

Lemma bind_emit {B : Type} (e : Event) (k : unit -> M St B) (s : St) :
  bind (emit e) k s =
  (outcome (k tt s), final (k tt s), e :: events (k tt s)).
Proof. unfold bind, emit. destruct (k tt s) as [[r s2] t2]. reflexivity. Qed.

Lemma bind_assoc {A B C : Type} (m : M St A) (k : A -> M St B)
    (k' : B -> M St C) (s : St) :
  bind (bind m k) k' s = bind m (fun a => bind (k a) k') s.
Proof.
  unfold bind. destruct (m s) as [[[a|e] s1] t1]; [|reflexivity].
  destruct (k a s1) as [[[b|e] s2] t2]; [|reflexivity].
  destruct (k' b s2) as [[r s3] t3]. rewrite app_assoc. reflexivity.
Qed.

Lemma bind_Ok {A B : Type} (m : M St A) (k : A -> M St B) (s s1 : St)
    (a : A) (t1 : list Event) :
  m s = (Ok a, s1, t1) ->
  bind m k s = (outcome (k a s1), final (k a s1), t1 ++ events (k a s1)).
Proof.
  intros Hm. unfold bind. rewrite Hm. destruct (k a s1) as [[r s2] t2].
  reflexivity.
Qed.

Lemma bind_Throw {A B : Type} (m : M St A) (k : A -> M St B) (s s1 : St)
    (e : exn) (t1 : list Event) :
  m s = (Throw e, s1, t1) -> bind m k s = (Throw e, s1, t1).
Proof. intros Hm. unfold bind. rewrite Hm. reflexivity. Qed.

Lemma events_bind {A B : Type} (m : M St A) (k : A -> M St B) (s : St) :
  events (bind m k s) =
  events (m s) ++
  match outcome (m s) with
  | Ok a => events (k a (final (m s)))
  | Throw _ => []
  end.
Proof.
  unfold bind. destruct (m s) as [[[a|e] s1] t1]; cbn.
  - destruct (k a s1) as [[r s2] t2]. reflexivity.
  - rewrite app_nil_r. reflexivity.
Qed.

End MonadLaws.

Create Rewrite HintDb run.
#[local] Hint Rewrite @bind_assoc @bind_ret @bind_gets @bind_modify @bind_throw : run.

Ltac run := repeat (autorewrite with run; cbn beta iota).

(** ** deactivate *)

Section Deactivate.
Context {S : Type} `{Policy : connectionpolicy S} `{Pq : libpq S}.

Lemma deactivate_no_handle (s : state S) :
  m_Conn s = None -> deactivate s = (Ok tt, s, []).
Proof.
  intros Hc. unfold deactivate. run. rewrite Hc. reflexivity.
Qed.

Lemma deactivate_in_transaction (s : state S) (c : PGconn) (t : transaction_base) :
  m_Conn s = Some c -> m_Trans s = Some t ->
  deactivate s =
  (Throw (usage_error ("Attempt to deactivate connection while " +:+
                       description t +:+ " still open")), s, []).
Proof.
  intros Hc Ht. unfold deactivate. run. rewrite Hc. run. rewrite Ht.
  reflexivity.
Qed.

Lemma deactivate_refuses (s : state S) (c : PGconn) :
  m_Conn s = Some c -> m_Trans s = None -> m_reactivation_avoidance s <> 0 ->
  deactivate s =
  (Ok tt, s,
   run_errorhandlers (rev (m_errorhandlers s)) (deactivate_refused +:+ newline)).
Proof.
  intros Hc Ht Hd. unfold deactivate. run. rewrite Hc. run. rewrite Ht. run.
  apply Z.eqb_neq in Hd. rewrite Hd. reflexivity.
Qed.

Lemma deactivate_tears_down (s : state S) (c : PGconn) :
  m_Conn s = Some c -> m_Trans s = None -> m_reactivation_avoidance s = 0 ->
  deactivate s =
  (Ok tt,
   set_m_Conn (fst (do_disconnect (world s) (Some c)))
     (set_world (snd (do_disconnect (world s) (Some c)))
        (set_m_Completed false s)),
   [Ev_do_disconnect (Some c)]).
Proof.
  intros Hc Ht Hd. unfold deactivate. run. rewrite Hc. run. rewrite Ht. run.
  rewrite Hd. cbn. run. unfold call_do_disconnect. cbn. rewrite Hc.
  destruct (do_disconnect (world s) (Some c)) as [h w]. reflexivity.
Qed.

(** [deactivate] never touches the counter, and only a registered
    transaction on a live handle makes it throw. *)
Lemma deactivate_counter (s : state S) :
  m_reactivation_avoidance (final (deactivate s)) = m_reactivation_avoidance s.
Proof.
  destruct (m_Conn s) as [c|] eqn:Hc.
  - destruct (m_Trans s) as [t|] eqn:Ht.
    + rewrite (deactivate_in_transaction s c t Hc Ht). reflexivity.
    + destruct (Z.eq_dec (m_reactivation_avoidance s) 0) as [Hd|Hd].
      * rewrite (deactivate_tears_down s c Hc Ht Hd). reflexivity.
      * rewrite (deactivate_refuses s c Hc Ht Hd). reflexivity.
  - rewrite (deactivate_no_handle s Hc). reflexivity.
Qed.

Lemma deactivate_returns (s : state S) :
  m_Conn s = None \/ m_Trans s = None -> outcome (deactivate s) = Ok tt.
Proof.
  intros Hfree. destruct (m_Conn s) as [c|] eqn:Hc.
  - destruct Hfree as [Hn|Ht]; [discriminate|].
    destruct (Z.eq_dec (m_reactivation_avoidance s) 0) as [Hd|Hd].
    + rewrite (deactivate_tears_down s c Hc Ht Hd). reflexivity.
    + rewrite (deactivate_refuses s c Hc Ht Hd). reflexivity.
  - rewrite (deactivate_no_handle s Hc). reflexivity.
Qed.

(** C10.  With no physical handle, [deactivate()] returns at once: no
    exception, the object exactly as it was, and nothing called outside it
    (no notice, no policy call), whatever the registered transaction and the
    reactivation-avoidance counter are. *)
Theorem deactivate_without_handle (s : state S) :
  m_Conn s = None -> deactivate s = (Ok tt, s, []).
Proof. apply deactivate_no_handle. Qed.

(** C6, as the code has it.  With a physical handle present,
    [deactivate()] throws [usage_error] when a transaction is registered;
    else, with a nonzero counter, it only sends a notice to the error
    handlers and leaves the object as it was; else it clears [m_Completed]
    and stores what the policy's [do_disconnect] returns in [m_Conn]. *)
Theorem deactivate_with_handle (s : state S) (c : PGconn) :
  m_Conn s = Some c ->
  (forall t, m_Trans s = Some t ->
     deactivate s =
     (Throw (usage_error ("Attempt to deactivate connection while " +:+
                          description t +:+ " still open")), s, [])) /\
  (m_Trans s = None -> m_reactivation_avoidance s <> 0 ->
     deactivate s =
     (Ok tt, s,
      run_errorhandlers (rev (m_errorhandlers s))
        (deactivate_refused +:+ newline))) /\
  (m_Trans s = None -> m_reactivation_avoidance s = 0 ->
     deactivate s =
     (Ok tt,
      set_m_Conn (fst (do_disconnect (world s) (Some c)))
        (set_world (snd (do_disconnect (world s) (Some c)))
           (set_m_Completed false s)),
      [Ev_do_disconnect (Some c)])).
Proof.
  intros Hc. split; [|split].
  - intros t. apply (deactivate_in_transaction s c t Hc).
  - apply (deactivate_refuses s c Hc).
  - apply (deactivate_tears_down s c Hc).
Qed.

End Deactivate.

(** ** activate and Reset under reactivation avoidance *)

Section Avoidance.
Context {S : Type} `{Policy : connectionpolicy S} `{Pq : libpq S}.

Lemma activate_when_open (s : state S) :
  is_open s = true -> activate s = (Ok tt, s, []).
Proof. intros Ho. unfold activate. run. rewrite Ho. reflexivity. Qed.

Lemma activate_inhibited (s : state S) :
  is_open s = false -> m_inhibit_reactivation s = true ->
  activate s =
  (Throw (broken_connection
     "Could not reactivate connection; reactivation is inhibited"), s, []).
Proof.
  intros Ho Hi. unfold activate. run. rewrite Ho. cbn. run. rewrite Hi.
  reflexivity.
Qed.

Lemma activate_in_debt (s : state S) :
  m_inhibit_reactivation s = false -> m_reactivation_avoidance s <> 0 ->
  activate s = (Ok tt, s, []).
Proof.
  intros Hi Hd. unfold activate. run.
  destruct (is_open s); [reflexivity|]. cbn. run. rewrite Hi. run.
  apply Z.eqb_neq in Hd. rewrite Hd. reflexivity.
Qed.

Lemma Reset_inhibited (s : state S) :
  m_inhibit_reactivation s = true ->
  Reset s =
  (Throw (broken_connection
     "Could not reset connection: reactivation is inhibited"), s, []).
Proof. intros Hi. unfold Reset. run. rewrite Hi. reflexivity. Qed.

Lemma Reset_in_debt (s : state S) :
  m_inhibit_reactivation s = false -> m_reactivation_avoidance s <> 0 ->
  Reset s = (Ok tt, s, []).
Proof.
  intros Hi Hd. unfold Reset. run. rewrite Hi. run.
  apply Z.eqb_neq in Hd. rewrite Hd. reflexivity.
Qed.

(** C2, as the code has it.  While the reactivation-avoidance counter is
    positive, [activate()] and [Reset()] leave the whole object (handle,
    completed flag and all the rest) as it was and call nothing outside it.
    They return normally when reactivation is not inhibited, and
    [activate()] also when the connection is open; with reactivation
    inhibited, [Reset()], and [activate()] on a connection that is not
    open, throw [broken_connection] instead. *)
Theorem activate_Reset_under_debt (s : state S) :
  m_reactivation_avoidance s > 0 ->
  (m_inhibit_reactivation s = false ->
     activate s = (Ok tt, s, []) /\ Reset s = (Ok tt, s, [])) /\
  (is_open s = true -> activate s = (Ok tt, s, [])) /\
  (m_inhibit_reactivation s = true ->
     final (Reset s) = s /\ events (Reset s) = [] /\
     outcome (Reset s) =
       Throw (broken_connection
         "Could not reset connection: reactivation is inhibited") /\
     final (activate s) = s /\ events (activate s) = [] /\
     (is_open s = false ->
      outcome (activate s) =
        Throw (broken_connection
          "Could not reactivate connection; reactivation is inhibited"))).
Proof.
  intros Hd. assert (Hnz : m_reactivation_avoidance s <> 0) by lia.
  split; [|split].
  - intros Hi. split; [apply activate_in_debt | apply Reset_in_debt]; assumption.
  - apply activate_when_open.
  - intros Hi. rewrite (Reset_inhibited s Hi).
    destruct (is_open s) eqn:Ho.
    + rewrite (activate_when_open s Ho). repeat split; discriminate.
    + rewrite (activate_inhibited s Ho Hi). repeat split.
Qed.

End Avoidance.

(** ** The end of a COPY ... FROM STDIN *)

Section Copy.
Context {S : Type} `{Policy : connectionpolicy S} `{Pq : libpq S}.

(** [check_result] only looks. *)
Lemma check_result_pure (R : result) (s : state S) :
  check_result R s = (outcome (check_result R s), s, []).
Proof.
  unfold check_result. run. destruct (is_open s); cbn; [|reflexivity].
  destruct (result_connection R); cbn; [|run; reflexivity].
  destruct (r_data R) as [p|]; [|reflexivity].
  destruct (pg_error p); reflexivity.
Qed.



End Copy.

(** ** The registry of prepared statements *)

Section Prepared.
Context {S : Type} `{Policy : connectionpolicy S} `{Pq : libpq S}.

(** C4.  Redeclaring a known statement with a different definition throws
    [argument_error] when the name is not empty and changes nothing; for
    the anonymous statement it succeeds, replacing the definition and
    clearing the registered flag. *)
Theorem prepare_redefinition (s : state S) (name def : string) (d : prepared_def) :
  m_prepared s !! name = Some d ->
  def <> definition d ->
  (name <> EmptyString ->
     prepare name def s =
     (Throw (argument_error
        ("Inconsistent redefinition of prepared statement " +:+ name)), s, [])) /\
  (name = EmptyString ->
     prepare name def s =
     (Ok tt,
      set_m_prepared
        (<[name := {| definition := def; registered := false |}]> (m_prepared s)) s,
      []) /\
     m_prepared (final (prepare name def s)) !! name =
       Some {| definition := def; registered := false |}).
Proof.
  intros Hl Hne.
  assert (Hb : String.eqb def (definition d) = false)
    by (apply String.eqb_neq; assumption).
  assert (Hrun : prepare name def s =
    (if negb (empty name)
     then throw (argument_error
            ("Inconsistent redefinition of prepared statement " +:+ name))
     else modify (fun s => set_m_prepared
            (<[name := {| definition := def; registered := false |}]>
               (m_prepared s)) s)) s).
  { unfold prepare. run. rewrite Hl, Hb. reflexivity. }
  split.
  - intros Hn. rewrite Hrun. destruct name; [congruence | reflexivity].
  - intros ->. rewrite Hrun. cbn. split; [reflexivity|].
    apply lookup_insert_eq.
Qed.

(** C5, as the code has it.  Redeclaring a known statement with the very
    same definition does nothing at all: no exception, nothing called, and
    the registry, registered flag included, is as before.  So on an open
    connection a statement that was registered stays registered and its
    next use sends no registration request, while one that was not
    registered yet is sent to the server on its next use, as it would have
    been without the redeclaration. *)
Theorem prepare_same_definition (s : state S) (name : string) (d : prepared_def) :
  m_prepared s !! name = Some d ->
  prepare name (definition d) s = (Ok tt, s, []) /\
  (registered d = true -> is_open s = true ->
     register_prepared name (final (prepare name (definition d) s)) =
     (Ok d, s, [])) /\
  (registered d = false -> is_open s = true ->
     events (register_prepared name (final (prepare name (definition d) s))) =
     [Ev_PQprepare (m_Conn s) name (definition d)]).
Proof.
  intros Hl.
  assert (Hp : prepare name (definition d) s = (Ok tt, s, [])).
  { unfold prepare. run. rewrite Hl. rewrite String.eqb_refl. reflexivity. }
  split; [exact Hp|]. rewrite Hp. cbn [final fst snd].
  split; intros Hr Ho; unfold register_prepared;
    rewrite (bind_Ok _ _ _ _ _ _ (activate_when_open s Ho));
    unfold find_prepared; run; rewrite Hl; run; rewrite Hr.
  - reflexivity.
  - cbn [negb events snd app]. rewrite events_bind.
    unfold call_PQprepare at 1 2.
    destruct (PQprepare (world s) (m_Conn s) name (definition d)) as [r w].
    cbn [events outcome final fst snd]. rewrite events_bind.
    rewrite check_result_pure. cbn [events outcome final fst snd].
    destruct (outcome (check_result _ _)); reflexivity.
Qed.

End Prepared.

(** ** The reactivation-avoidance exemption *)

Section Exemption.
Context {S : Type} `{Policy : connectionpolicy S} `{Pq : libpq S}.

Lemma exemption_ctor_run (s : state S) :
  exemption_ctor s =
  (Ok {| m_count := m_reactivation_avoidance s; m_open := is_open s |},
   set_m_reactivation_avoidance 0 s, []).
Proof. unfold exemption_ctor, get_counter, clear_counter. run. reflexivity. Qed.

Lemma exemption_dtor_plain (E : reactivation_avoidance_exemption) (s : state S) :
  m_count E = 0 \/ m_open E = true ->
  exemption_dtor E s =
  (Ok tt,
   set_m_reactivation_avoidance (m_reactivation_avoidance s + m_count E) s, []).
Proof.
  intros Hskip. unfold exemption_dtor, add_counter.
  assert (Hc : negb (m_count E =? 0) && negb (m_open E) = false).
  { destruct Hskip as [-> | ->]; [reflexivity|].
    apply andb_false_r. }
  rewrite Hc. cbn [when]. run. reflexivity.
Qed.

Lemma exemption_dtor_deactivates (E : reactivation_avoidance_exemption)
    (s : state S) :
  m_count E <> 0 -> m_open E = false ->
  exemption_dtor E s =
  match deactivate s with
  | (Ok _, s1, t1) =>
      (Ok tt,
       set_m_reactivation_avoidance (m_reactivation_avoidance s1 + m_count E) s1,
       t1)
  | (Throw e, s1, t1) => (Throw e, s1, t1)
  end.
Proof.
  intros Hn Ho. unfold exemption_dtor, add_counter.
  apply Z.eqb_neq in Hn. rewrite Hn, Ho. cbn [negb andb when].
  unfold bind. destruct (deactivate s) as [[[[]|e] s1] t1]; [|reflexivity].
  cbn. rewrite app_nil_r. reflexivity.
Qed.

(** Whenever [deactivate] cannot throw, the destructor returns and has
    added the snapshot to the counter. *)
Lemma exemption_dtor_restores (E : reactivation_avoidance_exemption)
    (s : state S) :
  m_Conn s = None \/ m_Trans s = None ->
  outcome (exemption_dtor E s) = Ok tt /\
  m_reactivation_avoidance (final (exemption_dtor E s)) =
    m_reactivation_avoidance s + m_count E.
Proof.
  intros Hfree.
  destruct (Z.eq_dec (m_count E) 0) as [Hz|Hn].
  { rewrite exemption_dtor_plain by (left; assumption). split; reflexivity. }
  destruct (m_open E) eqn:Ho.
  { rewrite exemption_dtor_plain by (right; assumption). split; reflexivity. }
  rewrite (exemption_dtor_deactivates E s Hn Ho).
  pose proof (deactivate_returns s Hfree) as Hret.
  pose proof (deactivate_counter s) as Hcnt.
  destruct (deactivate s) as [[[[]|e] s1] t1]; cbn in *; [|discriminate].
  split; [reflexivity|]. rewrite Hcnt. reflexivity.
Qed.

Lemma exemption_dtor_throws (E : reactivation_avoidance_exemption)
    (s : state S) (c : PGconn) (t : transaction_base) :
  m_count E <> 0 -> m_open E = false ->
  m_Conn s = Some c -> m_Trans s = Some t ->
  exemption_dtor E s =
  (Throw (usage_error ("Attempt to deactivate connection while " +:+
                       description t +:+ " still open")), s, []).
Proof.
  intros Hn Ho Hc Ht. rewrite (exemption_dtor_deactivates E s Hn Ho).
  rewrite (deactivate_in_transaction s c t Hc Ht). reflexivity.
Qed.


(** The same seen from the scope: an exemption around any [body] that
    leaves the counter at zero and no transaction on a live handle gives
    back the outcome of [body], returned or thrown, with the original
    debt. *)
Lemma with_exemption_restores {A : Type} (body : M (state S) A) (s : state S) :
  let x := body (set_m_reactivation_avoidance 0 s) in
  m_reactivation_avoidance (final x) = 0 ->
  m_Conn (final x) = None \/ m_Trans (final x) = None ->
  outcome (with_exemption body s) = outcome x /\
  m_reactivation_avoidance (final (with_exemption body s)) =
    m_reactivation_avoidance s.
Proof.
  cbv zeta. intros Hz Hfree. unfold with_exemption.
  rewrite (bind_Ok _ _ _ _ _ _ (exemption_ctor_run s)).
  set (E := {| m_count := m_reactivation_avoidance s; m_open := is_open s |}).
  destruct (body (set_m_reactivation_avoidance 0 s)) as [[r s1] t1].
  cbn [final outcome events fst snd] in *.
  destruct (exemption_dtor_restores E s1 Hfree) as [Hret Hcnt].
  destruct (exemption_dtor E s1) as [[[u|e] s2] t2]; cbn in *; [|discriminate].
  split; [reflexivity|]. rewrite Hcnt, Hz. reflexivity.
Qed.

End Exemption.

(** ** Dispatch of notifications *)

Section Notifications.
Context {S : Type} `{Policy : connectionpolicy S} `{Pq : libpq S}.

Lemma ends_with_newline_append (x : string) :
  ends_with_newline (x +:+ newline) = true.
Proof.
  induction x as [|c x IH]; [reflexivity|].
  change (String c x +:+ newline) with (String c (x +:+ newline)).
  destruct (x +:+ newline) eqn:Hx; [destruct x; discriminate|].
  exact IH.
Qed.

Lemma empty_append_newline (x : string) : empty (x +:+ newline) = false.
Proof. destruct x; reflexivity. Qed.


Lemma append_assoc (a b c : string) : (a +:+ b) +:+ c = a +:+ b +:+ c.
Proof.
  induction a as [|x a IH]; [reflexivity|].
  change (String x ((a +:+ b) +:+ c) = String x (a +:+ b +:+ c)).
  rewrite IH. reflexivity.
Qed.





End Notifications.

(** ** Counting the calls a member function makes *)

Section Counting.
Context {St : Type} (p : Event -> bool).

Lemma count_app (t1 t2 : list Event) :
  count p (t1 ++ t2) = (count p t1 + count p t2)%nat.
Proof. unfold count. rewrite List.filter_app, length_app. reflexivity. Qed.

Lemma at_most_ret {A : Type} (a : A) : emits_at_most (St := St) p 0 (ret a).
Proof. intros s. reflexivity. Qed.

Lemma at_most_throw {A : Type} (e : exn) :
  emits_at_most (St := St) (A := A) p 0 (throw e).
Proof. intros s. reflexivity. Qed.

Lemma at_most_gets {A : Type} (f : St -> A) : emits_at_most p 0 (gets f).
Proof. intros s. reflexivity. Qed.

Lemma at_most_modify (f : St -> St) : emits_at_most p 0 (modify f).
Proof. intros s. reflexivity. Qed.

Lemma at_most_emit (e : Event) :
  p e = false -> emits_at_most (St := St) p 0 (emit e).
Proof. intros He s. unfold count. cbn. rewrite He. reflexivity. Qed.

Lemma at_most_bind {A B : Type} (k1 k2 : nat) (m : M St A) (k : A -> M St B) :
  emits_at_most p k1 m -> (forall a, emits_at_most p k2 (k a)) ->
  emits_at_most p (k1 + k2) (bind m k).
Proof.
  intros Hm Hk s. unfold bind. specialize (Hm s).
  destruct (m s) as [[[a|e] s1] t1]; cbn [events snd] in *; [|lia].
  specialize (Hk a s1). destruct (k a s1) as [[r s2] t2].
  cbn [events snd] in *. rewrite count_app. lia.
Qed.

Lemma at_most_try_catch {A : Type} (k1 k2 : nat) (m : M St A)
    (h : exn -> M St A) :
  emits_at_most p k1 m -> (forall e, emits_at_most p k2 (h e)) ->
  emits_at_most p (k1 + k2) (try_catch m h).
Proof.
  intros Hm Hh s. unfold try_catch. specialize (Hm s).
  destruct (m s) as [[[a|e] s1] t1]; cbn [events snd] in *; [lia|].
  specialize (Hh e s1). destruct (h e s1) as [[r s2] t2].
  cbn [events snd] in *. rewrite count_app. lia.
Qed.

Lemma at_most_weaken {A : Type} (k k' : nat) (m : M St A) :
  (k <= k')%nat -> emits_at_most p k m -> emits_at_most p k' m.
Proof. intros Hle Hm s. specialize (Hm s). lia. Qed.

Lemma at_most_when (k : nat) (b : bool) (m : M St unit) :
  emits_at_most p k m -> emits_at_most p k (when b m).
Proof.
  intros Hm. destruct b; [exact Hm|].
  apply (at_most_weaken 0 k); [lia | apply at_most_ret].
Qed.

End Counting.

(** A member function built from parts that cause no event of kind [p]
    causes none. *)
Ltac silent_step :=
  first
    [ assumption
    | apply at_most_ret | apply at_most_throw | apply at_most_gets
    | apply at_most_modify | apply at_most_emit; reflexivity
    | apply (at_most_bind _ 0 0); [|intros ?]
    | apply (at_most_try_catch _ 0 0); [|intros ?]
    | apply at_most_when
    | match goal with
      | |- emits_at_most _ _ (if ?b then _ else _) => destruct b
      | |- emits_at_most _ _ (match ?x with _ => _ end) => destruct x
      end ].

Ltac silent := repeat silent_step.

Section Silence.
Context {S : Type} `{Policy : connectionpolicy S} `{Pq : libpq S}.
Context (p : Event -> bool).

Local Abbreviation quiet m := (emits_at_most (St := state S) p 0 m).

(** The single calls: each causes its own event and no other. *)
Lemma at_most_call_do_startconnect :
  (forall h, p (Ev_do_startconnect h) = false) -> quiet call_do_startconnect.
Proof.
  intros Hp s. unfold call_do_startconnect, count.
  destruct (do_startconnect (world s) (m_Conn s)) as [[h|e] w]; cbn;
    rewrite Hp; reflexivity.
Qed.

Lemma at_most_call_do_completeconnect :
  (forall h, p (Ev_do_completeconnect h) = false) ->
  quiet call_do_completeconnect.
Proof.
  intros Hp s. unfold call_do_completeconnect, count.
  destruct (do_completeconnect (world s) (m_Conn s)) as [[h|e] w]; cbn;
    rewrite Hp; reflexivity.
Qed.

Lemma at_most_call_do_disconnect :
  (forall h, p (Ev_do_disconnect h) = false) -> quiet call_do_disconnect.
Proof.
  intros Hp s. unfold call_do_disconnect, count.
  destruct (do_disconnect (world s) (m_Conn s)) as [h w]; cbn;
    rewrite Hp; reflexivity.
Qed.


Lemma at_most_call_PQreset (c : PGconn) :
  p (Ev_PQreset c) = false -> quiet (call_PQreset c).
Proof. intros Hp s. unfold call_PQreset, count. cbn. rewrite Hp. reflexivity. Qed.


Lemma at_most_call_PQsendQuery (query : string) :
  (forall h q, p (Ev_PQsendQuery h q) = false) -> quiet (call_PQsendQuery query).
Proof.
  intros Hp s. unfold call_PQsendQuery, count.
  destruct (PQsendQuery (world s) (m_Conn s) query) as [r w]; cbn.
  rewrite Hp. reflexivity.
Qed.

Lemma at_most_call_PQconsumeInput :
  (forall h, p (Ev_PQconsumeInput h) = false) -> quiet call_PQconsumeInput.
Proof.
  intros Hp s. unfold call_PQconsumeInput, count.
  destruct (PQconsumeInput (world s) (m_Conn s)) as [r w]; cbn.
  rewrite Hp. reflexivity.
Qed.

Lemma at_most_call_PQgetResult :
  (forall h r, p (Ev_PQgetResult h r) = false) -> quiet call_PQgetResult.
Proof.
  intros Hp s. unfold call_PQgetResult, count.
  destruct (pending_results (world s)); cbn; rewrite Hp; reflexivity.
Qed.

Lemma at_most_call_PQnotifies :
  (forall h n, p (Ev_PQnotifies h n) = false) -> quiet call_PQnotifies.
Proof.
  intros Hp s. unfold call_PQnotifies, count.
  destruct (pending_notifs (world s)); cbn; rewrite Hp; reflexivity.
Qed.

Lemma at_most_call_receiver (r : notification_receiver) (payload : string)
    (pid : Z) :
  (forall id x y, p (Ev_receiver id x y) = false) ->
  quiet (call_receiver r payload pid).
Proof.
  intros Hp s. unfold call_receiver, count. cbn. rewrite Hp. reflexivity.
Qed.

Lemma count_run_errorhandlers (hs : list errorhandler) (msg : string) :
  (forall id x, p (Ev_errorhandler id x) = false) ->
  count p (run_errorhandlers hs msg) = 0%nat.
Proof.
  intros Hp. unfold count. induction hs as [|h hs IH]; [reflexivity|].
  cbn. rewrite Hp. destruct (eh_call h msg); [exact IH | reflexivity].
Qed.

Lemma at_most_process_notice_raw (msg : string) :
  (forall id x, p (Ev_errorhandler id x) = false) ->
  quiet (process_notice_raw msg).
Proof.
  intros Hp s. unfold process_notice_raw.
  destruct (empty msg); [reflexivity|]. cbn [events snd].
  rewrite count_run_errorhandlers by assumption. lia.
Qed.

Lemma at_most_process_notice (msg : string) :
  (forall id x, p (Ev_errorhandler id x) = false) ->
  quiet (process_notice msg).
Proof.
  intros Hp. unfold process_notice.
  destruct (ends_with_newline msg); apply at_most_process_notice_raw; assumption.
Qed.

End Silence.

(** ** Exec: the retry loop *)

Section Quiet.
Context {S : Type} `{Policy : connectionpolicy S} `{Pq : libpq S}.
Context (p : Event -> bool).
Hypothesis Hquiet : forall e, is_reset e = false -> is_exec e = false -> p e = false.

Local Abbreviation quiet m := (emits_at_most (St := state S) p 0 m).

Local Ltac quiet_call :=
  first
    [ apply at_most_emit | apply at_most_call_do_startconnect
    | apply at_most_call_do_completeconnect | apply at_most_call_do_disconnect
    | apply at_most_call_PQreset | apply at_most_call_PQsendQuery
    | apply at_most_call_PQconsumeInput | apply at_most_call_PQgetResult
    | apply at_most_call_PQnotifies | apply at_most_call_receiver
    | apply at_most_process_notice ];
  intros; apply Hquiet; reflexivity.

Local Ltac quiet := repeat first [ silent_step | quiet_call ].







Lemma quiet_check_result (R : result) : quiet (check_result R).
Proof. unfold check_result. quiet. Qed.

Lemma quiet_deliver (Hit : list (string * notification_receiver)) (N : PGnotify) :
  quiet (deliver Hit N).
Proof. induction Hit as [|i rest IH]; cbn [deliver]; quiet. Qed.

Lemma quiet_get_notifs_loop (fuel : nat) :
  forall notifs, quiet (get_notifs_loop fuel notifs).
Proof.
  induction fuel as [|fuel IH]; intros notifs; cbn [get_notifs_loop];
    pose proof quiet_deliver; quiet; try apply IH; try apply quiet_deliver.
Qed.

Lemma quiet_get_notifs : quiet get_notifs.
Proof.
  unfold get_notifs, consume_input. quiet. apply quiet_get_notifs_loop.
Qed.

End Quiet.

Section ExecRetry.
Context {S : Type} `{Policy : connectionpolicy S} `{Pq : libpq S}.

Lemma reset_only : forall e, is_reset e = false -> is_exec e = false -> is_reset e = false.
Proof. intros e He _. exact He. Qed.

Lemma exec_only : forall e, is_reset e = false -> is_exec e = false -> is_exec e = false.
Proof. intros e _ He. exact He. Qed.










(** After the loop: the check and the dispatch of notifications neither
    reset nor submit. *)
Lemma Exec_tail_quiet (p : Event -> bool) (R : result) :
  (forall e, is_reset e = false -> is_exec e = false -> p e = false) ->
  emits_at_most (St := state S) p 0
    (check_result R ;;; get_notifs ;;; ret R).
Proof.
  intros Hp.
  apply (at_most_bind _ 0 0); [apply quiet_check_result | intros _].
  apply (at_most_bind _ 0 0); [apply (quiet_get_notifs p Hp) | intros _].
  apply at_most_ret.
Qed.





End ExecRetry.

(** ** The order of [std::string] keys *)

Section StringOrder.

Lemma compare_refl (s : string) : String.compare s s = Eq.
Proof. apply String_as_OT.cmp_eq. reflexivity. Qed.

Lemma compare_lt_trans (a b c : string) :
  String.compare a b = Lt -> String.compare b c = Lt -> String.compare a c = Lt.
Proof.
  intros Hab Hbc. apply String_as_OT.cmp_lt.
  apply String_as_OT.lt_trans with b; apply String_as_OT.cmp_lt; assumption.
Qed.

Lemma compare_gt_lt (a b : string) :
  String.compare a b = Gt -> String.compare b a = Lt.
Proof.
  intros H. rewrite String.compare_antisym, H. reflexivity.
Qed.

Lemma ltb_lt (a b : string) : String.ltb a b = true <-> String.compare a b = Lt.
Proof. unfold String.ltb. destruct (String.compare a b); split; congruence. Qed.

Lemma leb_le (a b : string) : String.leb a b = true <-> String.compare a b <> Gt.
Proof. unfold String.leb. destruct (String.compare a b); split; congruence. Qed.

Lemma ltb_irrefl (a : string) : String.ltb a a = false.
Proof. unfold String.ltb. rewrite compare_refl. reflexivity. Qed.

Lemma leb_empty (a : string) : String.leb EmptyString a = true.
Proof. destruct a; reflexivity. Qed.

Lemma ltb_leb (a b : string) : String.ltb a b = true -> String.leb a b = true.
Proof. rewrite ltb_lt, leb_le. congruence. Qed.

Lemma not_ltb_leb (a b : string) : String.ltb a b = false -> String.leb b a = true.
Proof.
  unfold String.ltb, String.leb. rewrite (String.compare_antisym b a).
  destruct (String.compare a b); cbn; congruence.
Qed.

Lemma leb_neq_ltb (a b : string) :
  String.leb a b = true -> a <> b -> String.ltb a b = true.
Proof.
  rewrite leb_le, ltb_lt. intros Hle Hne.
  destruct (String.compare a b) eqn:Hc; [|reflexivity|congruence].
  apply String_as_OT.cmp_eq in Hc. contradiction.
Qed.

Lemma ltb_leb_trans (a b c : string) :
  String.ltb a b = true -> String.leb b c = true -> String.ltb a c = true.
Proof.
  rewrite !ltb_lt, leb_le. intros Hab Hbc.
  destruct (String.compare b c) eqn:Hc; [| |congruence].
  - apply String_as_OT.cmp_eq in Hc. subst c. exact Hab.
  - apply compare_lt_trans with b; assumption.
Qed.

Lemma leb_trans (a b c : string) :
  String.leb a b = true -> String.leb b c = true -> String.leb a c = true.
Proof.
  intros Hab Hbc. destruct (string_dec a b) as [->|Hne]; [exact Hbc|].
  apply ltb_leb. apply ltb_leb_trans with b; [|exact Hbc].
  apply leb_neq_ltb; assumption.
Qed.

Lemma ltb_trans (a b c : string) :
  String.ltb a b = true -> String.ltb b c = true -> String.ltb a c = true.
Proof.
  intros Hab Hbc. apply ltb_leb_trans with b; [exact Hab | apply ltb_leb, Hbc].
Qed.

End StringOrder.

(** ** The containers keep their order *)

Section Containers.
Context {V : Type}.

Lemma Forall_multimap_insert (P : string * V -> Prop) (k : string) (v : V)
    (m : list (string * V)) :
  P (k, v) -> Forall P m -> Forall P (multimap_insert k v m).
Proof.
  intros Hk Hm. induction Hm as [|[k' v'] rest Hx Hrest IH]; cbn.
  - constructor; [exact Hk | constructor].
  - destruct (String.ltb k' k).
    + constructor; assumption.
    + constructor; [exact Hk | constructor; assumption].
Qed.

Lemma multimap_insert_sorted (k : string) (v : V) (m : list (string * V)) :
  multimap_sorted m -> multimap_sorted (multimap_insert k v m).
Proof.
  unfold multimap_sorted. intros Hm.
  induction Hm as [|[k' v'] rest Hrest IH Hall]; cbn.
  - constructor; constructor.
  - destruct (String.ltb k' k) eqn:Hlt.
    + constructor; [exact IH|].
      apply Forall_multimap_insert; [|exact Hall].
      cbn. apply ltb_leb. exact Hlt.
    + apply not_ltb_leb in Hlt.
      constructor; [constructor; assumption|].
      constructor; [exact Hlt|].
      eapply List.Forall_impl; [|exact Hall]. intros [k2 v2] H2. cbn in *.
      apply leb_trans with k'; assumption.
Qed.

Lemma Forall_map_assign (P : string * V -> Prop) (k : string) (v : V)
    (m : list (string * V)) :
  P (k, v) -> Forall P m -> Forall P (map_assign k v m).
Proof.
  intros Hk Hm. induction Hm as [|[k' v'] rest Hx Hrest IH]; cbn.
  - constructor; [exact Hk | constructor].
  - destruct (String.compare k k').
    + constructor; assumption.
    + constructor; [exact Hk | constructor; assumption].
    + constructor; assumption.
Qed.

Lemma map_assign_sorted (k : string) (v : V) (m : list (string * V)) :
  map_sorted m -> map_sorted (map_assign k v m).
Proof.
  unfold map_sorted. intros Hm.
  induction Hm as [|[k' v'] rest Hrest IH Hall]; cbn.
  - constructor; constructor.
  - destruct (String.compare k k') eqn:Hc.
    + apply String_as_OT.cmp_eq in Hc. subst k'.
      constructor; assumption.
    + apply ltb_lt in Hc.
      constructor; [constructor; assumption|].
      constructor; [exact Hc|].
      eapply List.Forall_impl; [|exact Hall]. intros [k2 v2] H2. cbn in *.
      apply ltb_trans with k'; assumption.
    + constructor; [exact IH|].
      apply Forall_map_assign; [|exact Hall].
      cbn. apply ltb_lt. apply compare_gt_lt. exact Hc.
Qed.

End Containers.

(** ** The restore batch *)

Section Batch.

Lemma render_all_app (a b : list restore_cmd) :
  render_all (a ++ b) = render_all a +:+ render_all b.
Proof.
  induction a as [|c a IH]; [reflexivity|].
  cbn [app render_all]. rewrite IH. symmetry. apply append_assoc.
Qed.

Lemma restore_receivers_render (rs : list (string * notification_receiver)) :
  forall Last, restore_receivers rs Last = render_all (restore_listens rs Last).
Proof.
  induction rs as [|i rest IH]; intros Last; [reflexivity|].
  cbn [restore_receivers restore_listens].
  destruct (negb (String.eqb (fst i) Last)); [|apply IH].
  cbn [render_all render]. rewrite IH. reflexivity.
Qed.

Lemma restore_vars_render (vs : list (string * string)) :
  restore_vars vs = render_all (restore_sets vs).
Proof.
  induction vs as [|i rest IH]; [reflexivity|].
  cbn [restore_vars restore_sets map render_all render].
  unfold restore_sets in IH. rewrite IH. reflexivity.
Qed.

(** The text sent is the rendering of the statements, in order. *)
Lemma restore_query_render (rs : list (string * notification_receiver))
    (vs : list (string * string)) :
  restore_query rs vs = render_all (restore_cmds rs vs).
Proof.
  unfold restore_query, restore_cmds.
  rewrite render_all_app, restore_receivers_render, restore_vars_render.
  reflexivity.
Qed.

Lemma listens_for_app (ch : string) (a b : list restore_cmd) :
  listens_for ch (a ++ b) = (listens_for ch a + listens_for ch b)%nat.
Proof. unfold listens_for. rewrite List.filter_app, length_app. reflexivity. Qed.

Lemma sets_for_app (var : string) (a b : list restore_cmd) :
  sets_for var (a ++ b) = (sets_for var a + sets_for var b)%nat.
Proof. unfold sets_for. rewrite List.filter_app, length_app. reflexivity. Qed.

Lemma listens_for_sets (ch : string) (vs : list (string * string)) :
  listens_for ch (restore_sets vs) = 0%nat.
Proof. induction vs as [|i rest IH]; [reflexivity | exact IH]. Qed.

Lemma sets_for_listens (var : string) (rs : list (string * notification_receiver)) :
  forall Last, sets_for var (restore_listens rs Last) = 0%nat.
Proof.
  induction rs as [|i rest IH]; intros Last; [reflexivity|].
  cbn [restore_listens]. destruct (negb (String.eqb (fst i) Last)); apply IH.
Qed.

Lemma listens_for_cons (ch k : string) (cs : list restore_cmd) :
  listens_for ch (LISTEN k :: cs) =
  ((if String.eqb k ch then 1 else 0) + listens_for ch cs)%nat.
Proof.
  unfold listens_for. cbn [List.filter is_listen_for].
  destruct (String.eqb k ch); reflexivity.
Qed.

(** One LISTEN for each channel that differs from [Last] on entry: the
    receivers of one channel are adjacent, so comparing with the previous
    channel is enough. *)
Lemma listens_for_grouped (rs : list (string * notification_receiver)) :
  multimap_sorted rs ->
  forall Last,
    Forall (fun i => String.leb Last (fst i) = true) rs ->
    forall ch,
      (In ch (map fst rs) -> ch <> Last ->
       listens_for ch (restore_listens rs Last) = 1%nat) /\
      (~ In ch (map fst rs) \/ ch = Last ->
       listens_for ch (restore_listens rs Last) = 0%nat).
Proof.
  unfold multimap_sorted. intros Hsorted.
  induction Hsorted as [|[k r] rest Hrest IH Hall]; intros Last HLast ch.
  { split; [intros [] | reflexivity]. }
  apply List.Forall_cons_iff in HLast. destruct HLast as [HLk HLrest].
  cbn [fst] in HLk, Hall.
  cbn [restore_listens map fst].
  destruct (String.eqb k Last) eqn:Hk; cbn [negb].
  - apply String.eqb_eq in Hk. subst k.
    destruct (IH Last HLrest ch) as [IH1 IH0]. split.
    + intros [Heq | Hin] Hne; [congruence | apply IH1; assumption].
    + intros [Hnot | Heq]; apply IH0; [left | right; exact Heq].
      intros Hin. apply Hnot. right. exact Hin.
  - apply String.eqb_neq in Hk.
    destruct (IH k Hall ch) as [IH1 IH0].
    rewrite listens_for_cons. split.
    + intros [Heq | Hin] Hne.
      * subst ch. rewrite String.eqb_refl. rewrite IH0; [reflexivity | right; reflexivity].
      * destruct (String.eqb k ch) eqn:Hkc.
        -- apply String.eqb_eq in Hkc. subst ch.
           rewrite IH0; [reflexivity | right; reflexivity].
        -- apply String.eqb_neq in Hkc. rewrite IH1; [reflexivity | exact Hin | congruence].
    + intros Hzero.
      assert (Hne : k <> ch).
      { destruct Hzero as [Hnot | Heq]; [|congruence].
        intros Heq. apply Hnot. left. exact Heq. }
      apply String.eqb_neq in Hne. rewrite Hne. cbn [Nat.add].
      apply IH0. left. intros Hin.
      destruct Hzero as [Hnot | Heq]; [apply Hnot; right; exact Hin|].
      subst ch. apply in_map_iff in Hin. destruct Hin as [[k2 r2] [Hk2 Hin2]].
      cbn in Hk2. subst k2.
      rewrite List.Forall_forall in Hall. specialize (Hall _ Hin2). cbn in Hall.
      assert (Hlt : String.ltb Last Last = true).
      { apply ltb_leb_trans with k; [|exact Hall].
        apply leb_neq_ltb; [exact HLk | congruence]. }
      rewrite ltb_irrefl in Hlt. discriminate.
Qed.

Lemma sets_for_absent (var : string) (vs : list (string * string)) :
  ~ In var (map fst vs) -> sets_for var (restore_sets vs) = 0%nat.
Proof.
  induction vs as [|[k v] rest IH]; intros Hnot; [reflexivity|].
  unfold sets_for in *. cbn [restore_sets map List.filter is_set_for fst snd] in *.
  destruct (String.eqb k var) eqn:Hk.
  - apply String.eqb_eq in Hk. exfalso. apply Hnot. left. exact Hk.
  - apply IH. intros Hin. apply Hnot. right. exact Hin.
Qed.

(** One SET for each variable of the map. *)
Lemma sets_for_present (var : string) (vs : list (string * string)) :
  map_sorted vs -> In var (map fst vs) ->
  sets_for var (restore_sets vs) = 1%nat.
Proof.
  unfold map_sorted. intros Hsorted.
  induction Hsorted as [|[k v] rest Hrest IH Hall]; intros Hin; [destruct Hin|].
  cbn [fst] in Hall.
  change (sets_for var (restore_sets ((k, v) :: rest)))
    with (sets_for var ([SET k v] ++ restore_sets rest)).
  rewrite sets_for_app.
  unfold sets_for at 1. cbn [List.filter is_set_for].
  destruct (String.eqb k var) eqn:Hk.
  - apply String.eqb_eq in Hk. subst k.
    rewrite sets_for_absent; [reflexivity|].
    intros Hin2. apply in_map_iff in Hin2. destruct Hin2 as [[k2 v2] [Hk2 Hin2]].
    cbn in Hk2. subst k2.
    rewrite List.Forall_forall in Hall. specialize (Hall _ Hin2). cbn in Hall.
    rewrite ltb_irrefl in Hall. discriminate.
  - apply String.eqb_neq in Hk. destruct Hin as [Heq | Hin]; [contradiction|].
    rewrite IH by exact Hin. reflexivity.
Qed.

Lemma In_restore_sets (var value : string) (vs : list (string * string)) :
  In (SET var value) (restore_sets vs) <-> In (var, value) vs.
Proof.
  unfold restore_sets. rewrite in_map_iff. split.
  - intros [[k v] [Heq Hin]]. cbn in Heq. congruence.
  - intros Hin. exists (var, value). split; [reflexivity | exact Hin].
Qed.

End Batch.

(** ** SetupState *)

Section Setup.
Context {S : Type} `{Policy : connectionpolicy S} `{Pq : libpq S}.

(** The drain loop fetches every buffered reply and stops on the null
    after them: the fuel [SetupState] gives it is enough. *)
Lemma drain_results_run (q : list PGresult) :
  forall (fuel : nat) (s : state S),
    pending_results (world s) = q ->
    (List.length q <= fuel)%nat ->
    drain_results fuel s =
    (Ok tt, set_world (set_pending_results [] (world s)) s,
     drain_events (m_Conn s) q).
Proof.
  induction q as [|r q IH]; intros fuel s Hq Hfuel.
  - destruct s as [? ? ? ? ? ? ? ? ? ? ? ? [sv qr qn]]. cbn in Hq. subst qr.
    destruct fuel; reflexivity.
  - destruct fuel as [|fuel]; [cbn in Hfuel; lia|].
    destruct s as [? ? ? ? ? ? ? ? ? ? ? ? [sv qr qn]]. cbn in Hq. subst qr.
    cbn [drain_results]. unfold bind at 1. unfold call_PQgetResult at 1.
    cbn [world pending_notifs set_world set_pending_results m_Conn
         m_Trans m_errorhandlers m_Trace m_serverversion
         m_reactivation_avoidance m_Completed m_inhibit_reactivation m_caps
         m_Vars m_receivers m_prepared srv pending_results].
    rewrite IH; [|reflexivity|cbn in Hfuel; cbn; lia].
    reflexivity.
Qed.

Lemma read_capabilities_run (s : state S) :
  90000 < PQserverVersion (world s) (m_Conn s) ->
  protocol_version s <> 0 -> protocol_version s <> 1 -> protocol_version s <> 2 ->
  read_capabilities s = (Ok tt, final (read_capabilities s), []) /\
  m_Conn (final (read_capabilities s)) = m_Conn s /\
  m_Trace (final (read_capabilities s)) = m_Trace s /\
  m_receivers (final (read_capabilities s)) = m_receivers s /\
  m_Vars (final (read_capabilities s)) = m_Vars s /\
  world (final (read_capabilities s)) = world s.
Proof.
  intros Hv Hp0 Hp1 Hp2. unfold read_capabilities. run.
  apply Z.leb_gt in Hv. rewrite Hv. run.
  change (protocol_version
            (set_m_serverversion (PQserverVersion (world s) (m_Conn s)) s))
    with (protocol_version s).
  apply Z.eqb_neq in Hp0, Hp1, Hp2. rewrite Hp0, Hp1, Hp2.
  cbn [orb]. unfold modify. cbn. repeat split.
Qed.

Lemma InternalSetTrace_run (s : state S) (c : PGconn) :
  m_Conn s = Some c -> InternalSetTrace s = (Ok tt, s, [trace_event s]).
Proof.
  intros Hc. unfold InternalSetTrace, trace_event. run. rewrite Hc. run.
  destruct (m_Trace s); reflexivity.
Qed.

(** Sending the batch and draining the replies. *)
Lemma restore_run (query : string) (s : state S) :
  (call_PQsendQuery query ;;;
   pending <- gets (fun s => pending_results (world s)) ;;
   drain_results (List.length pending)) s =
  (Ok tt,
   set_world (set_pending_results []
                (snd (PQsendQuery (world s) (m_Conn s) query))) s,
   Ev_PQsendQuery (m_Conn s) query ::
   drain_events (m_Conn s)
     (pending_results (snd (PQsendQuery (world s) (m_Conn s) query)))).
Proof.
  unfold bind at 1. unfold call_PQsendQuery.
  destruct (PQsendQuery (world s) (m_Conn s) query) as [r w1]. cbn [snd].
  rewrite bind_gets.
  rewrite (drain_results_run (pending_results w1)); [|reflexivity|].
  - destruct s as [? ? ? ? ? ? ? ? ? ? ? ? w]. reflexivity.
  - cbn. lia.
Qed.

(** [SetupState] on a healthy link with shadow state to restore: the notice
    processor and the trace are installed, then the whole batch goes out in
    one [PQsendQuery], and every reply to it is fetched. *)
Lemma SetupState_run (s : state S) (c : PGconn) :
  m_Conn s = Some c ->
  Status s = CONNECTION_OK ->
  90000 < PQserverVersion (world s) (m_Conn s) ->
  protocol_version s <> 0 -> protocol_version s <> 1 -> protocol_version s <> 2 ->
  m_receivers s <> [] \/ m_Vars s <> [] ->
  let query := restore_query (m_receivers s) (m_Vars s) in
  let w1 := snd (PQsendQuery (world s) (m_Conn s) query) in
  let s1 := final (read_capabilities s) in
  let s2 := set_m_prepared (unregister_all (m_prepared s1)) s1 in
  let s3 := set_m_Completed true
              (set_world (set_pending_results [] w1) s2) in
  SetupState s =
  (if is_open s3 then Ok tt else Throw broken_connection_default, s3,
   [Ev_PQsetNoticeProcessor (m_Conn s); trace_event s;
    Ev_PQsendQuery (m_Conn s) query] ++
   drain_events (m_Conn s) (pending_results w1)).
Proof.
  intros Hc Hst Hv Hp0 Hp1 Hp2 Hshadow. cbv zeta.
  destruct (read_capabilities_run s Hv Hp0 Hp1 Hp2)
    as (Hcaps & HcConn & HcTrace & HcRecv & HcVars & HcWorld).
  set (s1 := final (read_capabilities s)) in *.
  set (s2 := set_m_prepared (unregister_all (m_prepared s1)) s1).
  assert (Hc2 : m_Conn s2 = Some c) by (cbn; congruence).
  unfold SetupState. rewrite bind_gets, Hc. rewrite bind_gets, Hst.
  cbn [status_ok negb].
  rewrite (bind_Ok _ _ _ _ _ _ Hcaps). fold s1.
  rewrite bind_modify. fold s2. rewrite bind_emit.
  rewrite (bind_Ok _ _ _ _ _ _ (InternalSetTrace_run s2 c Hc2)).
  rewrite !bind_gets.
  assert (Hbranch :
    match m_receivers s2, m_Vars s2 with
    | [], [] => ret tt
    | _, _ =>
        call_PQsendQuery (restore_query (m_receivers s2) (m_Vars s2)) ;;;
        pending <- gets (fun s => pending_results (world s)) ;;
        drain_results (List.length pending)
    end =
    (call_PQsendQuery (restore_query (m_receivers s2) (m_Vars s2)) ;;;
     pending <- gets (fun s => pending_results (world s)) ;;
     drain_results (List.length pending))).
  { assert (Hr2 : m_receivers s2 = m_receivers s) by (cbn; congruence).
    assert (Hv2 : m_Vars s2 = m_Vars s) by (cbn; congruence).
    destruct (m_receivers s2) as [|i rs] eqn:Er; [|reflexivity].
    destruct (m_Vars s2) as [|j vs] eqn:Ev; [|reflexivity].
    destruct Hshadow; congruence. }
  rewrite Hbranch. rewrite (bind_Ok _ _ _ _ _ _ (restore_run _ s2)).
  rewrite bind_modify, bind_gets.
  assert (Hr2 : m_receivers s2 = m_receivers s) by (cbn; congruence).
  assert (Hv2 : m_Vars s2 = m_Vars s) by (cbn; congruence).
  assert (Hw2 : world s2 = world s) by (cbn; congruence).
  assert (Ht2 : trace_event s2 = trace_event s).
  { unfold trace_event. cbn. rewrite HcTrace, HcConn. reflexivity. }
  rewrite Hr2, Hv2, Hw2, Ht2, Hc2.
  cbn [outcome final events fst snd app].
  destruct (is_open _); cbn; rewrite app_nil_r; reflexivity.
Qed.

Lemma SetupState_restores (s : state S) (c : PGconn) :
  m_Conn s = Some c ->
  Status s = CONNECTION_OK ->
  90000 < PQserverVersion (world s) (m_Conn s) ->
  protocol_version s <> 0 -> protocol_version s <> 1 -> protocol_version s <> 2 ->
  m_receivers s <> [] \/ m_Vars s <> [] ->
  let query := restore_query (m_receivers s) (m_Vars s) in
  let w1 := snd (PQsendQuery (world s) (m_Conn s) query) in
  events (SetupState s) =
    [Ev_PQsetNoticeProcessor (m_Conn s); trace_event s;
     Ev_PQsendQuery (m_Conn s) query] ++
    drain_events (m_Conn s) (pending_results w1) /\
  count is_sendQuery (events (SetupState s)) = 1%nat /\
  pending_results (world (final (SetupState s))) = [] /\
  m_Completed (final (SetupState s)) = true.
Proof.
  intros Hc Hst Hv Hp0 Hp1 Hp2 Hshadow. cbv zeta.
  rewrite (SetupState_run s c Hc Hst Hv Hp0 Hp1 Hp2 Hshadow).
  cbn [events final fst snd]. repeat split.
  unfold count, drain_events, trace_event. cbn [app List.filter is_sendQuery].
  destruct (m_Trace s); cbn [is_sendQuery List.length]; f_equal;
    rewrite List.filter_app; cbn [List.filter is_sendQuery app];
    rewrite length_app; cbn [List.length];
    induction (pending_results _) as [|r q IH]; cbn in *; lia.
Qed.

End Setup.

(** ** What leaves the shadow state alone *)

Section Preservation.
Context {St X : Type} (f : St -> X).

Lemma preserves_ret {A : Type} (a : A) : preserves f (ret a).
Proof. intros s. reflexivity. Qed.

Lemma preserves_throw {A : Type} (e : exn) : preserves (A := A) f (throw e).
Proof. intros s. reflexivity. Qed.

Lemma preserves_gets {A : Type} (g : St -> A) : preserves f (gets g).
Proof. intros s. reflexivity. Qed.

Lemma preserves_emit (e : Event) : preserves f (emit e).
Proof. intros s. reflexivity. Qed.

Lemma preserves_modify (g : St -> St) :
  (forall s, f (g s) = f s) -> preserves f (modify g).
Proof. intros Hg s. apply Hg. Qed.

Lemma preserves_bind {A B : Type} (m : M St A) (k : A -> M St B) :
  preserves f m -> (forall a, preserves f (k a)) -> preserves f (bind m k).
Proof.
  intros Hm Hk s. unfold bind. specialize (Hm s).
  destruct (m s) as [[[a|e] s1] t1]; cbn [final fst snd] in *; [|exact Hm].
  specialize (Hk a s1). destruct (k a s1) as [[r s2] t2].
  cbn [final fst snd] in *. congruence.
Qed.

Lemma preserves_try_catch {A : Type} (m : M St A) (h : exn -> M St A) :
  preserves f m -> (forall e, preserves f (h e)) -> preserves f (try_catch m h).
Proof.
  intros Hm Hh s. unfold try_catch. specialize (Hm s).
  destruct (m s) as [[[a|e] s1] t1]; cbn [final fst snd] in *; [exact Hm|].
  specialize (Hh e s1). destruct (h e s1) as [[r s2] t2].
  cbn [final fst snd] in *. congruence.
Qed.

Lemma preserves_when (b : bool) (m : M St unit) :
  preserves f m -> preserves f (when b m).
Proof. intros Hm. destruct b; [exact Hm | apply preserves_ret]. Qed.

End Preservation.

Ltac frame_step :=
  first
    [ assumption
    | apply preserves_ret | apply preserves_throw | apply preserves_gets
    | apply preserves_emit
    | apply preserves_bind; [|intros ?]
    | apply preserves_try_catch; [|intros ?]
    | apply preserves_when
    | match goal with
      | |- preserves _ (if ?b then _ else _) => destruct b
      | |- preserves _ (match ?x with _ => _ end) => destruct x
      end ].

Section ShadowFrame.
Context {S X : Type} `{Policy : connectionpolicy S} `{Pq : libpq S}.
Context (f : state S -> X).
Hypothesis f_Conn : forall v s, f (set_m_Conn v s) = f s.
Hypothesis f_world : forall v s, f (set_world v s) = f s.
Hypothesis f_Completed : forall v s, f (set_m_Completed v s) = f s.
Hypothesis f_caps : forall v s, f (set_m_caps v s) = f s.
Hypothesis f_serverversion : forall v s, f (set_m_serverversion v s) = f s.
Hypothesis f_prepared : forall v s, f (set_m_prepared v s) = f s.

Local Ltac frame_call :=
  let s := fresh "s" in
  intros s;
  first
    [ progress unfold call_do_startconnect;
      destruct (do_startconnect (world s) (m_Conn s)) as [[?|?] ?]
    | progress unfold call_do_completeconnect;
      destruct (do_completeconnect (world s) (m_Conn s)) as [[?|?] ?]
    | progress unfold call_do_dropconnect;
      destruct (do_dropconnect (world s) (m_Conn s)) as [? ?]
    | progress unfold call_do_disconnect;
      destruct (do_disconnect (world s) (m_Conn s)) as [? ?]
    | progress unfold call_PQsendQuery;
      match goal with |- context [PQsendQuery ?w ?h ?q] =>
        destruct (PQsendQuery w h q) as [? ?] end
    | progress unfold call_PQexec;
      match goal with |- context [PQexec ?w ?h ?q] =>
        destruct (PQexec w h q) as [? ?] end
    | progress unfold call_PQconsumeInput;
      destruct (PQconsumeInput (world s) (m_Conn s)) as [? ?]
    | progress unfold call_PQgetResult; destruct (pending_results (world s))
    | progress unfold call_PQnotifies; destruct (pending_notifs (world s))
    | progress unfold call_PQreset
    | progress unfold call_receiver
    | progress unfold process_notice, process_notice_raw;
      match goal with |- context [ends_with_newline ?m] =>
        destruct (ends_with_newline m) end;
      match goal with |- context [empty ?m] => destruct (empty m) end ];
  cbn [final fst snd]; rewrite ?f_Conn, ?f_world; reflexivity.

Local Ltac frame_modify :=
  apply preserves_modify; intros ?;
  first [ apply f_Completed | apply f_caps | apply f_serverversion
        | apply f_prepared ].

Local Ltac frame := repeat first [ frame_step | frame_modify | frame_call ].

Lemma frame_disconnect : preserves f disconnect.
Proof. unfold disconnect, clearcaps. frame. Qed.

Lemma frame_read_capabilities : preserves f read_capabilities.
Proof. unfold read_capabilities. frame. Qed.

Lemma frame_InternalSetTrace : preserves f InternalSetTrace.
Proof. unfold InternalSetTrace. frame. Qed.

Lemma frame_drain_results (fuel : nat) : preserves f (drain_results fuel).
Proof. induction fuel as [|fuel IH]; cbn [drain_results]; frame. Qed.

Lemma frame_SetupState : preserves f SetupState.
Proof.
  pose proof frame_read_capabilities. pose proof frame_InternalSetTrace.
  unfold SetupState. frame; apply frame_drain_results.
Qed.

Lemma frame_activate : preserves f activate.
Proof.
  pose proof frame_SetupState. pose proof frame_disconnect.
  unfold activate. frame.
Qed.

Lemma frame_Reset : preserves f Reset.
Proof.
  pose proof frame_SetupState. pose proof frame_activate.
  unfold Reset. frame.
Qed.

Lemma frame_check_result (R : result) : preserves f (check_result R).
Proof. unfold check_result. frame. Qed.

Lemma frame_deliver (Hit : list (string * notification_receiver)) (N : PGnotify) :
  preserves f (deliver Hit N).
Proof. induction Hit as [|i rest IH]; cbn [deliver]; frame. Qed.

Lemma frame_get_notifs_loop (fuel : nat) :
  forall notifs, preserves f (get_notifs_loop fuel notifs).
Proof.
  induction fuel as [|fuel IH]; intros notifs; cbn [get_notifs_loop];
    pose proof frame_deliver; frame; try apply IH; try apply frame_deliver.
Qed.

Lemma frame_get_notifs : preserves f get_notifs.
Proof.
  unfold get_notifs, consume_input. frame. apply frame_get_notifs_loop.
Qed.

Lemma frame_Exec_retry (Query : string) (n : nat) :
  forall R, preserves f (Exec_retry Query n R).
Proof.
  pose proof frame_Reset.
  induction n as [|n IH]; intros R; cbn [Exec_retry]; frame; apply IH.
Qed.

Lemma frame_Exec (Query : string) (Retries : Z) : preserves f (Exec Query Retries).
Proof.
  pose proof frame_activate. pose proof frame_get_notifs.
  unfold Exec, Exec_first. frame;
    first [ apply frame_Exec_retry | apply frame_check_result ].
Qed.

End ShadowFrame.

Section ShadowState.
Context {S : Type} `{Policy : connectionpolicy S} `{Pq : libpq S}.

(** [set_variable] outside a transaction records the variable whenever it
    returns, and keeps the map a map. *)
Lemma set_variable_records (Var Value : string) (s : state S) :
  m_Trans s = None ->
  m_Vars (final (set_variable Var Value s)) = m_Vars s \/
  (outcome (set_variable Var Value s) = Ok tt /\
   m_Vars (final (set_variable Var Value s)) = map_assign Var Value (m_Vars s)).
Proof.
  intros Ht. unfold set_variable. run. rewrite Ht. run.
  assert (Hraw : preserves (m_Vars (S := S)) (when (is_open s) (RawSetVar Var Value))).
  { apply preserves_when. unfold RawSetVar.
    apply preserves_bind; [|intros ?; apply preserves_ret].
    apply frame_Exec; reflexivity. }
  specialize (Hraw s). unfold bind.
  destruct (when (is_open s) (RawSetVar Var Value) s) as [[[[]|e] s1] t1];
    cbn [final fst snd outcome modify] in *.
  - right. split; [reflexivity|]. cbn. rewrite Hraw. reflexivity.
  - left. exact Hraw.
Qed.

Lemma set_variable_sorted (Var Value : string) (s : state S) :
  m_Trans s = None ->
  map_sorted (m_Vars s) ->
  map_sorted (m_Vars (final (set_variable Var Value s))).
Proof.
  intros Ht Hs.
  destruct (set_variable_records Var Value s Ht) as [-> | [_ ->]];
    [exact Hs | apply map_assign_sorted; exact Hs].
Qed.

(** [add_receiver] records the receiver whenever it returns, and keeps the
    multimap a multimap. *)
Lemma add_receiver_records (r : notification_receiver) (s : state S) :
  m_receivers (final (add_receiver (Some r) s)) = m_receivers s \/
  (outcome (add_receiver (Some r) s) = Ok tt /\
   m_receivers (final (add_receiver (Some r) s)) =
     multimap_insert (channel r) r (m_receivers s)).
Proof.
  unfold add_receiver. run.
  destruct (contains_key (channel r) (m_receivers s)); cbn [negb].
  - right. split; reflexivity.
  - run.
    set (LQ := "LISTEN " +:+ dquote +:+ channel r +:+ dquote).
    assert (Hlisten : preserves (m_receivers (S := S))
      (when (is_open s)
         (try_catch
            (res <- call_PQexec LQ ;; check_result (make_result res LQ))
            (fun e => if is_broken_connection e then ret tt else throw e)))).
    { apply preserves_when. apply preserves_try_catch.
      - apply preserves_bind.
        + intros s0. unfold call_PQexec.
          destruct (PQexec (world s0) (m_Conn s0) LQ). reflexivity.
        + intros res. apply frame_check_result.
      - intros e. destruct (is_broken_connection e);
          [apply preserves_ret | apply preserves_throw]. }
    specialize (Hlisten s). unfold bind.
    destruct (when (is_open s) _ s) as [[[[]|e] s1] t1];
      cbn [final fst snd outcome modify] in *.
    + right. split; [reflexivity|]. cbn. rewrite Hlisten. reflexivity.
    + left. exact Hlisten.
Qed.

Lemma add_receiver_sorted (r : notification_receiver) (s : state S) :
  multimap_sorted (m_receivers s) ->
  multimap_sorted (m_receivers (final (add_receiver (Some r) s))).
Proof.
  intros Hs.
  destruct (add_receiver_records r s) as [-> | [_ ->]];
    [exact Hs | apply multimap_insert_sorted; exact Hs].
Qed.

End ShadowState.

Section SetupBatch.
Context {S : Type} `{Policy : connectionpolicy S} `{Pq : libpq S}.

Lemma restore_listens_only (rs : list (string * notification_receiver))
    (var value : string) :
  forall Last, ~ In (SET var value) (restore_listens rs Last).
Proof.
  induction rs as [|i rest IH]; intros Last Hin; [destruct Hin|].
  cbn [restore_listens] in Hin.
  destruct (negb (String.eqb (fst i) Last)); [|exact (IH _ Hin)].
  destruct Hin as [Hin | Hin]; [discriminate | exact (IH _ Hin)].
Qed.

(** What [SetupState] restores on a healthy link when no receiver sits on
    the channel named by the empty string: one request, made of one LISTEN
    for each channel with a receiver and one SET for each variable, and
    every reply fetched before it returns. *)
Lemma SetupState_one_batch (s : state S) (c : PGconn) :
  m_Conn s = Some c ->
  Status s = CONNECTION_OK ->
  90000 < PQserverVersion (world s) (m_Conn s) ->
  protocol_version s <> 0 -> protocol_version s <> 1 -> protocol_version s <> 2 ->
  m_receivers s <> [] \/ m_Vars s <> [] ->
  multimap_sorted (m_receivers s) ->
  map_sorted (m_Vars s) ->
  let cmds := restore_cmds (m_receivers s) (m_Vars s) in
  count is_sendQuery (events (SetupState s)) = 1%nat /\
  In (Ev_PQsendQuery (m_Conn s) (render_all cmds)) (events (SetupState s)) /\
  pending_results (world (final (SetupState s))) = [] /\
  (forall ch, In ch (map fst (m_receivers s)) -> ch <> EmptyString ->
     listens_for ch cmds = 1%nat) /\
  (forall ch, ~ In ch (map fst (m_receivers s)) -> listens_for ch cmds = 0%nat) /\
  (forall var, In var (map fst (m_Vars s)) -> sets_for var cmds = 1%nat) /\
  (forall var, ~ In var (map fst (m_Vars s)) -> sets_for var cmds = 0%nat) /\
  (forall var value, In (SET var value) cmds <-> In (var, value) (m_Vars s)).
Proof.
  intros Hc Hst Hv Hp0 Hp1 Hp2 Hshadow Hrs Hvs. cbv zeta.
  destruct (SetupState_restores s c Hc Hst Hv Hp0 Hp1 Hp2 Hshadow)
    as (Hev & Hone & Hdrained & _).
  assert (Hempty : Forall (fun i : string * notification_receiver =>
                             String.leb EmptyString (fst i) = true)
                     (m_receivers s)).
  { apply List.Forall_forall. intros i _. apply leb_empty. }
  split; [exact Hone|]. split.
  { rewrite Hev, <- restore_query_render. right. right. left. reflexivity. }
  split; [exact Hdrained|].
  unfold restore_cmds. split; [|split; [|split; [|split]]].
  - intros ch Hin Hne. rewrite listens_for_app, listens_for_sets.
    destruct (listens_for_grouped _ Hrs EmptyString Hempty ch) as [H1 _].
    rewrite H1 by assumption. reflexivity.
  - intros ch Hnot. rewrite listens_for_app, listens_for_sets.
    destruct (listens_for_grouped _ Hrs EmptyString Hempty ch) as [_ H0].
    rewrite H0 by (left; assumption). reflexivity.
  - intros var Hin. rewrite sets_for_app, sets_for_listens.
    apply sets_for_present; assumption.
  - intros var Hnot. rewrite sets_for_app, sets_for_listens.
    apply sets_for_absent; assumption.
  - intros var value. rewrite in_app_iff, In_restore_sets. split.
    + intros [Hin | Hin]; [|exact Hin]. exfalso.
      exact (restore_listens_only _ _ _ _ Hin).
    + intros Hin. right. exact Hin.
Qed.

(** The batch never has a LISTEN for the channel named by the empty
    string, registered or not: [Last] starts out equal to it. *)
Lemma no_listen_for_empty_channel (rs : list (string * notification_receiver))
    (vs : list (string * string)) :
  multimap_sorted rs ->
  listens_for EmptyString (restore_cmds rs vs) = 0%nat.
Proof.
  intros Hrs. unfold restore_cmds. rewrite listens_for_app, listens_for_sets.
  assert (Hempty : Forall (fun i : string * notification_receiver =>
                             String.leb EmptyString (fst i) = true) rs).
  { apply List.Forall_forall. intros i _. apply leb_empty. }
  destruct (listens_for_grouped rs Hrs EmptyString Hempty EmptyString) as [_ H0].
  rewrite H0 by (right; reflexivity). reflexivity.
Qed.

End SetupBatch.

(** C1, where the code departs from it.  Two receivers are registered on a
    connection that is not open yet, one on channel "jobs" and one on the
    channel named by the empty string; [add_receiver] accepts both.  When
    the link is made, [SetupState] sends a single request and fetches all
    its replies, but the request holds the LISTEN for "jobs" only: the
    channel with the empty name has a receiver and gets no LISTEN. *)
Theorem SetupState_skips_empty_channel :
  map fst (m_receivers two_receivers_linked) = [EmptyString; "jobs"] /\
  is_open two_receivers_linked = false /\
  outcome (SetupState two_receivers_linked) = Ok tt /\
  events (SetupState two_receivers_linked) =
    [Ev_PQsetNoticeProcessor (Some 1%nat); Ev_PQuntrace (Some 1%nat);
     Ev_PQsendQuery (Some 1%nat) (listen_stmt "jobs");
     Ev_PQgetResult (Some 1%nat) (Some Scripted.ok_result);
     Ev_PQgetResult (Some 1%nat) None] /\
  pending_results (world (final (SetupState two_receivers_linked))) = [] /\
  is_open (final (SetupState two_receivers_linked)) = true /\
  restore_cmds (m_receivers two_receivers_linked) (m_Vars two_receivers_linked)
    = [LISTEN "jobs"] /\
  listens_for EmptyString
    (restore_cmds (m_receivers two_receivers_linked)
       (m_Vars two_receivers_linked)) = 0%nat /\
  events (activate two_receivers) =
    [Ev_do_startconnect None; Ev_do_completeconnect (Some 1%nat);
     Ev_PQsetNoticeProcessor (Some 1%nat); Ev_PQuntrace (Some 1%nat);
     Ev_PQsendQuery (Some 1%nat) (listen_stmt "jobs");
     Ev_PQgetResult (Some 1%nat) (Some Scripted.ok_result);
     Ev_PQgetResult (Some 1%nat) None].
Proof.
  repeat split.
Qed.

(** * The properties on concrete connections *)

(** [SetupState_one_batch] at work: three receivers on two channels and two
    variables are restored by one request of two LISTENs and two SETs. *)
Lemma SetupState_one_batch_example :
  let cmds := restore_cmds (m_receivers shadowed_linked) (m_Vars shadowed_linked) in
  List.length (m_receivers shadowed_linked) = 3%nat /\
  count is_sendQuery (events (SetupState shadowed_linked)) = 1%nat /\
  In (Ev_PQsendQuery (Some 1%nat)
        (listen_stmt "alerts" +:+ listen_stmt "jobs" +:+
         set_stmt "TimeZone" "UTC" +:+ set_stmt "search_path" "public"))
     (events (SetupState shadowed_linked)) /\
  listens_for "jobs" cmds = 1%nat /\
  listens_for "alerts" cmds = 1%nat /\
  sets_for "TimeZone" cmds = 1%nat /\
  sets_for "search_path" cmds = 1%nat /\
  pending_results (world (final (SetupState shadowed_linked))) = [].
Proof.
  cbv zeta.
  assert (Hrs : multimap_sorted (m_receivers shadowed_linked)).
  { vm_compute. repeat constructor. }
  assert (Hvs : map_sorted (m_Vars shadowed_linked)).
  { vm_compute. repeat constructor. }
  destruct (SetupState_one_batch shadowed_linked 1%nat)
    as (Hone & Hsent & Hdrained & Hlisten & _ & Hset & _);
    try assumption; try (vm_compute; reflexivity); try (vm_compute; discriminate).
  { left. vm_compute. discriminate. }
  split; [reflexivity|]. split; [exact Hone|]. split; [exact Hsent|].
  split; [apply Hlisten; [vm_compute; tauto | discriminate]|].
  split; [apply Hlisten; [vm_compute; tauto | discriminate]|].
  split; [apply Hset; vm_compute; tauto|].
  split; [apply Hset; vm_compute; tauto|].
  exact Hdrained.
Defined.

Lemma deactivate_without_handle_witness :
  m_Conn unconnected_busy = None /\
  m_Trans unconnected_busy = Some a_transaction /\
  m_reactivation_avoidance unconnected_busy = 3 /\
  deactivate unconnected_busy = (Ok tt, unconnected_busy, []).
Proof.
  split; [reflexivity|]. split; [reflexivity|]. split; [reflexivity|].
  apply (deactivate_without_handle unconnected_busy). reflexivity.
Defined.

(** Against C6 as stated: a transaction is registered, yet [deactivate()]
    returns normally, because there is no handle. *)
Lemma deactivate_open_transaction_returns :
  m_Trans unconnected_busy = Some a_transaction /\
  outcome (deactivate unconnected_busy) = Ok tt.
Proof. split; reflexivity. Qed.

Lemma deactivate_with_handle_witness :
  m_Conn (Scripted.opened 0) = Some 1%nat /\
  deactivate (Scripted.opened 0) =
  (Ok tt,
   set_m_Conn None (set_m_Completed false (Scripted.opened 0)),
   [Ev_do_disconnect (Some 1%nat)]).
Proof.
  split; [reflexivity|].
  destruct (deactivate_with_handle (Scripted.opened 0) 1%nat eq_refl)
    as (_ & _ & Hdown).
  apply Hdown; reflexivity.
Defined.

(** Against C2 as stated: the counter is positive, yet [activate()] and
    [Reset()] throw, because reactivation is inhibited. *)
Lemma activate_Reset_throw_under_debt :
  m_reactivation_avoidance failed_in_debt = 1 /\
  outcome (activate failed_in_debt) =
    Throw (broken_connection
      "Could not reactivate connection; reactivation is inhibited") /\
  outcome (Reset failed_in_debt) =
    Throw (broken_connection
      "Could not reset connection: reactivation is inhibited").
Proof. repeat split. Qed.

Lemma activate_Reset_under_debt_witness :
  m_reactivation_avoidance unconnected_in_debt > 0 /\
  activate unconnected_in_debt = (Ok tt, unconnected_in_debt, []) /\
  Reset unconnected_in_debt = (Ok tt, unconnected_in_debt, []).
Proof.
  assert (Hdebt : m_reactivation_avoidance unconnected_in_debt > 0)
    by reflexivity.
  split; [exact Hdebt|].
  destruct (activate_Reset_under_debt unconnected_in_debt Hdebt) as (Hfree & _).
  apply Hfree. reflexivity.
Defined.


Lemma prepare_redefinition_witness :
  prepare "find" "SELECT 2" declared_and_used =
    (Throw (argument_error
       ("Inconsistent redefinition of prepared statement " +:+ "find")),
     declared_and_used, []) /\
  outcome (prepare EmptyString "SELECT 2"
             (final (prepare EmptyString "SELECT 1" declared_and_used))) = Ok tt /\
  m_prepared (final (prepare EmptyString "SELECT 2"
             (final (prepare EmptyString "SELECT 1" declared_and_used))))
    !! EmptyString = Some {| definition := "SELECT 2"; registered := false |}.
Proof.
  split.
  - destruct (prepare_redefinition declared_and_used "find" "SELECT 2"
               {| definition := count_rows; registered := true |})
      as (Hnamed & _).
    + reflexivity.
    + discriminate.
    + apply Hnamed. discriminate.
  - destruct (prepare_redefinition
               (final (prepare EmptyString "SELECT 1" declared_and_used))
               EmptyString "SELECT 2"
               {| definition := "SELECT 1"; registered := false |})
      as (_ & Hanon).
    + reflexivity.
    + discriminate.
    + destruct (Hanon eq_refl) as (Hrun & Hlook).
      split; [rewrite Hrun; reflexivity | exact Hlook].
Defined.

(** Against C5 as stated: after redeclaring a registered statement with
    the same text its registered flag is still set, and the next use sends
    no registration request. *)
Lemma redeclared_stays_registered :
  m_prepared declared_and_used !! "find" =
    Some {| definition := count_rows; registered := true |} /\
  m_prepared (final (prepare "find" count_rows declared_and_used)) !! "find" =
    Some {| definition := count_rows; registered := true |} /\
  events (register_prepared "find"
            (final (prepare "find" count_rows declared_and_used))) = [].
Proof. repeat split. Qed.

Lemma prepare_same_definition_witness :
  prepare "find" count_rows declared_and_used = (Ok tt, declared_and_used, []) /\
  register_prepared "find"
    (final (prepare "find" count_rows declared_and_used)) =
  (Ok {| definition := count_rows; registered := true |}, declared_and_used, []).
Proof.
  destruct (prepare_same_definition declared_and_used "find"
              {| definition := count_rows; registered := true |} eq_refl)
    as (Hsame & Huse).
  split; [exact Hsame|]. apply Huse; reflexivity.
Defined.





(** * Further properties of the translation unit *)

(** ** The chain of error handlers *)

Section Handlers.
Context {S : Type} `{Policy : connectionpolicy S} `{Pq : libpq S}.

Lemma process_notice_raw_run (msg : string) (s : state S) :
  empty msg = false ->
  process_notice_raw msg s =
  (Ok tt, s, run_errorhandlers (rev (m_errorhandlers s)) msg).
Proof. intros He. unfold process_notice_raw. rewrite He. reflexivity. Qed.

Lemma empty_false (msg : string) : msg <> EmptyString -> empty msg = false.
Proof. destruct msg; [congruence | reflexivity]. Qed.

(** X1.  The handler registered last sees a notice first, and it decides
    whether the older ones see it at all: when it answers [false] the
    notice stops there, when it answers [true] the notice goes on exactly
    as it would have gone without it. *)
Theorem errorhandler_newest_first (h : errorhandler) (msg : string) (s : state S) :
  msg <> EmptyString ->
  process_notice_raw msg (final (register_errorhandler h s)) =
  (Ok tt, final (register_errorhandler h s),
   Ev_errorhandler (eh_id h) msg ::
   (if eh_call h msg then events (process_notice_raw msg s) else [])).
Proof.
  intros Hne. apply empty_false in Hne.
  rewrite !process_notice_raw_run by exact Hne.
  cbn [register_errorhandler modify final fst snd events m_errorhandlers
       set_m_errorhandlers].
  rewrite rev_app_distr. reflexivity.
Qed.

Lemma run_errorhandlers_calls (hs : list errorhandler) (msg : string) (e : Event) :
  In e (run_errorhandlers hs msg) ->
  exists h, In h hs /\ e = Ev_errorhandler (eh_id h) msg.
Proof.
  induction hs as [|h hs IH]; intros Hin; [destruct Hin|].
  cbn [run_errorhandlers] in Hin. destruct Hin as [<- | Hin].
  - exists h. split; [left; reflexivity | reflexivity].
  - destruct (eh_call h msg); [|destruct Hin].
    destruct (IH Hin) as (h' & Hh' & ->). exists h'.
    split; [right; exact Hh' | reflexivity].
Qed.

Lemma count_zero (p : Event -> bool) (t : list Event) :
  (forall e, In e t -> p e = false) -> count p t = 0%nat.
Proof.
  unfold count. induction t as [|x t IH]; intros Hall; [reflexivity|].
  cbn [List.filter]. rewrite (Hall x) by (left; reflexivity).
  apply IH. intros e He. apply Hall. right. exact He.
Qed.

Lemma run_errorhandlers_without (h : errorhandler) (hs : list errorhandler)
    (msg : string) :
  count (is_call_of h)
    (run_errorhandlers
       (rev (List.filter (fun h' => negb (same_errorhandler h' h)) hs)) msg)
  = 0%nat.
Proof.
  apply count_zero. intros e He.
  apply run_errorhandlers_calls in He. destruct He as (h' & Hh' & ->).
  apply in_rev in Hh'. apply filter_In in Hh'. destruct Hh' as [_ Hdiff].
  cbn [is_call_of]. unfold same_errorhandler in Hdiff.
  destruct (Nat.eqb (eh_id h') (eh_id h)); [discriminate | reflexivity].
Qed.

Lemma filter_all (A : Type) (f : A -> bool) (l : list A) :
  (forall x, In x l -> f x = true) -> List.filter f l = l.
Proof.
  induction l as [|x l IH]; intros Hall; [reflexivity|].
  cbn [List.filter]. rewrite (Hall x) by (left; reflexivity).
  f_equal. apply IH. intros y Hy. apply Hall. right. exact Hy.
Qed.

(** X2.  After [unregister_errorhandler] a handler is never called again,
    whatever notice is processed, and the handlers that stay keep their
    order; unregistering a handler right after registering it, when it was
    not registered before, gives back the chain as it was. *)
Theorem unregister_errorhandler_silences (h : errorhandler) (s : state S) :
  (forall msg,
     count (is_call_of h)
       (events (process_notice msg (final (unregister_errorhandler h s))))
     = 0%nat) /\
  m_errorhandlers (final (unregister_errorhandler h s)) =
    List.filter (fun h' => negb (same_errorhandler h' h)) (m_errorhandlers s) /\
  ((forall h', In h' (m_errorhandlers s) -> eh_id h' <> eh_id h) ->
   m_errorhandlers
     (final (unregister_errorhandler h (final (register_errorhandler h s))))
   = m_errorhandlers s).
Proof.
  split; [|split].
  - intros msg. unfold process_notice, process_notice_raw.
    cbn [unregister_errorhandler modify final fst snd m_errorhandlers
         set_m_errorhandlers].
    destruct (ends_with_newline msg);
      match goal with |- context [empty ?m] => destruct (empty m) end;
      try reflexivity; cbn [events snd]; apply run_errorhandlers_without.
  - reflexivity.
  - intros Hfresh.
    cbn [unregister_errorhandler register_errorhandler modify final fst snd
         m_errorhandlers set_m_errorhandlers].
    rewrite List.filter_app. cbn [List.filter].
    unfold same_errorhandler at 2. rewrite Nat.eqb_refl. cbn [negb].
    rewrite app_nil_r. apply filter_all. intros h' Hh'.
    unfold same_errorhandler. apply negb_true_iff. apply Nat.eqb_neq.
    apply Hfresh. exact Hh'.
Qed.

End Handlers.

(** ** Notices end in a newline; the fallback through the fixed buffer *)

Section Buffers.

Lemma append_nil_r (x : string) : x +:+ EmptyString = x.
Proof.
  induction x as [|c x IH]; [reflexivity|].
  change (String c (x +:+ EmptyString) = String c x). rewrite IH. reflexivity.
Qed.

Lemma length_append (x y : string) :
  String.length (x +:+ y) = (String.length x + String.length y)%nat.
Proof.
  induction x as [|c x IH]; [reflexivity|].
  change (Datatypes.S (String.length (x +:+ y)) =
          Datatypes.S (String.length x + String.length y)).
  rewrite IH. reflexivity.
Qed.

Lemma empty_append (x y : string) : empty (x +:+ y) = empty x && empty y.
Proof. destruct x; reflexivity. Qed.

Lemma str_take_drop (n : nat) (s : string) : str_take n s +:+ str_drop n s = s.
Proof.
  revert s. induction n as [|n IH]; intros s; [reflexivity|].
  destruct s as [|c s]; [reflexivity|].
  cbn [str_take str_drop].
  change (String c (str_take n s +:+ str_drop n s) = String c s).
  rewrite IH. reflexivity.
Qed.

Lemma length_str_take (n : nat) (s : string) :
  (n <= String.length s)%nat -> String.length (str_take n s) = n.
Proof.
  revert s. induction n as [|n IH]; intros s Hn; [reflexivity|].
  destruct s as [|c s]; cbn [String.length] in Hn; [lia|].
  cbn [str_take String.length]. rewrite IH by lia. reflexivity.
Qed.

Lemma length_str_drop (n : nat) (s : string) :
  String.length (str_drop n s) = (String.length s - n)%nat.
Proof.
  revert s. induction n as [|n IH]; intros s; cbn [str_drop]; [lia|].
  destruct s as [|c s]; [reflexivity|].
  cbn [String.length]. rewrite IH. lia.
Qed.

Lemma join_app (a b : list string) : join (a ++ b) = join a +:+ join b.
Proof.
  induction a as [|p a IH]; [reflexivity|].
  cbn [app join]. rewrite IH. symmetry. apply append_assoc.
Qed.

Lemma chunk_bytes_value : chunk_bytes = 999%nat.
Proof. reflexivity. Qed.

Lemma separator_length : String.length separator = 6%nat.
Proof. reflexivity. Qed.

Lemma separator_terminated (x : string) :
  ends_with_newline (x +:+ separator) = true.
Proof.
  unfold separator. rewrite <- append_assoc. apply ends_with_newline_append.
Qed.

End Buffers.

Section Fallback.
Context {S : Type} `{Policy : connectionpolicy S} `{Pq : libpq S}.

Lemma notice_chunks_unfold (fuel : nat) (rest : string) :
  notice_chunks (S := S) fuel rest =
  if (chunk_bytes <? String.length rest)%nat then
    process_notice_raw (str_take chunk_bytes rest +:+ separator) ;;;
    match fuel with
    | O => ret (str_drop chunk_bytes rest)
    | Datatypes.S fuel' => notice_chunks fuel' (str_drop chunk_bytes rest)
    end
  else ret rest.
Proof. destruct fuel; reflexivity. Qed.

(** The loop cuts full chunks off the front for as long as more than a
    chunk is left, and the fuel never runs out before that. *)
Lemma notice_chunks_run (fuel : nat) :
  forall (rest : string) (s : state S),
    (String.length rest <= fuel)%nat ->
    exists ps last,
      join (ps ++ [last]) = rest /\
      Forall (fun p => String.length p = chunk_bytes) ps /\
      (String.length last <= chunk_bytes)%nat /\
      (rest <> EmptyString -> last <> EmptyString) /\
      notice_chunks fuel rest s =
      (Ok last, s,
       notices (m_errorhandlers s) (map (fun p => p +:+ separator) ps)).
Proof.
  induction fuel as [|fuel IH]; intros rest s Hfuel;
    rewrite notice_chunks_unfold;
    destruct (Nat.ltb_spec chunk_bytes (String.length rest)) as [Hlong|Hshort].
  - rewrite chunk_bytes_value in Hlong. lia.
  - exists [], rest. cbn [app join map]. rewrite append_nil_r.
    repeat split; [constructor | exact Hshort | tauto].
  - assert (Hpos : (0 < chunk_bytes)%nat) by (rewrite chunk_bytes_value; lia).
    assert (Hdrop : (String.length (str_drop chunk_bytes rest) <= fuel)%nat)
      by (rewrite length_str_drop; lia).
    destruct (IH (str_drop chunk_bytes rest) s Hdrop)
      as (ps & last & Hjoin & Hfull & Hlast & Hne & Hrun).
    exists (str_take chunk_bytes rest :: ps), last.
    split; [|split; [|split; [|split]]].
    + cbn [app join]. rewrite Hjoin. apply str_take_drop.
    + constructor; [apply length_str_take; lia | exact Hfull].
    + exact Hlast.
    + intros _. apply Hne. intros Hnil.
      rewrite length_str_drop in Hdrop.
      assert (Hlen : String.length (str_drop chunk_bytes rest) = 0%nat)
        by (rewrite Hnil; reflexivity).
      rewrite length_str_drop in Hlen. lia.
    + assert (Hraw : process_notice_raw
                (str_take chunk_bytes rest +:+ separator) s =
              (Ok tt, s,
               run_errorhandlers (rev (m_errorhandlers s))
                 (str_take chunk_bytes rest +:+ separator))).
      { apply process_notice_raw_run. rewrite empty_append.
        apply andb_false_r. }
      rewrite (bind_Ok _ _ _ _ _ _ Hraw). rewrite Hrun. reflexivity.
  - exists [], rest. cbn [app join map]. rewrite append_nil_r.
    repeat split; [constructor | exact Hshort | tauto].
Qed.

Lemma forallb_notices (p : Event -> bool) (q : string -> bool)
    (hs : list errorhandler) (msgs : list string) :
  (forall id msg, q msg = true -> p (Ev_errorhandler id msg) = true) ->
  (forall msg, In msg msgs -> q msg = true) ->
  forallb p (notices hs msgs) = true.
Proof.
  intros Hp Hq. apply forallb_forall. intros e He.
  unfold notices in He. apply in_flat_map in He.
  destruct He as (msg & Hmsg & He).
  apply run_errorhandlers_calls in He. destruct He as (h & _ & ->).
  apply Hp. apply Hq. exact Hmsg.
Qed.

(** X4.  The fallback of [process_notice(const char[])] cuts a message
    into chunks of 999 bytes and a last chunk of 1 to 999 bytes that,
    put end to end, are the message: no byte is lost or repeated.  Each
    full chunk goes to the error handlers with "[...]" and a newline behind
    it, the last chunk with a newline behind it unless it ends in one; so
    every text the handlers get ends in a newline and fits the buffer of
    1007 bytes with its terminating NUL.  The fallback never throws and
    leaves the object as it was. *)
Theorem process_notice_buffered_chunks (msg : string) (s : state S) :
  msg <> EmptyString ->
  exists ps last,
    join (ps ++ [last]) = msg /\
    Forall (fun p => String.length p = 999%nat) ps /\
    (1 <= String.length last <= 999)%nat /\
    process_notice_buffered msg s =
    (Ok tt, s,
     notices (m_errorhandlers s)
       (map (fun p => p +:+ separator) ps ++
        [last +:+ (if ends_with_newline last then EmptyString else newline)])) /\
    forallb newline_terminated (events (process_notice_buffered msg s)) = true /\
    forallb fits_buffer (events (process_notice_buffered msg s)) = true.
Proof.
  intros Hne.
  destruct (notice_chunks_run (String.length msg) msg s (le_n _))
    as (ps & last & Hjoin & Hfull & Hlast & Hnonempty & Hrun).
  specialize (Hnonempty Hne).
  rewrite chunk_bytes_value in Hfull, Hlast.
  assert (Hlast1 : (1 <= String.length last)%nat).
  { destruct last; [congruence | cbn; lia]. }
  set (tail := last +:+ (if ends_with_newline last then EmptyString else newline)).
  assert (Hrun2 : process_notice_buffered msg s =
    (Ok tt, s,
     notices (m_errorhandlers s)
       (map (fun p => p +:+ separator) ps ++ [tail]))).
  { unfold process_notice_buffered. rewrite (bind_Ok _ _ _ _ _ _ Hrun).
    fold tail. rewrite process_notice_raw_run.
    - cbn [outcome final events fst snd]. unfold notices.
      rewrite flat_map_app. cbn [flat_map]. rewrite app_nil_r. reflexivity.
    - unfold tail. rewrite empty_append. destruct last; [congruence|reflexivity]. }
  exists ps, last.
  split; [exact Hjoin|]. split; [exact Hfull|]. split; [lia|].
  split; [exact Hrun2|]. rewrite Hrun2. cbn [events snd]. split.
  - apply (forallb_notices _ ends_with_newline); [intros id m Hm; exact Hm|].
    intros m Hm. apply in_app_or in Hm. destruct Hm as [Hm | [<- | []]].
    + apply in_map_iff in Hm. destruct Hm as (p & <- & _).
      apply separator_terminated.
    + unfold tail. destruct (ends_with_newline last) eqn:Hnl.
      * rewrite append_nil_r. exact Hnl.
      * apply ends_with_newline_append.
  - apply (forallb_notices _ (fun m => (String.length m <? buf_size)%nat));
      [intros id m Hm; exact Hm|].
    intros m Hm. apply Nat.ltb_lt. unfold buf_size.
    apply in_app_or in Hm. destruct Hm as [Hm | [<- | []]].
    + apply in_map_iff in Hm. destruct Hm as (p & <- & Hp).
      rewrite List.Forall_forall in Hfull. specialize (Hfull p Hp).
      rewrite length_append, separator_length, Hfull. lia.
    + unfold tail. rewrite length_append.
      destruct (ends_with_newline last); unfold newline;
        cbn [String.length]; lia.
Qed.


End Fallback.

(** ** Receivers come and go *)

Section Receivers.
Context {S : Type} `{Policy : connectionpolicy S} `{Pq : libpq S}.

Lemma process_notice_raw_pure (msg : string) (s : state S) :
  process_notice_raw msg s =
  (Ok tt, s, events (process_notice_raw msg s)).
Proof. unfold process_notice_raw. destruct (empty msg); reflexivity. Qed.

Lemma process_notice_pure (msg : string) (s : state S) :
  process_notice msg s = (Ok tt, s, events (process_notice msg s)).
Proof.
  unfold process_notice. destruct (ends_with_newline msg);
    apply process_notice_raw_pure.
Qed.

Lemma process_notice_cstr_pure (msg : string) (s : state S) :
  process_notice_cstr msg s = (Ok tt, s, events (process_notice_cstr msg s)).
Proof.
  unfold process_notice_cstr. destruct (empty msg); [reflexivity|].
  destruct (ends_with_newline msg);
    [apply process_notice_raw_pure | apply process_notice_pure].
Qed.

Lemma erase_insert (r : notification_receiver)
    (m : list (string * notification_receiver)) :
  erase_receiver (channel r) r (multimap_insert (channel r) r m) = m.
Proof.
  induction m as [|[k' v'] rest IH]; cbn [multimap_insert erase_receiver fst snd].
  - rewrite String.eqb_refl. unfold same_receiver. rewrite Nat.eqb_refl.
    reflexivity.
  - destruct (String.ltb k' (channel r)) eqn:Hlt.
    + cbn [erase_receiver fst snd].
      assert (Hne : String.eqb k' (channel r) = false).
      { apply String.eqb_neq. intros ->. rewrite ltb_irrefl in Hlt.
        discriminate. }
      rewrite Hne. cbn [andb]. rewrite IH. reflexivity.
    + cbn [erase_receiver fst snd]. rewrite String.eqb_refl.
      unfold same_receiver. rewrite Nat.eqb_refl. reflexivity.
Qed.

Lemma has_receiver_insert (r : notification_receiver)
    (m : list (string * notification_receiver)) :
  has_receiver (channel r) r (multimap_insert (channel r) r m) = true.
Proof.
  unfold has_receiver, equal_range. apply existsb_exists.
  exists (channel r, r). split.
  - apply filter_In. split; [|cbn; apply String.eqb_refl].
    induction m as [|[k' v'] rest IH]; cbn [multimap_insert].
    + left. reflexivity.
    + destruct (String.ltb k' (channel r)); [right; exact IH | left; reflexivity].
  - unfold same_receiver. apply Nat.eqb_refl.
Qed.

Lemma Forall_erase (P : string * notification_receiver -> Prop) (ch : string)
    (T : notification_receiver) (m : list (string * notification_receiver)) :
  Forall P m -> Forall P (erase_receiver ch T m).
Proof.
  intros Hm. induction Hm as [|i rest Hi Hrest IH]; cbn [erase_receiver].
  - constructor.
  - destruct (String.eqb (fst i) ch && same_receiver (snd i) T);
      [exact Hrest | constructor; assumption].
Qed.

Lemma erase_receiver_sorted (ch : string) (T : notification_receiver)
    (m : list (string * notification_receiver)) :
  multimap_sorted m -> multimap_sorted (erase_receiver ch T m).
Proof.
  unfold multimap_sorted. intros Hm.
  induction Hm as [|i rest Hrest IH Hall]; cbn [erase_receiver].
  - constructor.
  - destruct (String.eqb (fst i) ch && same_receiver (snd i) T);
      [exact Hrest|].
    constructor; [exact IH | apply Forall_erase; exact Hall].
Qed.

Lemma ends_with_quote (x : string) : ends_with_newline (x +:+ "'") = false.
Proof.
  induction x as [|c x IH]; [reflexivity|].
  change (String c x +:+ "'") with (String c (x +:+ "'")).
  destruct (x +:+ "'") eqn:Hx; [destruct x; discriminate|].
  exact IH.
Qed.

(** With nothing to retry, [Exec] on an open connection submits the
    statement once, to the handle it has, and resets nothing. *)
Lemma Exec_once_when_open (Query : string) (s : state S) :
  is_open s = true ->
  count is_exec (events (Exec Query 0 s)) = 1%nat /\
  In (Ev_PQexec (m_Conn s) Query) (events (Exec Query 0 s)) /\
  count is_reset (events (Exec Query 0 s)) = 0%nat.
Proof.
  intros Ho.
  assert (Hfirst : Exec_first Query s =
    (Ok (make_result (fst (PQexec (world s) (m_Conn s) Query)) Query),
     set_world (snd (PQexec (world s) (m_Conn s) Query)) s,
     [Ev_PQexec (m_Conn s) Query])).
  { unfold Exec_first. rewrite (bind_Ok _ _ _ _ _ _ (activate_when_open s Ho)).
    unfold bind, call_PQexec, ret.
    destruct (PQexec (world s) (m_Conn s) Query). reflexivity. }
  unfold Exec. rewrite (bind_Ok _ _ _ _ _ _ Hfirst).
  change (Z.to_nat 0) with O. cbn [Exec_retry]. rewrite bind_ret.
  cbn [events snd app].
  set (R := make_result _ _). set (s1 := set_world _ _).
  pose proof (Exec_tail_quiet is_exec R exec_only s1) as He.
  pose proof (Exec_tail_quiet is_reset R reset_only s1) as Hr.
  unfold count in *. cbn [List.filter is_exec is_reset List.length].
  split; [lia | split; [left; reflexivity | lia]].
Qed.

(** What [remove_receiver] does with a receiver it knows. *)
Lemma remove_receiver_known (r : notification_receiver) (s : state S) :
  has_receiver (channel r) r (m_receivers s) = true ->
  let s' := set_m_receivers
              (erase_receiver (channel r) r (m_receivers s)) s in
  let gone :=
    match m_Conn s with
    | Some _ =>
        (List.length (equal_range (channel r) (m_receivers s)) =? 1)%nat
    | None => false
    end in
  remove_receiver (Some r) s =
  if gone then
    let x := Exec (unlisten_query r) 0 s' in
    (Ok tt, final x,
     events x ++
     match outcome x with
     | Ok _ => []
     | Throw e => events (process_notice_cstr (what e) (final x))
     end)
  else (Ok tt, s', []).
Proof.
  intros Hknown. cbv zeta. unfold remove_receiver, try_catch.
  rewrite bind_gets, Hknown. cbn [negb]. rewrite !bind_gets, bind_modify.
  destruct (match m_Conn s with
            | Some _ =>
                (List.length (equal_range (channel r) (m_receivers s)) =? 1)%nat
            | None => false
            end); [|reflexivity].
  unfold unlisten_query. unfold bind at 1.
  destruct (Exec _ 0 _) as [[[R|e] s1] t1]; cbn [outcome final events fst snd].
  - unfold ret. cbn. rewrite !app_nil_r. reflexivity.
  - cbn. rewrite process_notice_cstr_pure. reflexivity.
Qed.

(** X5.  [remove_receiver] never throws, whatever it is given, even when
    the UNLISTEN it sends fails; for a null pointer it does nothing, and
    for a receiver that is not registered it only sends a notice and
    leaves the object as it was. *)
Theorem remove_receiver_never_throws (T : option notification_receiver)
    (s : state S) :
  outcome (remove_receiver T s) = Ok tt /\
  remove_receiver None s = (Ok tt, s, []) /\
  (forall r, T = Some r ->
     has_receiver (channel r) r (m_receivers s) = false ->
     remove_receiver T s =
     (Ok tt, s,
      run_errorhandlers (rev (m_errorhandlers s)) (unknown_receiver_notice r))).
Proof.
  split; [|split].
  - destruct T as [r|]; [|reflexivity].
    destruct (has_receiver (channel r) r (m_receivers s)) eqn:Hknown.
    + rewrite (remove_receiver_known r s Hknown).
      destruct (match m_Conn s with Some _ => _ | None => false end);
        reflexivity.
    + unfold remove_receiver, try_catch. rewrite bind_gets, Hknown.
      cbn [negb]. rewrite process_notice_pure. reflexivity.
  - reflexivity.
  - intros r -> Hunknown. unfold remove_receiver, try_catch.
    rewrite bind_gets, Hunknown. cbn [negb].
    unfold process_notice. rewrite <- append_assoc, ends_with_quote.
    rewrite !append_assoc.
    rewrite process_notice_raw_run; [reflexivity|].
    rewrite <- !append_assoc. apply empty_append_newline.
Qed.


Lemma Exec_keeps_receivers (Query : string) (Retries : Z) (s : state S) :
  m_receivers (final (Exec Query Retries s)) = m_receivers s.
Proof. apply (frame_Exec (m_receivers (S := S))); reflexivity. Qed.

Lemma remove_receiver_final (r : notification_receiver) (s : state S) :
  has_receiver (channel r) r (m_receivers s) = true ->
  m_receivers (final (remove_receiver (Some r) s)) =
  erase_receiver (channel r) r (m_receivers s).
Proof.
  intros Hknown. rewrite (remove_receiver_known r s Hknown).
  destruct (match m_Conn s with Some _ => _ | None => false end);
    [|reflexivity].
  cbv zeta. cbn [final fst snd]. rewrite Exec_keeps_receivers. reflexivity.
Qed.


(** X7.  Registering a receiver and removing it again leaves the list of
    receivers exactly as it was, whatever else is registered and whether
    or not the server could be told. *)
Theorem add_then_remove_receiver (r : notification_receiver) (s : state S) :
  outcome (add_receiver (Some r) s) = Ok tt ->
  m_receivers
    (final (remove_receiver (Some r) (final (add_receiver (Some r) s)))) =
  m_receivers s.
Proof.
  intros Hok.
  assert (Hadd : m_receivers (final (add_receiver (Some r) s)) =
                 multimap_insert (channel r) r (m_receivers s)).
  { revert Hok. unfold add_receiver. run.
    destruct (contains_key (channel r) (m_receivers s)); cbn [negb];
      [reflexivity|].
    run. unfold bind.
    set (LQ := "LISTEN " +:+ dquote +:+ channel r +:+ dquote).
    assert (Hlisten : preserves (m_receivers (S := S))
      (when (is_open s)
         (try_catch
            (res <- call_PQexec LQ ;; check_result (make_result res LQ))
            (fun e => if is_broken_connection e then ret tt else throw e)))).
    { apply preserves_when. apply preserves_try_catch.
      - apply preserves_bind.
        + intros s0. unfold call_PQexec.
          destruct (PQexec (world s0) (m_Conn s0) LQ). reflexivity.
        + intros res. apply frame_check_result.
      - intros e. destruct (is_broken_connection e);
          [apply preserves_ret | apply preserves_throw]. }
    specialize (Hlisten s).
    destruct (when (is_open s) _ s) as [[[[]|e] s1] t1];
      cbn [final fst snd outcome modify] in *; [|discriminate].
    intros _. cbn. rewrite Hlisten. reflexivity. }
  rewrite remove_receiver_final; rewrite Hadd.
  - apply erase_insert.
  - apply has_receiver_insert.
Qed.


(** X9.  The receivers stay ordered by channel, equal channels adjacent,
    through every registration and removal, successful or not: the
    invariant [SetupState] and [get_notifs] rely on when they walk the
    list. *)
Theorem receivers_stay_sorted (r : notification_receiver) (s : state S) :
  multimap_sorted (m_receivers s) ->
  multimap_sorted (m_receivers (final (add_receiver (Some r) s))) /\
  multimap_sorted (m_receivers (final (remove_receiver (Some r) s))).
Proof.
  intros Hs. split; [apply add_receiver_sorted; exact Hs|].
  destruct (has_receiver (channel r) r (m_receivers s)) eqn:Hknown.
  - rewrite remove_receiver_final by exact Hknown.
    apply erase_receiver_sorted. exact Hs.
  - unfold remove_receiver, try_catch. rewrite bind_gets, Hknown. cbn [negb].
    rewrite process_notice_pure. exact Hs.
Qed.

End Receivers.

(** ** The properties above at work *)

(** A handler registered on top of two others is called first. *)
Lemma errorhandler_newest_first_witness :
  process_notice_raw "lost"
    (final (register_errorhandler (logging_handler 9) two_handlers)) =
  (Ok tt, final (register_errorhandler (logging_handler 9) two_handlers),
   [Ev_errorhandler 9 "lost"; Ev_errorhandler 5 "lost";
    Ev_errorhandler 3 "lost"]).
Proof.
  assert (Hmsg : "lost" <> EmptyString) by discriminate.
  pose proof (errorhandler_newest_first (logging_handler 9) "lost"
                two_handlers Hmsg) as H.
  vm_compute in H |- *. exact H.
Defined.

(** Registering handler 9 and unregistering it gives back handlers 3, 5. *)
Lemma unregister_errorhandler_silences_witness :
  m_errorhandlers
    (final (unregister_errorhandler (logging_handler 9)
       (final (register_errorhandler (logging_handler 9) two_handlers)))) =
  m_errorhandlers two_handlers.
Proof.
  destruct (unregister_errorhandler_silences (logging_handler 9) two_handlers)
    as (_ & _ & Hback).
  apply Hback.
  intros h' Hin. vm_compute in Hin.
  destruct Hin as [<- | [<- | []]]; vm_compute; discriminate.
Defined.


Lemma process_notice_buffered_chunks_witness :
  process_notice_buffered "lost" two_handlers =
  (Ok tt, two_handlers,
   [Ev_errorhandler 5 ("lost" +:+ newline);
    Ev_errorhandler 3 ("lost" +:+ newline)]) /\
  forallb fits_buffer (events (process_notice_buffered "lost" two_handlers))
    = true.
Proof.
  assert (Hmsg : "lost" <> EmptyString) by discriminate.
  destruct (process_notice_buffered_chunks "lost" two_handlers Hmsg)
    as (ps & last & _ & _ & _ & _ & _ & Hfits).
  split; [vm_compute; reflexivity | exact Hfits].
Defined.

(** Removing a receiver nobody registered, with no handler to tell. *)
Lemma remove_receiver_never_throws_witness :
  has_receiver "jobs" jobs_receiver (m_receivers (opened 0)) = false /\
  remove_receiver (Some jobs_receiver) (opened 0) = (Ok tt, opened 0, []).
Proof.
  assert (Hunknown : has_receiver (channel jobs_receiver) jobs_receiver
                       (m_receivers (opened 0)) = false)
    by (vm_compute; reflexivity).
  destruct (remove_receiver_never_throws (Some jobs_receiver) (opened 0))
    as (_ & _ & Hnotice).
  pose proof (Hnotice jobs_receiver eq_refl Hunknown) as H.
  split; [exact Hunknown|].
  vm_compute in H |- *. exact H.
Defined.


Lemma add_then_remove_receiver_witness :
  outcome (add_receiver (Some jobs_receiver) two_receivers_linked) = Ok tt /\
  m_receivers
    (final (remove_receiver (Some jobs_receiver)
       (final (add_receiver (Some jobs_receiver) two_receivers_linked)))) =
  m_receivers two_receivers_linked.
Proof.
  assert (Hok : outcome (add_receiver (Some jobs_receiver)
                           two_receivers_linked) = Ok tt)
    by (vm_compute; reflexivity).
  split; [exact Hok|].
  exact (add_then_remove_receiver jobs_receiver two_receivers_linked Hok).
Defined.


Lemma receivers_stay_sorted_witness :
  multimap_sorted (m_receivers two_receivers_linked) /\
  multimap_sorted
    (m_receivers
       (final (remove_receiver (Some jobs_receiver) two_receivers_linked))).
Proof.
  assert (Hs : multimap_sorted (m_receivers two_receivers_linked)).
  { vm_compute. repeat constructor. }
  split; [exact Hs|].
  exact (proj2 (receivers_stay_sorted jobs_receiver two_receivers_linked Hs)).
Defined.

(** ** Session variables *)

Section Variables.
Context {S : Type} `{Policy : connectionpolicy S} `{Pq : libpq S}.

Lemma compare_eq (a b : string) : String.compare a b = Eq -> a = b.
Proof. apply String.compare_eq_iff. Qed.

Lemma map_find_assign {V : Type} (k : string) (v : V) (m : list (string * V)) :
  map_find k (map_assign k v m) = Some v.
Proof.
  induction m as [|[k' v'] rest IH]; cbn [map_assign map_find fst snd].
  - rewrite String.eqb_refl. reflexivity.
  - destruct (String.compare k k') eqn:Hc; cbn [map_find fst snd].
    + rewrite String.eqb_refl. reflexivity.
    + rewrite String.eqb_refl. reflexivity.
    + assert (Hne : String.eqb k' k = false).
      { apply String.eqb_neq. intros ->. rewrite compare_refl in Hc.
        discriminate. }
      rewrite Hne. exact IH.
Qed.

Lemma map_find_assign_other {V : Type} (k k0 : string) (v : V)
    (m : list (string * V)) :
  k0 <> k -> map_find k0 (map_assign k v m) = map_find k0 m.
Proof.
  intros Hne.
  assert (Hk : String.eqb k k0 = false)
    by (apply String.eqb_neq; congruence).
  induction m as [|[k' v'] rest IH]; cbn [map_assign map_find fst snd].
  - rewrite Hk. reflexivity.
  - destruct (String.compare k k') eqn:Hc; cbn [map_find fst snd].
    + apply compare_eq in Hc. subst k'. rewrite Hk. reflexivity.
    + rewrite Hk. reflexivity.
    + rewrite IH. reflexivity.
Qed.

Lemma Exec_keeps_Vars (Query : string) (Retries : Z) (s : state S) :
  m_Vars (final (Exec Query Retries s)) = m_Vars s.
Proof. apply (frame_Exec (m_Vars (S := S))); reflexivity. Qed.

(** [set_variable] outside a transaction, on an open connection. *)
Lemma set_variable_open (Var Value : string) (s : state S) :
  m_Trans s = None ->
  is_open s = true ->
  set_variable Var Value s =
  let x := Exec (set_query Var Value) 0 s in
  match outcome x with
  | Ok _ =>
      (Ok tt, set_m_Vars (map_assign Var Value (m_Vars (final x))) (final x),
       events x)
  | Throw e => (Throw e, final x, events x)
  end.
Proof.
  intros Ht Ho. unfold set_variable. run. rewrite Ht. run. rewrite Ho.
  cbn [when]. unfold RawSetVar. fold (set_query Var Value).
  cbv zeta. unfold bind, ret, modify.
  destruct (Exec (set_query Var Value) 0 s) as [[[R|e] s1] t1];
    cbn [outcome final events fst snd]; [|reflexivity].
  rewrite !app_nil_r. reflexivity.
Qed.

(** X10.  [set_variable] inside a transaction hands the variable to the
    transaction and records nothing in the connection.  Outside a
    transaction on a connection that is not open it only records the
    variable, to be set when the connection is made.  On an open
    connection it submits SET var=value exactly once, and records the
    variable only when the server accepted it: after an error the map of
    session variables is as it was. *)
Theorem set_variable_cases (Var Value : string) (s : state S) :
  (forall t, m_Trans s = Some t ->
     set_variable Var Value s =
     (Ok tt, s, [Ev_transaction_set_variable Var Value])) /\
  (m_Trans s = None -> is_open s = false ->
     set_variable Var Value s =
     (Ok tt, set_m_Vars (map_assign Var Value (m_Vars s)) s, [])) /\
  (m_Trans s = None -> is_open s = true ->
     count is_exec (events (set_variable Var Value s)) = 1%nat /\
     In (Ev_PQexec (m_Conn s) (set_query Var Value))
        (events (set_variable Var Value s)) /\
     (outcome (set_variable Var Value s) = Ok tt ->
      m_Vars (final (set_variable Var Value s)) =
        map_assign Var Value (m_Vars s)) /\
     (forall e, outcome (set_variable Var Value s) = Throw e ->
      m_Vars (final (set_variable Var Value s)) = m_Vars s)).
Proof.
  split; [|split].
  - intros t Ht. unfold set_variable. run. rewrite Ht. reflexivity.
  - intros Ht Ho. unfold set_variable. run. rewrite Ht. run. rewrite Ho.
    reflexivity.
  - intros Ht Ho. rewrite (set_variable_open Var Value s Ht Ho). cbv zeta.
    destruct (Exec_once_when_open (set_query Var Value) s Ho)
      as (Hone & Hin & _).
    pose proof (Exec_keeps_Vars (set_query Var Value) 0 s) as Hkeep.
    destruct (outcome (Exec (set_query Var Value) 0 s)) as [R|e];
      cbn [outcome final events fst snd].
    + split; [exact Hone | split; [exact Hin | split]].
      * intros _. cbn. rewrite Hkeep. reflexivity.
      * discriminate.
    + split; [exact Hone | split; [exact Hin | split]].
      * discriminate.
      * intros e' _. exact Hkeep.
Qed.

(** X11.  A session variable that [set_variable] has set is read back by
    [RawGetVar] from the connection's own map, with the value given and
    without a word to the server; every other variable reads as before. *)
Theorem set_then_get_variable (field : result -> Result string)
    (Var Value : string) (s : state S) :
  m_Trans s = None ->
  outcome (set_variable Var Value s) = Ok tt ->
  RawGetVar field Var (final (set_variable Var Value s)) =
    (Ok Value, final (set_variable Var Value s), []) /\
  (forall Var', Var' <> Var ->
     map_find Var' (m_Vars (final (set_variable Var Value s))) =
     map_find Var' (m_Vars s)).
Proof.
  intros Ht Hok.
  assert (Hrec : m_Vars (final (set_variable Var Value s)) =
                 map_assign Var Value (m_Vars s)).
  { destruct (set_variable_records Var Value s Ht) as [Hsame | [_ Hset]];
      [|exact Hset].
    revert Hok Hsame. unfold set_variable. run. rewrite Ht. run.
    unfold bind.
    assert (Hraw : preserves (m_Vars (S := S))
                     (when (is_open s) (RawSetVar Var Value))).
    { apply preserves_when. unfold RawSetVar.
      apply preserves_bind; [|intros ?; apply preserves_ret].
      apply frame_Exec; reflexivity. }
    specialize (Hraw s).
    destruct (when (is_open s) (RawSetVar Var Value) s) as [[[[]|e] s1] t1];
      cbn [final fst snd outcome modify] in *; [|discriminate].
    intros _ _. cbn. rewrite Hraw. reflexivity. }
  split.
  - unfold RawGetVar. rewrite bind_gets, Hrec, map_find_assign. reflexivity.
  - intros Var' Hne. rewrite Hrec. apply map_find_assign_other. exact Hne.
Qed.

(** X12.  [RawGetVar] never changes the map of session variables: a value
    the server reports is not cached.  A variable found in the map is
    answered from it alone; for one that is not, on an open connection,
    SHOW var is submitted exactly once. *)
Theorem RawGetVar_reads (field : result -> Result string) (Var : string)
    (s : state S) :
  m_Vars (final (RawGetVar field Var s)) = m_Vars s /\
  (forall value, map_find Var (m_Vars s) = Some value ->
     RawGetVar field Var s = (Ok value, s, [])) /\
  (map_find Var (m_Vars s) = None -> is_open s = true ->
     count is_exec (events (RawGetVar field Var s)) = 1%nat /\
     In (Ev_PQexec (m_Conn s) (show_query Var))
        (events (RawGetVar field Var s))).
Proof.
  assert (Hrun : map_find Var (m_Vars s) = None ->
    RawGetVar field Var s =
    let x := Exec (show_query Var) 0 s in
    (match outcome x with
     | Ok R => match field R with Ok v => Ok v | Throw e => Throw e end
     | Throw e => Throw e
     end, final x, events x)).
  { intros Hnone. unfold RawGetVar. rewrite bind_gets, Hnone.
    fold (show_query Var). cbv zeta. unfold bind.
    destruct (Exec (show_query Var) 0 s) as [[[R|e] s1] t1];
      cbn [outcome final events fst snd]; [|reflexivity].
    destruct (field R); cbn; rewrite app_nil_r; reflexivity. }
  split; [|split].
  - destruct (map_find Var (m_Vars s)) as [value|] eqn:Hfind.
    + unfold RawGetVar. rewrite bind_gets, Hfind. reflexivity.
    + rewrite (Hrun eq_refl). cbv zeta. cbn [final fst snd].
      apply Exec_keeps_Vars.
  - intros value Hfind. unfold RawGetVar. rewrite bind_gets, Hfind.
    reflexivity.
  - intros Hnone Ho. rewrite (Hrun Hnone). cbv zeta. cbn [events snd].
    destruct (Exec_once_when_open (show_query Var) s Ho) as (Hone & Hin & _).
    split; assumption.
Qed.

Lemma fold_assign_find (k : string) (Vars : list (string * string)) :
  forall m,
  map_find k (fold_left (fun m i => map_assign (fst i) (snd i) m) Vars m) =
  match last_assigned k Vars with
  | Some v => Some v
  | None => map_find k m
  end.
Proof.
  unfold last_assigned.
  induction Vars as [|[k' v'] rest IH] using rev_ind; intros m.
  - reflexivity.
  - rewrite fold_left_app, rev_app_distr. cbn [fold_left rev app fst snd map_find].
    destruct (String.eqb k' k) eqn:Hk.
    + apply String.eqb_eq in Hk. subst k'. apply map_find_assign.
    + apply String.eqb_neq in Hk.
      rewrite map_find_assign_other by congruence. apply IH.
Qed.

Lemma fold_assign_sorted (Vars : list (string * string)) :
  forall m, map_sorted m ->
  map_sorted (fold_left (fun m i => map_assign (fst i) (snd i) m) Vars m).
Proof.
  induction Vars as [|i rest IH]; intros m Hm; [exact Hm|].
  cbn [fold_left]. apply IH. apply map_assign_sorted. exact Hm.
Qed.

(** X13.  [AddVariables] merges the given variables into the map of
    session variables without contacting the server: a variable that is
    given reads as given afterwards, any other reads as before, and the
    map stays ordered by name. *)
Theorem AddVariables_merges (Vars : list (string * string)) (s : state S) :
  outcome (AddVariables Vars s) = Ok tt /\
  events (AddVariables Vars s) = [] /\
  (forall k,
     map_find k (m_Vars (final (AddVariables Vars s))) =
     match last_assigned k Vars with
     | Some v => Some v
     | None => map_find k (m_Vars s)
     end) /\
  (map_sorted (m_Vars s) ->
   map_sorted (m_Vars (final (AddVariables Vars s)))).
Proof.
  split; [reflexivity | split; [reflexivity | split]].
  - intros k. apply fold_assign_find.
  - intros Hs. apply fold_assign_sorted. exact Hs.
Qed.

End Variables.

Lemma set_variable_cases_witness :
  m_Trans (opened 0) = None /\
  is_open (opened 0) = true /\
  count is_exec (events (set_variable "TimeZone" "UTC" (opened 0))) = 1%nat.
Proof.
  assert (Ht : m_Trans (opened 0) = None) by (vm_compute; reflexivity).
  assert (Ho : is_open (opened 0) = true) by (vm_compute; reflexivity).
  destruct (set_variable_cases "TimeZone" "UTC" (opened 0)) as (_ & _ & Hopen).
  destruct (Hopen Ht Ho) as (Hone & _).
  split; [exact Ht | split; [exact Ho | exact Hone]].
Defined.

Lemma set_then_get_variable_witness :
  outcome (set_variable "TimeZone" "UTC" (opened 0)) = Ok tt /\
  RawGetVar (fun _ => Throw (usage_error "no rows")) "TimeZone"
    (final (set_variable "TimeZone" "UTC" (opened 0))) =
  (Ok "UTC", final (set_variable "TimeZone" "UTC" (opened 0)), []).
Proof.
  assert (Ht : m_Trans (opened 0) = None) by (vm_compute; reflexivity).
  assert (Hok : outcome (set_variable "TimeZone" "UTC" (opened 0)) = Ok tt)
    by (vm_compute; reflexivity).
  split; [exact Hok|].
  exact (proj1 (set_then_get_variable (fun _ => Throw (usage_error "no rows"))
                  "TimeZone" "UTC" (opened 0) Ht Hok)).
Defined.

Lemma RawGetVar_reads_witness :
  map_find "TimeZone" (m_Vars (opened 0)) = None /\
  count is_exec
    (events (RawGetVar (fun _ => Ok "UTC") "TimeZone" (opened 0))) = 1%nat.
Proof.
  assert (Hnone : map_find "TimeZone" (m_Vars (opened 0)) = None)
    by (vm_compute; reflexivity).
  assert (Ho : is_open (opened 0) = true) by (vm_compute; reflexivity).
  destruct (RawGetVar_reads (fun _ => Ok "UTC") "TimeZone" (opened 0))
    as (_ & _ & Hshow).
  destruct (Hshow Hnone Ho) as (Hone & _).
  split; [exact Hnone | exact Hone].
Defined.

Lemma AddVariables_merges_witness :
  map_sorted (m_Vars shadowed) /\
  map_sorted
    (m_Vars (final (AddVariables [("DateStyle", "ISO")] shadowed))).
Proof.
  assert (Hs : map_sorted (m_Vars shadowed)).
  { vm_compute. repeat constructor. }
  destruct (AddVariables_merges [("DateStyle", "ISO")] shadowed)
    as (_ & _ & _ & Hsorted).
  split; [exact Hs | exact (Hsorted Hs)].
Defined.

(** ** The registry of prepared statements across the session *)

Section Registry.
Context {S : Type} `{Policy : connectionpolicy S} `{Pq : libpq S}.

Lemma definitions_unregister (s : state S) :
  definitions (set_m_prepared (unregister_all (m_prepared s)) s) =
  definitions s.
Proof.
  unfold definitions, unregister_all. cbn [m_prepared set_m_prepared].
  apply map_eq. intros i. rewrite !lookup_fmap.
  destruct (m_prepared s !! i); reflexivity.
Qed.

Local Ltac registry_call :=
  let s := fresh "s" in
  intros s;
  first
    [ progress unfold call_do_startconnect;
      destruct (do_startconnect (world s) (m_Conn s)) as [[?|?] ?]
    | progress unfold call_do_completeconnect;
      destruct (do_completeconnect (world s) (m_Conn s)) as [[?|?] ?]
    | progress unfold call_do_dropconnect;
      destruct (do_dropconnect (world s) (m_Conn s)) as [? ?]
    | progress unfold call_do_disconnect;
      destruct (do_disconnect (world s) (m_Conn s)) as [? ?]
    | progress unfold call_PQsendQuery;
      match goal with |- context [PQsendQuery ?w ?h ?q] =>
        destruct (PQsendQuery w h q) as [? ?] end
    | progress unfold call_PQexec;
      match goal with |- context [PQexec ?w ?h ?q] =>
        destruct (PQexec w h q) as [? ?] end
    | progress unfold call_PQreset ];
  reflexivity.

Local Ltac registry :=
  repeat first
    [ apply frame_read_capabilities; intros; reflexivity
    | apply frame_InternalSetTrace
    | apply frame_drain_results; intros; reflexivity
    | apply frame_disconnect; intros; reflexivity
    | apply frame_check_result
    | apply frame_get_notifs; intros; reflexivity
    | frame_step
    | apply preserves_modify; intros ?;
      first [ reflexivity | apply definitions_unregister ]
    | registry_call ].

Lemma definitions_SetupState : preserves (definitions (S := S)) SetupState.
Proof. unfold SetupState. registry. Qed.

Lemma definitions_activate : preserves (definitions (S := S)) activate.
Proof. pose proof definitions_SetupState. unfold activate. registry. Qed.

Lemma definitions_Reset : preserves (definitions (S := S)) Reset.
Proof.
  pose proof definitions_SetupState. pose proof definitions_activate.
  unfold Reset. registry.
Qed.

Lemma definitions_Exec_retry (Query : string) (n : nat) :
  forall R, preserves (definitions (S := S)) (Exec_retry Query n R).
Proof.
  pose proof definitions_Reset.
  induction n as [|n IH]; intros R; cbn [Exec_retry]; registry; apply IH.
Qed.

Lemma definitions_Exec (Query : string) (Retries : Z) :
  preserves (definitions (S := S)) (Exec Query Retries).
Proof.
  pose proof definitions_activate.
  unfold Exec, Exec_first. registry; apply definitions_Exec_retry.
Qed.

Lemma definitions_deactivate : preserves (definitions (S := S)) deactivate.
Proof.
  unfold deactivate. registry.
Qed.

(** X14.  Nothing the connection does on its own account touches what was
    declared: through [activate], [Reset], [deactivate] and any [Exec],
    reconnections and failures included, the registry names the same
    statements with the same texts. *)
Theorem definitions_survive (Query : string) (Retries : Z) (s : state S) :
  definitions (final (activate s)) = definitions s /\
  definitions (final (Reset s)) = definitions s /\
  definitions (final (deactivate s)) = definitions s /\
  definitions (final (Exec Query Retries s)) = definitions s.
Proof.
  split; [apply definitions_activate|].
  split; [apply definitions_Reset|].
  split; [apply definitions_deactivate | apply definitions_Exec].
Qed.

(** X15.  When [SetupState] succeeds, the session is new and the registry
    says so: every statement is kept with its text, and none is marked as
    registered, so each is sent to the new session on its next use. *)
Theorem SetupState_unregisters (s : state S) :
  outcome (SetupState s) = Ok tt ->
  m_prepared (final (SetupState s)) = unregister_all (m_prepared s) /\
  (forall name d,
     m_prepared (final (SetupState s)) !! name = Some d ->
     registered d = false /\
     exists d0, m_prepared s !! name = Some d0 /\ definition d = definition d0).
Proof.
  intros Hok.
  assert (Hm : m_prepared (final (SetupState s)) =
               unregister_all (m_prepared s)).
  { revert Hok. unfold SetupState. rewrite bind_gets.
    destruct (m_Conn s) as [c|]; [|discriminate].
    rewrite bind_gets. destruct (negb (status_ok (Status s))).
    { rewrite bind_gets. unfold bind, call_do_disconnect.
      destruct (do_disconnect (world s) (m_Conn s)). discriminate. }
    pose proof (frame_read_capabilities (m_prepared (S := S))
                  (fun _ _ => eq_refl) (fun _ _ => eq_refl) s) as Hrc.
    destruct (read_capabilities s) as [[[[]|e] s1] t1] eqn:Hrun;
      [rewrite (bind_Ok _ _ _ _ _ _ Hrun)
      |rewrite (bind_Throw _ _ _ _ _ _ Hrun); discriminate].
    cbn [final outcome fst snd] in *. rewrite bind_modify. intros _.
    rewrite <- Hrc.
    set (s2 := set_m_prepared (unregister_all (m_prepared s1)) s1).
    change (unregister_all (m_prepared s1)) with (m_prepared s2).
    clearbody s2.
    match goal with
    | |- m_prepared (final (?m s2)) = m_prepared s2 =>
        revert s2; change (preserves (m_prepared (S := S)) m)
    end.
    repeat first
      [ apply frame_InternalSetTrace
      | apply frame_drain_results; intros; reflexivity
      | frame_step
      | apply preserves_modify; intros ?; reflexivity
      | intros s0; unfold call_PQsendQuery;
        match goal with |- context [PQsendQuery ?w ?h ?q] =>
          destruct (PQsendQuery w h q) as [? ?] end; reflexivity ]. }
  split; [exact Hm|]. intros name d. rewrite Hm. unfold unregister_all.
  rewrite lookup_fmap. destruct (m_prepared s !! name) as [d0|];
    [|discriminate].
  intros [= <-]. split; [reflexivity|]. exists d0. split; reflexivity.
Qed.

Lemma check_result_Ok_open (R : result) (s : state S) :
  outcome (check_result R s) = Ok tt -> is_open s = true.
Proof.
  unfold check_result. rewrite bind_gets.
  destruct (is_open s); [reflexivity | discriminate].
Qed.

Lemma register_prepared_known (name : string) (d : prepared_def)
    (s : state S) :
  is_open s = true ->
  m_prepared s !! name = Some d ->
  registered d = true ->
  register_prepared name s = (Ok d, s, []).
Proof.
  intros Ho Hl Hr. unfold register_prepared.
  rewrite (bind_Ok _ _ _ _ _ _ (activate_when_open s Ho)).
  unfold find_prepared. run. rewrite Hl. run. rewrite Hr. reflexivity.
Qed.

Lemma register_prepared_fresh (name : string) (d : prepared_def)
    (s : state S) :
  is_open s = true ->
  m_prepared s !! name = Some d ->
  registered d = false ->
  let d' := {| definition := definition d; registered := negb (empty name) |} in
  let x := PQprepare (world s) (m_Conn s) name (definition d) in
  let s1 := set_world (snd x) s in
  register_prepared name s =
  match outcome (check_result
                   (make_result (fst x) ("[PREPARE " +:+ name +:+ "]")) s1) with
  | Ok _ =>
      (Ok d', set_m_prepared (<[name := d']> (m_prepared s)) s1,
       [Ev_PQprepare (m_Conn s) name (definition d)])
  | Throw e => (Throw e, s1, [Ev_PQprepare (m_Conn s) name (definition d)])
  end.
Proof.
  intros Ho Hl Hr. cbv zeta. unfold register_prepared.
  rewrite (bind_Ok _ _ _ _ _ _ (activate_when_open s Ho)).
  unfold find_prepared. run. rewrite Hl. run. rewrite Hr. cbn [negb].
  unfold bind, call_PQprepare, modify, ret.
  destruct (PQprepare (world s) (m_Conn s) name (definition d)) as [r w].
  cbn [fst snd]. rewrite check_result_pure.
  destruct (outcome (check_result _ _)) as [[]|e]; reflexivity.
Qed.

(** X16.  The first use of a declared statement in a session sends it to
    the server once.  If that succeeds, a named statement is marked as
    registered and its next use sends nothing more; the anonymous
    statement is never marked, and is sent again on every use. *)
Theorem register_prepared_once (name : string) (d d' : prepared_def)
    (s : state S) :
  is_open s = true ->
  m_prepared s !! name = Some d ->
  registered d = false ->
  outcome (register_prepared name s) = Ok d' ->
  let s' := final (register_prepared name s) in
  events (register_prepared name s) =
    [Ev_PQprepare (m_Conn s) name (definition d)] /\
  definition d' = definition d /\
  m_prepared s' !! name = Some d' /\
  (name <> EmptyString ->
     registered d' = true /\ register_prepared name s' = (Ok d', s', [])) /\
  (name = EmptyString ->
     registered d' = false /\
     events (register_prepared name s') =
       [Ev_PQprepare (m_Conn s') name (definition d)]).
Proof.
  intros Ho Hl Hr. cbv zeta.
  rewrite (register_prepared_fresh name d s Ho Hl Hr). cbv zeta.
  set (x := PQprepare (world s) (m_Conn s) name (definition d)).
  set (s1 := set_world (snd x) s).
  destruct (outcome (check_result _ s1)) as [u|e] eqn:Hcheck;
    [destruct u | discriminate].
  cbn [outcome final events fst snd]. intros [= <-].
  set (d' := {| definition := definition d; registered := negb (empty name) |}).
  set (s2 := set_m_prepared (<[name := d']> (m_prepared s)) s1).
  assert (Ho2 : is_open s2 = true)
    by exact (check_result_Ok_open _ s1 Hcheck).
  assert (Hl2 : m_prepared s2 !! name = Some d') by apply lookup_insert_eq.
  split; [reflexivity | split; [reflexivity | split; [exact Hl2 | split]]].
  - intros Hname.
    assert (Hreg : registered d' = true)
      by (destruct name; [congruence | reflexivity]).
    split; [exact Hreg|].
    apply register_prepared_known; assumption.
  - intros ->.
    assert (Hreg : registered d' = false) by reflexivity.
    split; [exact Hreg|].
    rewrite (register_prepared_fresh EmptyString d' s2 Ho2 Hl2 Hreg).
    cbv zeta.
    match goal with
    | |- events (match ?o with Ok _ => _ | Throw _ => _ end) = _ =>
        destruct o
    end; reflexivity.
Qed.

Lemma unprepare_known (name : string) (d : prepared_def) (s : state S) :
  m_prepared s !! name = Some d ->
  unprepare name s =
  if registered d then
    let x := Exec (deallocate_query name) 0 s in
    match outcome x with
    | Ok _ =>
        (Ok tt, set_m_prepared (delete name (m_prepared (final x))) (final x),
         events x)
    | Throw e => (Throw e, final x, events x)
    end
  else (Ok tt, set_m_prepared (delete name (m_prepared s)) s, []).
Proof.
  intros Hl. unfold unprepare. rewrite bind_gets, Hl.
  destruct (registered d); cbn [when]; [|reflexivity].
  fold (deallocate_query name). cbv zeta. unfold bind, ret, modify.
  destruct (Exec (deallocate_query name) 0 s) as [[[R|e] s1] t1];
    cbn [outcome final events fst snd]; [|reflexivity].
  rewrite !app_nil_r. reflexivity.
Qed.

(** X17.  [unprepare] of a name that is not declared does nothing.  A
    statement the session never saw is dropped without a word to the
    server; one that is registered on an open connection is deallocated
    there with one DEALLOCATE.  Whenever [unprepare] returns the name is
    gone from the registry; when it throws, the statement is still
    declared. *)
Theorem unprepare_forgets (name : string) (s : state S) :
  (m_prepared s !! name = None -> unprepare name s = (Ok tt, s, [])) /\
  (forall d, m_prepared s !! name = Some d -> registered d = false ->
     unprepare name s =
     (Ok tt, set_m_prepared (delete name (m_prepared s)) s, [])) /\
  (forall d, m_prepared s !! name = Some d -> registered d = true ->
     is_open s = true ->
     count is_exec (events (unprepare name s)) = 1%nat /\
     In (Ev_PQexec (m_Conn s) (deallocate_query name))
        (events (unprepare name s))) /\
  (outcome (unprepare name s) = Ok tt ->
     m_prepared (final (unprepare name s)) !! name = None) /\
  (forall e, outcome (unprepare name s) = Throw e ->
     is_Some (m_prepared (final (unprepare name s)) !! name)).
Proof.
  split; [|split; [|split; [|split]]].
  - intros Hl. unfold unprepare. rewrite bind_gets, Hl. reflexivity.
  - intros d Hl Hr. rewrite (unprepare_known name d s Hl), Hr. reflexivity.
  - intros d Hl Hr Ho. rewrite (unprepare_known name d s Hl), Hr. cbv zeta.
    destruct (Exec_once_when_open (deallocate_query name) s Ho)
      as (Hone & Hin & _).
    destruct (outcome (Exec (deallocate_query name) 0 s));
      cbn [events snd]; split; assumption.
  - destruct (m_prepared s !! name) as [d|] eqn:Hl.
    + rewrite (unprepare_known name d s Hl).
      destruct (registered d); cbv zeta.
      * destruct (outcome (Exec (deallocate_query name) 0 s));
          [|discriminate].
        intros _. apply lookup_delete_eq.
      * intros _. apply lookup_delete_eq.
    + unfold unprepare. rewrite bind_gets, Hl. intros _. exact Hl.
  - intros e. destruct (m_prepared s !! name) as [d|] eqn:Hl.
    + rewrite (unprepare_known name d s Hl).
      destruct (registered d); cbv zeta; [|discriminate].
      pose proof (definitions_Exec (deallocate_query name) 0 s) as Hdefs.
      destruct (outcome (Exec (deallocate_query name) 0 s)); [discriminate|].
      intros _. cbn [final fst snd].
      assert (Hsame : definitions (final (Exec (deallocate_query name) 0 s))
                        !! name = definitions s !! name)
        by (rewrite Hdefs; reflexivity).
      unfold definitions in Hsame. rewrite !lookup_fmap, Hl in Hsame.
      destruct (m_prepared (final (Exec (deallocate_query name) 0 s)) !! name);
        [eauto | discriminate].
    + unfold unprepare. rewrite bind_gets, Hl. discriminate.
Qed.

(** X18.  Declaring a statement under a new name and dropping it again
    leaves the connection object exactly as it was, and the server is not
    involved at any point. *)
Theorem prepare_then_unprepare (name def : string) (s : state S) :
  m_prepared s !! name = None ->
  prepare name def s =
    (Ok tt,
     set_m_prepared (<[name := prepared_def_new def]> (m_prepared s)) s, []) /\
  unprepare name (final (prepare name def s)) = (Ok tt, s, []).
Proof.
  intros Hl.
  assert (Hp : prepare name def s =
    (Ok tt,
     set_m_prepared (<[name := prepared_def_new def]> (m_prepared s)) s, [])).
  { unfold prepare. rewrite bind_gets, Hl. reflexivity. }
  split; [exact Hp|]. rewrite Hp. cbn [final fst snd].
  rewrite (unprepare_known name (prepared_def_new def)).
  - cbn [registered prepared_def_new m_prepared set_m_prepared].
    rewrite (delete_insert_id _ _ _ Hl). destruct s. reflexivity.
  - apply lookup_insert_eq.
Qed.

End Registry.

(** A statement used once is unregistered by the next [SetupState]. *)
Lemma SetupState_unregisters_witness :
  outcome (SetupState declared_and_used) = Ok tt /\
  m_prepared (final (SetupState declared_and_used)) =
    unregister_all (m_prepared declared_and_used).
Proof.
  assert (Hok : outcome (SetupState declared_and_used) = Ok tt)
    by (vm_compute; reflexivity).
  split; [exact Hok|].
  exact (proj1 (SetupState_unregisters declared_and_used Hok)).
Defined.

Lemma register_prepared_once_witness :
  outcome (register_prepared "find" declared) =
    Ok {| definition := count_rows; registered := true |} /\
  register_prepared "find" (final (register_prepared "find" declared)) =
    (Ok {| definition := count_rows; registered := true |},
     final (register_prepared "find" declared), []).
Proof.
  assert (Ho : is_open declared = true) by (vm_compute; reflexivity).
  assert (Hl : m_prepared declared !! "find" =
               Some {| definition := count_rows; registered := false |})
    by (vm_compute; reflexivity).
  assert (Hok : outcome (register_prepared "find" declared) =
                Ok {| definition := count_rows; registered := true |})
    by (vm_compute; reflexivity).
  split; [exact Hok|].
  destruct (register_prepared_once "find"
              {| definition := count_rows; registered := false |}
              {| definition := count_rows; registered := true |}
              declared Ho Hl eq_refl Hok)
    as (_ & _ & _ & Hnamed & _).
  apply Hnamed. discriminate.
Defined.

Lemma unprepare_forgets_witness :
  m_prepared declared_and_used !! "find" =
    Some {| definition := count_rows; registered := true |} /\
  count is_exec (events (unprepare "find" declared_and_used)) = 1%nat /\
  m_prepared (final (unprepare "find" declared_and_used)) !! "find" = None.
Proof.
  assert (Ho : is_open declared_and_used = true) by (vm_compute; reflexivity).
  assert (Hl : m_prepared declared_and_used !! "find" =
               Some {| definition := count_rows; registered := true |})
    by (vm_compute; reflexivity).
  assert (Hok : outcome (unprepare "find" declared_and_used) = Ok tt)
    by (vm_compute; reflexivity).
  destruct (unprepare_forgets "find" declared_and_used)
    as (_ & _ & Hsent & Hgone & _).
  destruct (Hsent _ Hl eq_refl Ho) as (Hone & _).
  split; [exact Hl | split; [exact Hone | exact (Hgone Hok)]].
Defined.

Lemma prepare_then_unprepare_witness :
  m_prepared (opened 0) !! "find" = None /\
  unprepare "find" (final (prepare "find" count_rows (opened 0))) =
  (Ok tt, opened 0, []).
Proof.
  assert (Hl : m_prepared (opened 0) !! "find" = None)
    by (vm_compute; reflexivity).
  split; [exact Hl|].
  exact (proj2 (prepare_then_unprepare "find" count_rows (opened 0) Hl)).
Defined.

(** ** What the lifecycle functions guarantee *)

Section Hoare.
Context {St : Type}.

Lemma bind_Ok_inv {A B : Type} (m : M St A) (k : A -> M St B) (s : St)
    (b : B) :
  outcome (bind m k s) = Ok b ->
  exists a, outcome (m s) = Ok a /\
            outcome (k a (final (m s))) = Ok b /\
            final (bind m k s) = final (k a (final (m s))).
Proof.
  unfold bind. destruct (m s) as [[[a|e] s1] t1]; [|discriminate].
  destruct (k a s1) as [[r s2] t2] eqn:Hk. cbn. intros ->.
  exists a. rewrite Hk. repeat split.
Qed.

Lemma hoare_ret {A : Type} (P : St -> Prop) (a : A) (Q : A -> St -> Prop) :
  (forall s, P s -> Q a s) -> hoare P (ret a) Q.
Proof. intros H s Hs a' [= <-]. apply H. exact Hs. Qed.

Lemma hoare_throw {A : Type} (P : St -> Prop) (e : exn)
    (Q : A -> St -> Prop) :
  hoare P (throw e) Q.
Proof. intros s _ a. discriminate. Qed.

Lemma hoare_bind {A B : Type} (P : St -> Prop) (R : A -> St -> Prop)
    (Q : B -> St -> Prop) (m : M St A) (k : A -> M St B) :
  hoare P m R -> (forall a, hoare (R a) (k a) Q) -> hoare P (bind m k) Q.
Proof.
  intros Hm Hk s Hs b Hb.
  destruct (bind_Ok_inv m k s b Hb) as (a & Ha & Hka & ->).
  apply (Hk a); [apply Hm; assumption | exact Hka].
Qed.

Lemma hoare_any {A : Type} (P : St -> Prop) (m : M St A) :
  hoare P m (fun _ _ => True).
Proof. intros s _ a _. exact I. Qed.

Lemma hoare_bind_last {A B : Type} (P : St -> Prop) (Q : B -> St -> Prop)
    (m : M St A) (k : A -> M St B) :
  (forall a, hoare (fun _ => True) (k a) Q) -> hoare P (bind m k) Q.
Proof. intros Hk. apply (hoare_bind P (fun _ _ => True)); [apply hoare_any | exact Hk]. Qed.

Lemma hoare_weaken {A : Type} (P P' : St -> Prop) (m : M St A)
    (Q : A -> St -> Prop) :
  (forall s, P' s -> P s) -> hoare P m Q -> hoare P' m Q.
Proof. intros HP Hm s Hs. apply Hm, HP, Hs. Qed.

Lemma hoare_try_catch {A : Type} (P : St -> Prop) (Q : A -> St -> Prop)
    (m : M St A) (h : exn -> M St A) :
  hoare P m Q -> (forall e, hoare (fun _ => True) (h e) Q) ->
  hoare P (try_catch m h) Q.
Proof.
  intros Hm Hh s Hs a. unfold try_catch. specialize (Hm s Hs).
  destruct (m s) as [[[a'|e] s1] t1]; cbn [outcome final fst snd] in *.
  - intros [= <-]. apply Hm. reflexivity.
  - specialize (Hh e s1 I a). destruct (h e s1) as [[r s2] t2].
    cbn [outcome final fst snd] in *. exact Hh.
Qed.

Lemma hoare_preserves {A X : Type} (f : St -> X) (v : X) (m : M St A) :
  preserves f m -> hoare (fun s => f s = v) m (fun _ s => f s = v).
Proof. intros Hm s Hs a _. rewrite (Hm s). exact Hs. Qed.

End Hoare.

Section Lifecycle.
Context {S : Type} `{Policy : connectionpolicy S} `{Pq : libpq S}.

Lemma hoare_open_check (P : state S -> Prop) (e : exn) :
  hoare P
    (o <- gets is_open ;; if negb o then throw e else ret tt)
    (fun _ s => is_open s = true).
Proof.
  intros s _ a. rewrite bind_gets.
  destruct (is_open s) eqn:Ho; cbn [negb]; [|discriminate].
  intros _. exact Ho.
Qed.

Local Ltac opens :=
  repeat first
    [ assumption
    | apply hoare_open_check
    | apply hoare_throw
    | apply hoare_bind_last; intros ?
    | match goal with
      | |- hoare _ (if ?b then _ else _) _ => destruct b
      | |- hoare _ (match ?x with _ => _ end) _ => destruct x
      end ].

Lemma SetupState_opens (P : state S -> Prop) :
  hoare P SetupState (fun _ s => is_open s = true).
Proof. unfold SetupState. opens. Qed.

Lemma activate_opens :
  hoare (fun s : state S => m_reactivation_avoidance s = 0) activate
    (fun _ s => is_open s = true).
Proof.
  intros s Hd a. unfold activate. rewrite bind_gets.
  destruct (is_open s) eqn:Ho; cbn [negb]; [intros _; exact Ho|].
  rewrite bind_gets. destruct (m_inhibit_reactivation s); [discriminate|].
  rewrite bind_gets, Hd. cbn [Z.eqb negb].
  match goal with
  | |- outcome (?m s) = Ok a -> _ =>
      enough (H : hoare (fun _ : state S => True) m
                    (fun _ s => is_open s = true))
        by exact (H s I a)
  end.
  apply hoare_try_catch.
  - pose proof (SetupState_opens (fun _ => True)). opens.
  - intros e. opens.
Qed.

Lemma Reset_opens :
  hoare (fun s : state S => m_reactivation_avoidance s = 0) Reset
    (fun _ s => is_open s = true).
Proof.
  intros s Hd a. unfold Reset. rewrite bind_gets.
  destruct (m_inhibit_reactivation s); [discriminate|].
  rewrite bind_gets, Hd. cbn [Z.eqb negb]. revert a.
  assert (Hrest : hoare (fun s : state S => m_reactivation_avoidance s = 0)
    (call_do_dropconnect ;;;
     modify (set_m_Completed false) ;;;
     c <- gets m_Conn ;;
     match c with
     | Some c' => call_PQreset c' ;;; SetupState
     | None => activate
     end)
    (fun _ s => is_open s = true)).
  { apply (hoare_bind _ (fun _ s => m_reactivation_avoidance s = 0)).
    { apply hoare_preserves. intros s0. unfold call_do_dropconnect.
      destruct (do_dropconnect (world s0) (m_Conn s0)). reflexivity. }
    intros _.
    apply (hoare_bind _ (fun _ s => m_reactivation_avoidance s = 0)).
    { apply hoare_preserves. intros s0. reflexivity. }
    intros _.
    apply (hoare_bind _ (fun _ s => m_reactivation_avoidance s = 0)).
    { apply hoare_preserves. intros s0. reflexivity. }
    intros [c|].
    - apply hoare_bind_last. intros _. apply SetupState_opens.
    - apply activate_opens. }
  exact (Hrest s Hd).
Qed.

(** X19.  With no reactivation debt, [activate] and [Reset] either throw
    or leave the connection open: neither ever returns normally with a
    connection that is not usable. *)
Theorem activate_Reset_open (s : state S) :
  m_reactivation_avoidance s = 0 ->
  (outcome (activate s) = Ok tt -> is_open (final (activate s)) = true) /\
  (outcome (Reset s) = Ok tt -> is_open (final (Reset s)) = true).
Proof.
  intros Hd. split; intros Hok.
  - exact (activate_opens s Hd tt Hok).
  - exact (Reset_opens s Hd tt Hok).
Qed.

Lemma check_result_Ok (R : result) (s : state S) :
  outcome (check_result R s) = Ok tt -> is_open s = true /\ usable R.
Proof.
  unfold check_result, usable, result_connection. rewrite bind_gets.
  destruct (is_open s); cbn [negb]; [|discriminate].
  destruct (r_data R) as [p|]; cbn [negb].
  - destruct (pg_error p) eqn:He; [discriminate|]. eauto.
  - rewrite bind_gets. discriminate.
Qed.

Lemma Exec_retry_query (Query : string) (n : nat) :
  forall R0, r_query R0 = Query ->
  hoare (fun _ : state S => True) (Exec_retry Query n R0)
    (fun R _ => r_query R = Query).
Proof.
  induction n as [|n IH]; intros R0 HR0; cbn [Exec_retry].
  - apply hoare_ret. intros; exact HR0.
  - apply hoare_bind_last. intros o.
    destruct (negb (result_connection R0) && negb o);
      [|apply hoare_ret; intros; exact HR0].
    apply hoare_bind_last. intros _. apply hoare_bind_last. intros o'.
    intros s _ R. intros Hok.
    destruct (bind_Ok_inv _ _ _ _ Hok) as (R' & HR' & Hk & _).
    assert (HRq : r_query R' = Query).
    { destruct o'.
      - destruct (bind_Ok_inv _ _ _ _ HR') as (r & _ & Hret & _).
        injection Hret as <-. reflexivity.
      - injection HR' as <-. exact HR0. }
    exact (IH R' HRq _ I R Hk).
Qed.

(** X20.  A result that [Exec] returns has passed the check: it is not
    null, it carries no error status, and it is the reply to the statement
    that was asked for, however many retries it took. *)
Theorem Exec_result_checked (Query : string) (Retries : Z) (s : state S)
    (R : result) :
  outcome (Exec Query Retries s) = Ok R ->
  usable R /\ r_query R = Query.
Proof.
  unfold Exec. intros Hok.
  destruct (bind_Ok_inv _ _ _ _ Hok) as (R0 & HR0 & Hk & _).
  assert (Hq0 : r_query R0 = Query).
  { unfold Exec_first in HR0.
    destruct (bind_Ok_inv _ _ _ _ HR0) as (? & _ & H1 & _).
    destruct (bind_Ok_inv _ _ _ _ H1) as (r & _ & Hret & _).
    injection Hret as <-. reflexivity. }
  destruct (bind_Ok_inv _ _ _ _ Hk) as (R1 & HR1 & Htail & _).
  pose proof (Exec_retry_query Query (Z.to_nat Retries) R0 Hq0 _ I R1 HR1)
    as Hq1.
  destruct (bind_Ok_inv _ _ _ _ Htail) as ([] & Hcheck & Hrest & _).
  destruct (bind_Ok_inv _ _ _ _ Hrest) as (? & _ & Hret & _).
  injection Hret as <-.
  split; [exact (proj2 (check_result_Ok R1 _ Hcheck)) | exact Hq1].
Qed.

Lemma settings_deactivate :
  preserves (session_settings (S := S)) deactivate.
Proof.
  unfold deactivate.
  repeat first
    [ frame_step
    | apply preserves_modify; intros ?; reflexivity
    | intros s0; rewrite process_notice_cstr_pure; reflexivity
    | intros s0; unfold call_do_disconnect;
      destruct (do_disconnect (world s0) (m_Conn s0)); reflexivity ].
Qed.

(** X21.  What the application has entrusted to the connection (session
    variables, receivers, error handlers, the transaction, the
    reactivation-avoidance count and flag, the trace stream) is never
    changed by [activate], [Reset], [deactivate] or [Exec], whether they
    succeed, reconnect, or throw. *)
Theorem lifecycle_keeps_settings (Query : string) (Retries : Z)
    (s : state S) :
  session_settings (final (activate s)) = session_settings s /\
  session_settings (final (Reset s)) = session_settings s /\
  session_settings (final (deactivate s)) = session_settings s /\
  session_settings (final (Exec Query Retries s)) = session_settings s.
Proof.
  split; [apply (frame_activate (session_settings (S := S))); reflexivity|].
  split; [apply (frame_Reset (session_settings (S := S))); reflexivity|].
  split; [apply settings_deactivate|].
  apply (frame_Exec (session_settings (S := S))); reflexivity.
Qed.

End Lifecycle.

Section Closing.
Context {S : Type} `{Policy : connectionpolicy S} `{Pq : libpq S}.

(** [close] step by step. *)
Lemma close_run (s : state S) :
  let s0 := set_m_reactivation_avoidance 0
              (set_m_inhibit_reactivation false (set_m_Completed false s)) in
  let D := do_disconnect (world s) (m_Conn s) in
  close s =
  (Ok tt,
   set_m_Conn (fst D)
     (set_world (snd D) (set_m_errorhandlers [] (set_m_receivers [] s0))),
   match m_Trans s with
   | Some t =>
       events (process_notice
         ("Closing connection while " +:+ description t +:+ " still open") s0)
   | None => []
   end ++
   match m_receivers s with
   | [] => []
   | _ :: _ =>
       events (process_notice_cstr
         "Closing connection with outstanding receivers." s0)
   end ++
   [Ev_PQsetNoticeProcessor (m_Conn s); Ev_do_disconnect (m_Conn s)]).
Proof.
  cbv zeta. unfold close. rewrite !bind_modify.
  set (s0 := set_m_reactivation_avoidance 0 _).
  assert (Hlast : forall s1 : state S,
    m_Conn s1 = m_Conn s -> world s1 = world s ->
    (c <- gets m_Conn ;;
     emit (Ev_PQsetNoticeProcessor c) ;;;
     modify (set_m_errorhandlers []) ;;;
     call_do_disconnect) s1 =
    (Ok tt,
     set_m_Conn (fst (do_disconnect (world s) (m_Conn s)))
       (set_world (snd (do_disconnect (world s) (m_Conn s)))
          (set_m_errorhandlers [] s1)),
     [Ev_PQsetNoticeProcessor (m_Conn s); Ev_do_disconnect (m_Conn s)])).
  { intros s1 Hc Hw. rewrite bind_gets, bind_emit, bind_modify.
    unfold call_do_disconnect. cbn [m_Conn world set_m_errorhandlers].
    rewrite Hc, Hw. destruct (do_disconnect (world s) (m_Conn s)).
    reflexivity. }
  assert (Hrecv :
    (rs <- gets m_receivers ;;
     match rs with
     | [] => ret tt
     | _ :: _ =>
         process_notice_cstr "Closing connection with outstanding receivers." ;;;
         modify (set_m_receivers [])
     end ;;;
     c <- gets m_Conn ;;
     emit (Ev_PQsetNoticeProcessor c) ;;;
     modify (set_m_errorhandlers []) ;;;
     call_do_disconnect) s0 =
    (Ok tt,
     set_m_Conn (fst (do_disconnect (world s) (m_Conn s)))
       (set_world (snd (do_disconnect (world s) (m_Conn s)))
          (set_m_errorhandlers [] (set_m_receivers [] s0))),
     match m_receivers s with
     | [] => []
     | _ :: _ =>
         events (process_notice_cstr
           "Closing connection with outstanding receivers." s0)
     end ++
     [Ev_PQsetNoticeProcessor (m_Conn s); Ev_do_disconnect (m_Conn s)])).
  { rewrite bind_gets. change (m_receivers s0) with (m_receivers s).
    destruct (m_receivers s) as [|i rest] eqn:Hrs.
    - rewrite bind_ret, (Hlast s0 eq_refl eq_refl).
      replace (set_m_receivers [] s0) with s0; [reflexivity|].
      subst s0. destruct s. cbn in Hrs. subst. reflexivity.
    - rewrite bind_assoc.
      rewrite (bind_Ok _ _ _ _ _ _ (process_notice_cstr_pure _ s0)).
      rewrite bind_modify, (Hlast (set_m_receivers [] s0) eq_refl eq_refl).
      reflexivity. }
  unfold try_catch. rewrite bind_gets. change (m_Trans s0) with (m_Trans s).
  destruct (m_Trans s) as [t|].
  - rewrite (bind_Ok _ _ _ _ _ _ (process_notice_pure _ s0)), Hrecv.
    reflexivity.
  - rewrite bind_ret, Hrecv. reflexivity.
Qed.

(** X22.  [close] never throws.  It leaves a connection that is not open,
    with no receivers and no error handlers, with the reactivation debt
    cleared and reactivation no longer inhibited, and with the handle the
    policy's [do_disconnect] gave back.  The handlers are told about a
    transaction or receivers left behind before they are dropped, and
    [do_disconnect] is the last thing called. *)
Theorem close_never_throws (s : state S) :
  outcome (close s) = Ok tt /\
  is_open (final (close s)) = false /\
  m_receivers (final (close s)) = [] /\
  m_errorhandlers (final (close s)) = [] /\
  m_reactivation_avoidance (final (close s)) = 0 /\
  m_inhibit_reactivation (final (close s)) = false /\
  m_Conn (final (close s)) = fst (do_disconnect (world s) (m_Conn s)) /\
  (exists t, events (close s) =
     t ++ [Ev_PQsetNoticeProcessor (m_Conn s); Ev_do_disconnect (m_Conn s)] /\
     Forall (fun e => exists h msg,
               In h (m_errorhandlers s) /\ e = Ev_errorhandler (eh_id h) msg) t) /\
  (m_Trans s = None -> m_receivers s = [] ->
   events (close s) =
     [Ev_PQsetNoticeProcessor (m_Conn s); Ev_do_disconnect (m_Conn s)]).
Proof.
  pose proof (close_run s) as Hrun. cbv zeta in Hrun. rewrite Hrun.
  cbn [outcome final events fst snd].
  split; [reflexivity|]. split.
  { unfold is_open. cbn. destruct (do_disconnect (world s) (m_Conn s)).1;
      reflexivity. }
  split; [reflexivity|]. split; [reflexivity|]. split; [reflexivity|].
  split; [reflexivity|]. split; [reflexivity|]. split.
  - eexists. rewrite app_assoc. split; [reflexivity|].
    assert (Hh : forall msg (s0 : state S),
      m_errorhandlers s0 = m_errorhandlers s ->
      Forall (fun e => exists h msg,
                In h (m_errorhandlers s) /\ e = Ev_errorhandler (eh_id h) msg)
        (events (process_notice_raw msg s0))).
    { intros msg s0 Hs0. unfold process_notice_raw.
      destruct (empty msg); [constructor|]. cbn [events snd]. rewrite Hs0.
      assert (Hsub : forall h, In h (rev (m_errorhandlers s)) ->
                               In h (m_errorhandlers s))
        by (intros h; apply in_rev).
      revert Hsub. generalize (rev (m_errorhandlers s)) as hs.
      induction hs as [|h hs IH]; intros Hsub; [constructor|].
      cbn [run_errorhandlers].
      constructor; [exists h, msg; split; [apply Hsub; left|]; reflexivity|].
      destruct (eh_call h msg); [|constructor].
      apply IH. intros h' Hin. apply Hsub. right. exact Hin. }
    apply Forall_app. split.
    + destruct (m_Trans s); [|constructor]. unfold process_notice.
      destruct (ends_with_newline _); apply Hh; reflexivity.
    + destruct (m_receivers s); [constructor|].
      unfold process_notice_cstr, process_notice.
      destruct (empty _); [constructor|].
      destruct (ends_with_newline _); apply Hh; reflexivity.
  - intros -> ->. reflexivity.
Qed.

End Closing.

Section Capabilities.
Context {S : Type} `{Policy : connectionpolicy S} `{Pq : libpq S}.

(** X23.  [read_capabilities] accepts a server only when the version it
    reports is above 90000 (so 9.0.0 itself is turned down, with the
    message that 9.0 is the minimum) and the protocol version is none of
    0, 1, 2.  It records the version whatever the outcome, talks to nobody,
    and sets capabilities only when it accepts: then every one of them is
    on, otherwise they are as they were. *)
Theorem read_capabilities_threshold (s : state S) :
  let v := PQserverVersion (world s) (m_Conn s) in
  m_serverversion (final (read_capabilities s)) = v /\
  events (read_capabilities s) = [] /\
  (outcome (read_capabilities s) = Ok tt <->
   90000 < v /\ protocol_version s <> 0 /\ protocol_version s <> 1 /\
   protocol_version s <> 2) /\
  (v <= 90000 ->
   outcome (read_capabilities s) =
     Throw (feature_not_supported
              "Unsupported server version; 9.0 is the minimum.")) /\
  (outcome (read_capabilities s) = Ok tt ->
   forall c, m_caps (final (read_capabilities s)) c = true) /\
  (forall e, outcome (read_capabilities s) = Throw e ->
   m_caps (final (read_capabilities s)) = m_caps s).
Proof.
  cbv zeta. unfold read_capabilities. rewrite bind_gets, bind_modify.
  set (v := PQserverVersion (world s) (m_Conn s)).
  set (s1 := set_m_serverversion v s).
  destruct (v <=? 90000) eqn:Hv.
  { apply Z.leb_le in Hv. cbn [outcome final events fst snd throw].
    split; [reflexivity|]. split; [reflexivity|]. split.
    { split; [discriminate | intros [Hlt _]; lia]. }
    split; [reflexivity|]. split; [discriminate|]. reflexivity. }
  apply Z.leb_gt in Hv. rewrite bind_gets.
  change (protocol_version s1) with (protocol_version s).
  destruct (protocol_version s =? 0) eqn:H0.
  { apply Z.eqb_eq in H0. cbn [outcome final events fst snd throw].
    split; [reflexivity|]. split; [reflexivity|]. split.
    { split; [discriminate | intros (_ & Hn & _); contradiction]. }
    split; [lia|]. split; [discriminate|]. reflexivity. }
  apply Z.eqb_neq in H0.
  destruct ((protocol_version s =? 1) || (protocol_version s =? 2)) eqn:H12.
  { apply orb_true_iff in H12. rewrite !Z.eqb_eq in H12.
    cbn [outcome final events fst snd throw].
    split; [reflexivity|]. split; [reflexivity|]. split.
    { split; [discriminate | intros (_ & _ & H1 & H2); tauto]. }
    split; [lia|]. split; [discriminate|]. reflexivity. }
  apply orb_false_iff in H12. rewrite !Z.eqb_neq in H12.
  destruct H12 as [H1 H2].
  cbn [outcome final events fst snd modify].
  split; [reflexivity|]. split; [reflexivity|]. split.
  { split; [intros _; tauto | reflexivity]. }
  split; [lia|]. split; [|discriminate].
  intros _ c. cbn [m_caps set_m_caps]. unfold set_cap.
  destruct c; reflexivity.
Qed.

(** X24.  When [activate] throws, the connection is not open afterwards:
    either reactivation was inhibited and the object is untouched, or the
    attempt failed and the object is marked as not completed. *)
Theorem activate_failure_closed (s : state S) (e : exn) :
  outcome (activate s) = Throw e ->
  is_open (final (activate s)) = false /\
  (m_inhibit_reactivation s = true /\ final (activate s) = s \/
   m_inhibit_reactivation s = false /\
   m_Completed (final (activate s)) = false).
Proof.
  unfold activate. rewrite bind_gets.
  destruct (is_open s) eqn:Ho; cbn [negb]; [discriminate|].
  rewrite bind_gets. destruct (m_inhibit_reactivation s).
  { intros _. split; [exact Ho | left; split; reflexivity]. }
  rewrite bind_gets. destruct (negb (m_reactivation_avoidance s =? 0));
    [discriminate|].
  unfold try_catch.
  match goal with |- context [match ?m s with _ => _ end] =>
    destruct (m s) as [[[a|e0] s1] t1] end; [discriminate|].
  intros _.
  assert (Hclosed : forall s2 : state S, m_Completed s2 = false ->
                                         is_open s2 = false).
  { intros s2 Hc. unfold is_open. rewrite Hc. destruct (m_Conn s2); reflexivity. }
  destruct (is_broken_connection e0).
  - unfold disconnect, clearcaps, bind, modify, throw, call_do_disconnect.
    destruct (do_disconnect _ _) as [h w]. cbn [final fst snd].
    split; [apply Hclosed; reflexivity | right; split; reflexivity].
  - unfold bind, modify, throw. cbn [final fst snd].
    split; [apply Hclosed; reflexivity | right; split; reflexivity].
Qed.

End Capabilities.

Lemma activate_Reset_open_witness :
  m_reactivation_avoidance (fresh (quiet 0)) = 0 /\
  outcome (activate (fresh (quiet 0))) = Ok tt /\
  is_open (final (activate (fresh (quiet 0)))) = true.
Proof.
  assert (Hd : m_reactivation_avoidance (fresh (quiet 0)) = 0)
    by reflexivity.
  assert (Hok : outcome (activate (fresh (quiet 0))) = Ok tt)
    by (vm_compute; reflexivity).
  split; [exact Hd | split; [exact Hok|]].
  exact (proj1 (activate_Reset_open (fresh (quiet 0)) Hd) Hok).
Defined.

(** Two failures, two resets, and the reply is still a checked one. *)
Lemma Exec_result_checked_witness :
  outcome (Exec "SELECT 1" 2 (opened 2)) =
    Ok {| r_data := Some ok_result; r_query := "SELECT 1" |} /\
  usable {| r_data := Some ok_result; r_query := "SELECT 1" |}.
Proof.
  assert (Hok : outcome (Exec "SELECT 1" 2 (opened 2)) =
                Ok {| r_data := Some ok_result; r_query := "SELECT 1" |})
    by (vm_compute; reflexivity).
  split; [exact Hok|].
  exact (proj1 (Exec_result_checked "SELECT 1" 2 (opened 2) _ Hok)).
Defined.

Lemma close_never_throws_witness :
  m_Trans (opened 0) = None /\
  m_receivers (opened 0) = [] /\
  events (close (opened 0)) =
    [Ev_PQsetNoticeProcessor (m_Conn (opened 0));
     Ev_do_disconnect (m_Conn (opened 0))].
Proof.
  assert (Ht : m_Trans (opened 0) = None) by (vm_compute; reflexivity).
  assert (Hr : m_receivers (opened 0) = []) by (vm_compute; reflexivity).
  destruct (close_never_throws (opened 0))
    as (_ & _ & _ & _ & _ & _ & _ & _ & Hplain).
  split; [exact Ht | split; [exact Hr | exact (Hplain Ht Hr)]].
Defined.

Lemma read_capabilities_threshold_witness :
  outcome (read_capabilities (opened 0)) = Ok tt /\
  m_caps (final (read_capabilities (opened 0))) cap_notify_payload = true.
Proof.
  assert (Hok : outcome (read_capabilities (opened 0)) = Ok tt)
    by (vm_compute; reflexivity).
  destruct (read_capabilities_threshold (opened 0))
    as (_ & _ & _ & _ & Hcaps & _).
  split; [exact Hok | exact (Hcaps Hok cap_notify_payload)].
Defined.

(** A connection that failed while in debt: reactivation is inhibited. *)
Lemma activate_failure_closed_witness :
  outcome (activate failed_in_debt) =
    Throw (broken_connection
      "Could not reactivate connection; reactivation is inhibited") /\
  is_open (final (activate failed_in_debt)) = false.
Proof.
  assert (Hthrow : outcome (activate failed_in_debt) =
    Throw (broken_connection
      "Could not reactivate connection; reactivation is inhibited"))
    by (vm_compute; reflexivity).
  split; [exact Hthrow|].
  exact (proj1 (activate_failure_closed failed_in_debt _ Hthrow)).
Defined.

(** ** Names made unique *)

Section Names.

Lemma has_char_append (c : ascii) (a b : string) :
  has_char c (a +:+ b) = has_char c a || has_char c b.
Proof.
  induction a as [|x a IH]; [reflexivity|].
  change (String x a +:+ b) with (String x (a +:+ b)).
  cbn [has_char]. rewrite IH, orb_assoc. reflexivity.
Qed.

Lemma digits_no_underscore (d : Decimal.uint) :
  has_char "_" (NilEmpty.string_of_uint d) = false.
Proof. induction d; cbn [NilEmpty.string_of_uint has_char]; auto. Qed.

Lemma to_string_no_underscore (z : Z) : has_char "_" (to_string z) = false.
Proof.
  unfold to_string, NilZero.string_of_int, NilZero.string_of_uint.
  destruct (Z.to_int z) as [d|d]; destruct d; try reflexivity;
    cbn [has_char Ascii.eqb Bool.eqb orb];
    first [ apply (digits_no_underscore (Decimal.D0 d))
          | apply (digits_no_underscore (Decimal.D1 d))
          | apply (digits_no_underscore (Decimal.D2 d))
          | apply (digits_no_underscore (Decimal.D3 d))
          | apply (digits_no_underscore (Decimal.D4 d))
          | apply (digits_no_underscore (Decimal.D5 d))
          | apply (digits_no_underscore (Decimal.D6 d))
          | apply (digits_no_underscore (Decimal.D7 d))
          | apply (digits_no_underscore (Decimal.D8 d))
          | apply (digits_no_underscore (Decimal.D9 d)) ].
Qed.

Lemma to_string_inj (z z' : Z) : to_string z = to_string z' -> z = z'.
Proof.
  assert (Hnn : forall x, Z.to_int x <> Decimal.Pos Decimal.Nil /\
                          Z.to_int x <> Decimal.Neg Decimal.Nil).
  { intros [|p|p]; cbn [Z.to_int]; split; try discriminate;
      intros [= Hp]; exact (DecimalPos.Unsigned.to_uint_nonnil p Hp). }
  unfold to_string. intros Heq.
  apply DecimalZ.to_int_inj.
  assert (Hs : NilZero.int_of_string (NilZero.string_of_int (Z.to_int z)) =
               NilZero.int_of_string (NilZero.string_of_int (Z.to_int z')))
    by (rewrite Heq; reflexivity).
  rewrite !NilZero.isi in Hs by apply Hnn. congruence.
Qed.

Lemma append_inj_r (a x y : string) : a +:+ x = a +:+ y -> x = y.
Proof.
  induction a as [|c a IH]; [exact (fun H => H)|].
  change (String c (a +:+ x) = String c (a +:+ y) -> x = y).
  intros [= H]. exact (IH H).
Qed.

(** A text is cut in one way only at its last underscore. *)
Lemma split_at_last_underscore (a b x y : string) :
  has_char "_" x = false -> has_char "_" y = false ->
  a +:+ "_" +:+ x = b +:+ "_" +:+ y -> a = b /\ x = y.
Proof.
  intros Hx Hy. revert b.
  induction a as [|c a IH]; intros [|c' b].
  - intros H. split; [reflexivity|]. exact (append_inj_r "_" x y H).
  - intros H. change (String "_" x = String c' (b +:+ "_" +:+ y)) in H.
    injection H as <- ->. rewrite has_char_append in Hx.
    apply orb_false_iff in Hx. destruct Hx as [_ Hx]. discriminate.
  - intros H. change (String c (a +:+ "_" +:+ x) = String "_" y) in H.
    injection H as -> <-. rewrite has_char_append in Hy.
    apply orb_false_iff in Hy. destruct Hy as [_ Hy]. discriminate.
  - intros H.
    change (String c (a +:+ "_" +:+ x) = String c' (b +:+ "_" +:+ y)) in H.
    injection H as <- H. destruct (IH b H) as [-> ->]. split; reflexivity.
Qed.

Lemma adorn_name_run (n : string) (id : Z) :
  adorn_name n id =
  (Ok (if empty n then "x" +:+ to_string (id + 1)
       else n +:+ "_" +:+ to_string (id + 1)),
   id + 1, []).
Proof. reflexivity. Qed.

Lemma adorn_name_inj (n n' : string) (id id' : Z) :
  outcome (adorn_name n id) = outcome (adorn_name n' id') ->
  n = n' /\ id = id'.
Proof.
  rewrite !adorn_name_run. cbn [outcome fst].
  pose proof (to_string_no_underscore (id + 1)) as Hd.
  pose proof (to_string_no_underscore (id' + 1)) as Hd'.
  assert (Hx : forall d, has_char "_" d = false ->
                         has_char "_" ("x" +:+ d) = false).
  { intros d H. change ("x" +:+ d) with (String "x" d). cbn. exact H. }
  assert (Hu : forall a d, has_char "_" (a +:+ "_" +:+ d) = true).
  { intros a d. rewrite has_char_append.
    change ("_" +:+ d) with (String "_" d). cbn. apply orb_true_r. }
  assert (Hok : forall a b : string, Ok a = Ok b -> a = b)
    by (intros a b [= e]; exact e).
  destruct n as [|c n]; destruct n' as [|c' n']; cbn [empty]; intros H;
    apply Hok in H.
  - apply (append_inj_r "x") in H. apply to_string_inj in H.
    split; [reflexivity | lia].
  - exfalso. specialize (Hx _ Hd). rewrite H, Hu in Hx. discriminate.
  - exfalso. specialize (Hx _ Hd'). rewrite <- H, Hu in Hx. discriminate.
  - destruct (split_at_last_underscore _ _ _ _ Hd Hd' H) as [Hn Hid].
    apply to_string_inj in Hid. split; [exact Hn | lia].
Qed.

(** X25.  [adorn_name] never gives the same name twice.  Each call
    advances the counter by one, and the name it returns determines both
    the name it was given and the counter it ran on; so two calls on one
    connection, for the same name or for different ones, return different
    names. *)
Theorem adorn_name_unique (n n' : string) (id id' : Z) :
  0 <= id < int_max -> 0 <= id' < int_max ->
  final (adorn_name n id) = id + 1 /\
  (outcome (adorn_name n id) = outcome (adorn_name n' id') ->
   n = n' /\ id = id') /\
  (id < id' ->
   outcome (adorn_name n id) <> outcome (adorn_name n' id')) /\
  outcome (adorn_name n id) <>
    outcome (adorn_name n' (final (adorn_name n id))).
Proof.
  intros _ _. split; [reflexivity|]. split; [apply adorn_name_inj|].
  split.
  - intros Hlt Heq. apply adorn_name_inj in Heq. lia.
  - intros Heq. apply adorn_name_inj in Heq.
    rewrite adorn_name_run in Heq. cbn [final fst snd] in Heq. lia.
Qed.

End Names.

Lemma adorn_name_unique_witness :
  outcome (adorn_name "cursor" 0) = Ok "cursor_1" /\
  outcome (adorn_name "cursor" (final (adorn_name "cursor" 0))) =
    Ok "cursor_2" /\
  outcome (adorn_name "cursor" 0) <>
    outcome (adorn_name "cursor" (final (adorn_name "cursor" 0))).
Proof.
  split; [vm_compute; reflexivity|]. split; [vm_compute; reflexivity|].
  assert (H0 : 0 <= 0 < int_max) by (unfold int_max; lia).
  assert (H1 : 0 <= 1 < int_max) by (unfold int_max; lia).
  destruct (adorn_name_unique "cursor" "cursor" 0 1 H0 H1)
    as (_ & _ & _ & Hnext).
  exact Hnext.
Defined.

(** ** Asking whether a statement is declared *)

Section Exists.
Context {S : Type} `{Policy : connectionpolicy S} `{Pq : libpq S}.

Lemma prepared_exists_run (name : string) (s : state S) :
  prepared_exists name s =
  (Ok (match definitions s !! name with Some _ => true | None => false end),
   s, []).
Proof.
  unfold prepared_exists, gets, definitions. rewrite lookup_fmap.
  destruct (m_prepared s !! name); reflexivity.
Qed.

Lemma prepare_Ok_declared (name def : string) (s : state S) :
  outcome (prepare name def s) = Ok tt ->
  is_Some (m_prepared (final (prepare name def s)) !! name) /\
  forall other, other <> name ->
    m_prepared (final (prepare name def s)) !! other = m_prepared s !! other.
Proof.
  unfold prepare. rewrite bind_gets.
  destruct (m_prepared s !! name) as [d|] eqn:Hl.
  - destruct (negb (String.eqb def (definition d))).
    + destruct (negb (empty name)); [discriminate|]. intros _.
      cbn [final modify fst snd m_prepared set_m_prepared]. split.
      * rewrite lookup_insert_eq. eauto.
      * intros other Hne. apply lookup_insert_ne. congruence.
    + intros _. cbn [final ret fst snd]. split; [rewrite Hl; eauto|].
      reflexivity.
  - intros _. cbn [final modify fst snd m_prepared set_m_prepared]. split.
    + rewrite lookup_insert_eq. eauto.
    + intros other Hne. apply lookup_insert_ne. congruence.
Qed.

Lemma unprepare_Ok_gone (name : string) (s : state S) :
  outcome (unprepare name s) = Ok tt ->
  m_prepared (final (unprepare name s)) !! name = None.
Proof.
  destruct (m_prepared s !! name) as [d|] eqn:Hl.
  - rewrite (unprepare_known name d s Hl).
    destruct (registered d); cbv zeta.
    + destruct (outcome (Exec (deallocate_query name) 0 s)); [|discriminate].
      intros _. apply lookup_delete_eq.
    + intros _. apply lookup_delete_eq.
  - unfold unprepare. rewrite bind_gets, Hl. intros _. exact Hl.
Qed.

(** X26.  [prepared_exists] answers for what [prepare] and [unprepare]
    have done and for nothing else: after a [prepare] that returned the
    name is known, after an [unprepare] that returned it is not, a
    [prepare] of one name does not change the answer for another, and no
    [activate], [Reset] or [Exec] changes the answer, reconnections
    included. *)
Theorem prepared_exists_tracks (name def Query : string) (Retries : Z)
    (s : state S) :
  (outcome (prepare name def s) = Ok tt ->
   prepared_exists name (final (prepare name def s)) =
     (Ok true, final (prepare name def s), [])) /\
  (outcome (unprepare name s) = Ok tt ->
   prepared_exists name (final (unprepare name s)) =
     (Ok false, final (unprepare name s), [])) /\
  (forall other, other <> name ->
   outcome (prepare name def s) = Ok tt ->
   outcome (prepared_exists other (final (prepare name def s))) =
     outcome (prepared_exists other s)) /\
  outcome (prepared_exists name (final (activate s))) =
    outcome (prepared_exists name s) /\
  outcome (prepared_exists name (final (Reset s))) =
    outcome (prepared_exists name s) /\
  outcome (prepared_exists name (final (Exec Query Retries s))) =
    outcome (prepared_exists name s).
Proof.
  split; [|split; [|split; [|split; [|split]]]].
  - intros Hok. destruct (prepare_Ok_declared name def s Hok) as [[d Hd] _].
    unfold prepared_exists, gets. rewrite Hd. reflexivity.
  - intros Hok. unfold prepared_exists, gets.
    rewrite (unprepare_Ok_gone name s Hok). reflexivity.
  - intros other Hne Hok.
    destruct (prepare_Ok_declared name def s Hok) as [_ Hother].
    unfold prepared_exists, gets. cbn [outcome fst].
    rewrite (Hother other Hne). reflexivity.
  - rewrite !prepared_exists_run, definitions_activate. reflexivity.
  - rewrite !prepared_exists_run, definitions_Reset. reflexivity.
  - rewrite !prepared_exists_run, definitions_Exec. reflexivity.
Qed.

End Exists.

Lemma prepared_exists_tracks_witness :
  outcome (prepare "find" count_rows (opened 0)) = Ok tt /\
  prepared_exists "find" (final (prepare "find" count_rows (opened 0))) =
    (Ok true, final (prepare "find" count_rows (opened 0)), []).
Proof.
  assert (Hok : outcome (prepare "find" count_rows (opened 0)) = Ok tt)
    by (vm_compute; reflexivity).
  split; [exact Hok|].
  exact (proj1 (prepared_exists_tracks "find" count_rows "SELECT 1" 0
                  (opened 0)) Hok).
Defined.
